(** * pg-strom: CUDA context and device control ([src/cuda_control.c])

    A shallow embedding of the execution-context registry, the context
    teardown path, task initialisation, the workgroup sizing calculator,
    device enumeration and the device-introspection function, followed by
    the properties established for them.

    Conventions of the embedding.
    - C [int] values are [Z]; signed overflow is undefined behaviour and is
      reported as the outcome [Undef].  [size_t] values are [Z] reduced
      modulo [2^64] ([to_size_t]).
    - Heap objects ([GpuContext], [GpuTaskState], [GpuTask]) live in finite
      maps indexed by their address; a dereference of an address that holds
      no object is [Undef].  Nullable pointers to such objects are
      [option addr]; opaque handles of the host and of the driver are [Z]
      with [0] for [NULL].
    - Every observable action (spin lock operations, CUDA driver calls with
      their return code, [elog] reports, calls into other modules) is
      appended to a trace, so that ordering properties can be stated.
    - The CUDA driver is an oracle ([Driver]): the return code of a call may
      depend on how many driver calls were issued before it. *)

From Stdlib Require Import ZArith Lia.
From stdpp Require Import base decidable option list gmap strings pretty.

Open Scope Z_scope.

(** ** C scalar types *)

Definition INT_MAX : Z := 2147483647.
Definition INT_MIN : Z := -2147483648.

(** Conversion to [size_t] (64-bit unsigned). *)
Definition to_size_t (x : Z) : Z := x mod 2 ^ 64.

Abbreviation addr := positive (only parsing).
Abbreviation CUresult := Z (only parsing).
Abbreviation CUdevice := Z (only parsing).
Abbreviation CUcontext := Z (only parsing).
Abbreviation CUmodule := Z (only parsing).
Abbreviation CUstream := Z (only parsing).
Abbreviation CUfunction := Z (only parsing).
Abbreviation ResourceOwner := Z (only parsing).
Abbreviation MemoryContext := Z (only parsing).
Abbreviation funptr := Z (only parsing).

Definition CUDA_SUCCESS : Z := 0.
Definition CU_STREAM_NON_BLOCKING : Z := 1.

Inductive CUdevice_attribute : Set :=
| CU_DEVICE_ATTRIBUTE_MAX_THREADS_PER_BLOCK
| CU_DEVICE_ATTRIBUTE_MAX_BLOCK_DIM_X
| CU_DEVICE_ATTRIBUTE_MAX_BLOCK_DIM_Y
| CU_DEVICE_ATTRIBUTE_MAX_BLOCK_DIM_Z
| CU_DEVICE_ATTRIBUTE_MAX_GRID_DIM_X
| CU_DEVICE_ATTRIBUTE_MAX_GRID_DIM_Y
| CU_DEVICE_ATTRIBUTE_MAX_GRID_DIM_Z
| CU_DEVICE_ATTRIBUTE_MAX_SHARED_MEMORY_PER_BLOCK
| CU_DEVICE_ATTRIBUTE_TOTAL_CONSTANT_MEMORY
| CU_DEVICE_ATTRIBUTE_WARP_SIZE
| CU_DEVICE_ATTRIBUTE_MAX_PITCH
| CU_DEVICE_ATTRIBUTE_MAX_REGISTERS_PER_BLOCK
| CU_DEVICE_ATTRIBUTE_CLOCK_RATE
| CU_DEVICE_ATTRIBUTE_TEXTURE_ALIGNMENT
| CU_DEVICE_ATTRIBUTE_MULTIPROCESSOR_COUNT
| CU_DEVICE_ATTRIBUTE_KERNEL_EXEC_TIMEOUT
| CU_DEVICE_ATTRIBUTE_INTEGRATED
| CU_DEVICE_ATTRIBUTE_CAN_MAP_HOST_MEMORY
| CU_DEVICE_ATTRIBUTE_COMPUTE_MODE
| CU_DEVICE_ATTRIBUTE_SURFACE_ALIGNMENT
| CU_DEVICE_ATTRIBUTE_CONCURRENT_KERNELS
| CU_DEVICE_ATTRIBUTE_ECC_ENABLED
| CU_DEVICE_ATTRIBUTE_PCI_BUS_ID
| CU_DEVICE_ATTRIBUTE_PCI_DEVICE_ID
| CU_DEVICE_ATTRIBUTE_TCC_DRIVER
| CU_DEVICE_ATTRIBUTE_MEMORY_CLOCK_RATE
| CU_DEVICE_ATTRIBUTE_GLOBAL_MEMORY_BUS_WIDTH
| CU_DEVICE_ATTRIBUTE_L2_CACHE_SIZE
| CU_DEVICE_ATTRIBUTE_MAX_THREADS_PER_MULTIPROCESSOR
| CU_DEVICE_ATTRIBUTE_ASYNC_ENGINE_COUNT
| CU_DEVICE_ATTRIBUTE_UNIFIED_ADDRESSING
| CU_DEVICE_ATTRIBUTE_PCI_DOMAIN_ID
| CU_DEVICE_ATTRIBUTE_COMPUTE_CAPABILITY_MAJOR
| CU_DEVICE_ATTRIBUTE_COMPUTE_CAPABILITY_MINOR
| CU_DEVICE_ATTRIBUTE_STREAM_PRIORITIES_SUPPORTED
| CU_DEVICE_ATTRIBUTE_GLOBAL_L1_CACHE_SUPPORTED
| CU_DEVICE_ATTRIBUTE_LOCAL_L1_CACHE_SUPPORTED
| CU_DEVICE_ATTRIBUTE_MAX_SHARED_MEMORY_PER_MULTIPROCESSOR
| CU_DEVICE_ATTRIBUTE_MAX_REGISTERS_PER_MULTIPROCESSOR
| CU_DEVICE_ATTRIBUTE_MANAGED_MEMORY
| CU_DEVICE_ATTRIBUTE_MULTI_GPU_BOARD
| CU_DEVICE_ATTRIBUTE_MULTI_GPU_BOARD_GROUP_ID.

Inductive CUfunction_attribute : Set :=
| CU_FUNC_ATTRIBUTE_SHARED_SIZE_BYTES
| CU_FUNC_ATTRIBUTE_MAX_THREADS_PER_BLOCK.

Inductive ResourceReleasePhase : Set :=
| RESOURCE_RELEASE_BEFORE_LOCKS
| RESOURCE_RELEASE_LOCKS
| RESOURCE_RELEASE_AFTER_LOCKS.

#[global] Instance ResourceReleasePhase_eq_dec : EqDecision ResourceReleasePhase.
Proof. solve_decision. Defined.

(** ** Observable actions *)

Inductive cuda_call : Type :=
| CuInit (flags : Z)
| CuDeviceGetCount
| CuDeviceGet (ordinal : Z)
| CuDeviceGetName (device : CUdevice)
| CuDeviceTotalMem (device : CUdevice)
| CuDeviceGetAttribute (attrib : CUdevice_attribute) (device : CUdevice)
| CuFuncGetAttribute (attrib : CUfunction_attribute) (function : CUfunction)
| CuOccupancyMaxPotentialBlockSize (function : CUfunction) (arg4 arg5 : Z)
| CuCtxGetDevice
| CuCtxSetCurrent (ctx : CUcontext)
| CuCtxSynchronize
| CuCtxDestroy (ctx : CUcontext)
| CuModuleUnload (module : CUmodule)
| CuStreamCreate (flags : Z).

Inductive elevel : Set := LOG | WARNING | ERROR.

Inductive slock : Set :=
| gcontext_lock
| gts_lock (gts : addr).

Inductive event : Type :=
| EvSpinLockAcquire (l : slock)
| EvSpinLockRelease (l : slock)
| EvCuda (call : cuda_call) (rc : CUresult)
| EvElog (lvl : elevel) (fmt : string)
| EvHostPinMemContextCreate (owner : ResourceOwner) (memcxt : MemoryContext)
| EvMemoryContextDelete (memcxt : MemoryContext)
| EvTaskRelease (cb : funptr) (task : addr)
| EvTaskStateCleanup (cb : funptr) (gts : addr)
| EvFileUnmapDataStore (fname : string)
| EvRegisterResourceReleaseCallback.

(** ** The CUDA driver as an oracle

    [drv_rc n c] is the return code of call [c] when it is the [n]-th
    driver call of the process.  The remaining fields give the values the
    driver writes through its output pointers when a call succeeds. *)

Record Driver : Type := {
  drv_rc : nat → cuda_call → CUresult;
  drv_device_count : Z;
  drv_device : Z → CUdevice;
  drv_device_name : CUdevice → string;
  drv_total_mem : CUdevice → Z;
  drv_device_attr : CUdevice_attribute → CUdevice → Z;
  drv_func_attr : CUfunction_attribute → CUfunction → Z;
  drv_occupancy : CUfunction → Z → Z → Z * Z;
  drv_current_device : nat → CUdevice;
  drv_stream : nat → CUstream;
}.

(** ** Data model ([pg_strom.h], fields as used by [cuda_control.c]) *)

Record pgstrom_data_store : Type := {
  kds_fname : option string;
}.

Record GpuContext : Type := {
  refcnt : Z;
  resowner : ResourceOwner;
  memcxt : MemoryContext;
  state_list : list addr;
  pds_list : list pgstrom_data_store;
  num_context : Z;
  cur_context : Z;
  dev_context : list CUcontext;
}.

Record GpuTaskState : Type := {
  gts_gcontext : addr;
  kern_source : Z;
  extra_flags : Z;
  cuda_module : CUmodule;
  tracked_tasks : list addr;
  running_tasks : list addr;
  pending_tasks : list addr;
  completed_tasks : list addr;
  cb_cleanup : funptr;
}.

Record GpuTask : Type := {
  task_gts : option addr;
  cuda_stream : CUstream;
  cuda_device : CUdevice;
  cuda_context : CUcontext;
  cb_process : funptr;
  cb_release : funptr;
}.

Definition gc_set_refcnt (v : Z) (gc : GpuContext) : GpuContext :=
  {| refcnt := v; resowner := resowner gc; memcxt := memcxt gc;
     state_list := state_list gc; pds_list := pds_list gc;
     num_context := num_context gc; cur_context := cur_context gc;
     dev_context := dev_context gc |}.

Definition gc_set_state_list (v : list addr) (gc : GpuContext) : GpuContext :=
  {| refcnt := refcnt gc; resowner := resowner gc; memcxt := memcxt gc;
     state_list := v; pds_list := pds_list gc;
     num_context := num_context gc; cur_context := cur_context gc;
     dev_context := dev_context gc |}.

Definition gc_set_pds_list (v : list pgstrom_data_store) (gc : GpuContext) : GpuContext :=
  {| refcnt := refcnt gc; resowner := resowner gc; memcxt := memcxt gc;
     state_list := state_list gc; pds_list := v;
     num_context := num_context gc; cur_context := cur_context gc;
     dev_context := dev_context gc |}.

Definition gc_set_cur_context (v : Z) (gc : GpuContext) : GpuContext :=
  {| refcnt := refcnt gc; resowner := resowner gc; memcxt := memcxt gc;
     state_list := state_list gc; pds_list := pds_list gc;
     num_context := num_context gc; cur_context := v;
     dev_context := dev_context gc |}.

Definition gts_set_cuda_module (v : CUmodule) (s : GpuTaskState) : GpuTaskState :=
  {| gts_gcontext := gts_gcontext s; kern_source := kern_source s;
     extra_flags := extra_flags s; cuda_module := v;
     tracked_tasks := tracked_tasks s; running_tasks := running_tasks s;
     pending_tasks := pending_tasks s; completed_tasks := completed_tasks s;
     cb_cleanup := cb_cleanup s |}.

Definition gts_set_tracked_tasks (v : list addr) (s : GpuTaskState) : GpuTaskState :=
  {| gts_gcontext := gts_gcontext s; kern_source := kern_source s;
     extra_flags := extra_flags s; cuda_module := cuda_module s;
     tracked_tasks := v; running_tasks := running_tasks s;
     pending_tasks := pending_tasks s; completed_tasks := completed_tasks s;
     cb_cleanup := cb_cleanup s |}.

(** ** Process state: the file-scope variables of [cuda_control.c], the
    host's current resource owner, the heap and the driver call counter. *)

Record world : Type := {
  cuda_device_ordinals : list Z;
  cuda_max_malloc_size : Z;
  cuda_max_threads_per_block : Z;
  cuda_compute_capability : Z;
  gcontext_hash : list (list addr);
  gcontext_last : option addr;
  cuda_num_devices : Z;
  cuda_devices : list CUdevice;
  dynamic_shmem_per_thread_tls : Z;
  CurrentResourceOwner : ResourceOwner;
  contexts : gmap addr GpuContext;
  taskstates : gmap addr GpuTaskState;
  tasks : gmap addr GpuTask;
  cuda_clock : nat;
}.

Record limits : Type := {
  lim_ordinals : list Z;
  lim_max_malloc_size : Z;
  lim_max_threads_per_block : Z;
  lim_compute_capability : Z;
}.

Definition world_limits (w : world) : limits :=
  {| lim_ordinals := cuda_device_ordinals w;
     lim_max_malloc_size := cuda_max_malloc_size w;
     lim_max_threads_per_block := cuda_max_threads_per_block w;
     lim_compute_capability := cuda_compute_capability w |}.

Definition set_limits (l : limits) (w : world) : world :=
  {| cuda_device_ordinals := lim_ordinals l;
     cuda_max_malloc_size := lim_max_malloc_size l;
     cuda_max_threads_per_block := lim_max_threads_per_block l;
     cuda_compute_capability := lim_compute_capability l;
     gcontext_hash := gcontext_hash w; gcontext_last := gcontext_last w;
     cuda_num_devices := cuda_num_devices w; cuda_devices := cuda_devices w;
     dynamic_shmem_per_thread_tls := dynamic_shmem_per_thread_tls w;
     CurrentResourceOwner := CurrentResourceOwner w;
     contexts := contexts w; taskstates := taskstates w; tasks := tasks w;
     cuda_clock := cuda_clock w |}.

Definition set_gcontext_hash (v : list (list addr)) (w : world) : world :=
  {| cuda_device_ordinals := cuda_device_ordinals w;
     cuda_max_malloc_size := cuda_max_malloc_size w;
     cuda_max_threads_per_block := cuda_max_threads_per_block w;
     cuda_compute_capability := cuda_compute_capability w;
     gcontext_hash := v; gcontext_last := gcontext_last w;
     cuda_num_devices := cuda_num_devices w; cuda_devices := cuda_devices w;
     dynamic_shmem_per_thread_tls := dynamic_shmem_per_thread_tls w;
     CurrentResourceOwner := CurrentResourceOwner w;
     contexts := contexts w; taskstates := taskstates w; tasks := tasks w;
     cuda_clock := cuda_clock w |}.

Definition set_gcontext_last (v : option addr) (w : world) : world :=
  {| cuda_device_ordinals := cuda_device_ordinals w;
     cuda_max_malloc_size := cuda_max_malloc_size w;
     cuda_max_threads_per_block := cuda_max_threads_per_block w;
     cuda_compute_capability := cuda_compute_capability w;
     gcontext_hash := gcontext_hash w; gcontext_last := v;
     cuda_num_devices := cuda_num_devices w; cuda_devices := cuda_devices w;
     dynamic_shmem_per_thread_tls := dynamic_shmem_per_thread_tls w;
     CurrentResourceOwner := CurrentResourceOwner w;
     contexts := contexts w; taskstates := taskstates w; tasks := tasks w;
     cuda_clock := cuda_clock w |}.

Definition set_cuda_runtime (n : Z) (devs : list CUdevice) (w : world) : world :=
  {| cuda_device_ordinals := cuda_device_ordinals w;
     cuda_max_malloc_size := cuda_max_malloc_size w;
     cuda_max_threads_per_block := cuda_max_threads_per_block w;
     cuda_compute_capability := cuda_compute_capability w;
     gcontext_hash := gcontext_hash w; gcontext_last := gcontext_last w;
     cuda_num_devices := n; cuda_devices := devs;
     dynamic_shmem_per_thread_tls := dynamic_shmem_per_thread_tls w;
     CurrentResourceOwner := CurrentResourceOwner w;
     contexts := contexts w; taskstates := taskstates w; tasks := tasks w;
     cuda_clock := cuda_clock w |}.

Definition set_dynamic_shmem_per_thread_tls (v : Z) (w : world) : world :=
  {| cuda_device_ordinals := cuda_device_ordinals w;
     cuda_max_malloc_size := cuda_max_malloc_size w;
     cuda_max_threads_per_block := cuda_max_threads_per_block w;
     cuda_compute_capability := cuda_compute_capability w;
     gcontext_hash := gcontext_hash w; gcontext_last := gcontext_last w;
     cuda_num_devices := cuda_num_devices w; cuda_devices := cuda_devices w;
     dynamic_shmem_per_thread_tls := v;
     CurrentResourceOwner := CurrentResourceOwner w;
     contexts := contexts w; taskstates := taskstates w; tasks := tasks w;
     cuda_clock := cuda_clock w |}.

Definition set_contexts (v : gmap addr GpuContext) (w : world) : world :=
  {| cuda_device_ordinals := cuda_device_ordinals w;
     cuda_max_malloc_size := cuda_max_malloc_size w;
     cuda_max_threads_per_block := cuda_max_threads_per_block w;
     cuda_compute_capability := cuda_compute_capability w;
     gcontext_hash := gcontext_hash w; gcontext_last := gcontext_last w;
     cuda_num_devices := cuda_num_devices w; cuda_devices := cuda_devices w;
     dynamic_shmem_per_thread_tls := dynamic_shmem_per_thread_tls w;
     CurrentResourceOwner := CurrentResourceOwner w;
     contexts := v; taskstates := taskstates w; tasks := tasks w;
     cuda_clock := cuda_clock w |}.

Definition set_taskstates (v : gmap addr GpuTaskState) (w : world) : world :=
  {| cuda_device_ordinals := cuda_device_ordinals w;
     cuda_max_malloc_size := cuda_max_malloc_size w;
     cuda_max_threads_per_block := cuda_max_threads_per_block w;
     cuda_compute_capability := cuda_compute_capability w;
     gcontext_hash := gcontext_hash w; gcontext_last := gcontext_last w;
     cuda_num_devices := cuda_num_devices w; cuda_devices := cuda_devices w;
     dynamic_shmem_per_thread_tls := dynamic_shmem_per_thread_tls w;
     CurrentResourceOwner := CurrentResourceOwner w;
     contexts := contexts w; taskstates := v; tasks := tasks w;
     cuda_clock := cuda_clock w |}.

Definition set_tasks (v : gmap addr GpuTask) (w : world) : world :=
  {| cuda_device_ordinals := cuda_device_ordinals w;
     cuda_max_malloc_size := cuda_max_malloc_size w;
     cuda_max_threads_per_block := cuda_max_threads_per_block w;
     cuda_compute_capability := cuda_compute_capability w;
     gcontext_hash := gcontext_hash w; gcontext_last := gcontext_last w;
     cuda_num_devices := cuda_num_devices w; cuda_devices := cuda_devices w;
     dynamic_shmem_per_thread_tls := dynamic_shmem_per_thread_tls w;
     CurrentResourceOwner := CurrentResourceOwner w;
     contexts := contexts w; taskstates := taskstates w; tasks := v;
     cuda_clock := cuda_clock w |}.

Definition set_cuda_clock (v : nat) (w : world) : world :=
  {| cuda_device_ordinals := cuda_device_ordinals w;
     cuda_max_malloc_size := cuda_max_malloc_size w;
     cuda_max_threads_per_block := cuda_max_threads_per_block w;
     cuda_compute_capability := cuda_compute_capability w;
     gcontext_hash := gcontext_hash w; gcontext_last := gcontext_last w;
     cuda_num_devices := cuda_num_devices w; cuda_devices := cuda_devices w;
     dynamic_shmem_per_thread_tls := dynamic_shmem_per_thread_tls w;
     CurrentResourceOwner := CurrentResourceOwner w;
     contexts := contexts w; taskstates := taskstates w; tasks := tasks w;
     cuda_clock := v |}.

(** ** The monad of the embedding

    A computation maps the process state to the trace it emitted, the state
    it left behind and its outcome.  [Raised] is [elog(ERROR, ...)], which
    does not return to its caller; the state is left as it was when the
    error was raised.  [Undef] is undefined behaviour of the C program.
    [OutOfFuel] only arises from the bounded unrolling of a [while] loop. *)

Inductive outcome (A : Type) : Type :=
| Done (a : A)
| Raised (msg : string)
| Undef
| OutOfFuel.
Arguments Done {A} a.
Arguments Raised {A} msg.
Arguments Undef {A}.
Arguments OutOfFuel {A}.

Definition M (A : Type) : Type := world → list event * world * outcome A.

#[global] Instance M_ret : MRet M := λ A a w, ([], w, Done a).

#[global] Instance M_bind : MBind M := λ A B f m w,
  match m w with
  | (t1, w1, Done a) =>
      match f a w1 with (t2, w2, r) => (t1 ++ t2, w2, r) end
  | (t1, w1, Raised msg) => (t1, w1, Raised msg)
  | (t1, w1, Undef) => (t1, w1, Undef)
  | (t1, w1, OutOfFuel) => (t1, w1, OutOfFuel)
  end.

Definition get_world : M world := λ w, ([], w, Done w).
Definition modify (f : world → world) : M unit := λ w, ([], f w, Done tt).
Definition emit (e : event) : M unit := λ w, ([e], w, Done tt).
Definition raise {A : Type} (msg : string) : M A := λ w, ([], w, Raised msg).
Definition undefined {A : Type} : M A := λ w, ([], w, Undef).
Definition out_of_fuel {A : Type} : M A := λ w, ([], w, OutOfFuel).

Definition when (b : bool) (m : M unit) : M unit := if b then m else mret tt.

Fixpoint forM_ {A : Type} (l : list A) (body : A → M unit) : M unit :=
  match l with
  | [] => mret tt
  | x :: l' => body x ;; forM_ l' body
  end.

(** [elog]: the format string stands for the message; at level [ERROR]
    control leaves the function. *)
Definition elog (lvl : elevel) (fmt : string) : M unit :=
  emit (EvElog lvl fmt) ;;
  match lvl with ERROR => raise fmt | _ => mret tt end.

(** An [int] result: defined only inside the range of [int]. *)
Definition int_result (x : Z) : M Z :=
  if bool_decide (INT_MIN ≤ x ≤ INT_MAX) then mret x else undefined.

(** Array read [a[i]]; outside the array it is undefined behaviour. *)
Definition array_get {A : Type} (a : list A) (i : Z) : M A :=
  if bool_decide (0 ≤ i) then
    match a !! Z.to_nat i with
    | Some x => mret x
    | None => undefined
    end
  else undefined.

Definition SpinLockAcquire (l : slock) : M unit := emit (EvSpinLockAcquire l).
Definition SpinLockRelease (l : slock) : M unit := emit (EvSpinLockRelease l).

Definition deref_gcontext (g : addr) : M GpuContext := λ w,
  match contexts w !! g with
  | Some gc => ([], w, Done gc)
  | None => ([], w, Undef)
  end.

Definition deref_gts (p : addr) : M GpuTaskState := λ w,
  match taskstates w !! p with
  | Some s => ([], w, Done s)
  | None => ([], w, Undef)
  end.

Definition deref_task (p : addr) : M GpuTask := λ w,
  match tasks w !! p with
  | Some t => ([], w, Done t)
  | None => ([], w, Undef)
  end.

(** Field update through a pointer: [g->field = ...]. *)
Definition update_gcontext (g : addr) (f : GpuContext → GpuContext) : M unit :=
  gc ← deref_gcontext g;
  modify (λ w, set_contexts (<[g := f gc]> (contexts w)) w).

Definition update_gts (p : addr) (f : GpuTaskState → GpuTaskState) : M unit :=
  s ← deref_gts p;
  modify (λ w, set_taskstates (<[p := f s]> (taskstates w)) w).

(** [dlist_delete] of a node of an intrusive list: the node leaves the list
    it is linked into. *)
Definition dlist_delete (p : addr) (l : list addr) : list addr :=
  filter (λ q, q ≠ p) l.

(** ** The operations of [cuda_control.c] *)

Section cuda_control.

(** The driver, and the CRC-32C of the resource owner that
    [gpucontext_hash_index] reduces modulo the number of buckets
    ([INIT_CRC32C]/[COMP_CRC32C]/[FIN_CRC32C] belong to the host).  The
    source hands [COMP_CRC32C] the pointer [resowner] itself as the data
    address, so the digest is taken over the first bytes of the owner
    object; the embedding takes it as a function of the resource owner. *)
Context (drv : Driver) (crc32c : ResourceOwner → Z).

(** A driver call: its return code comes from the oracle and the call is
    recorded in the trace. *)
Definition cuda (c : cuda_call) : M CUresult := λ w,
  let rc := drv_rc drv (cuda_clock w) c in
  ([EvCuda c rc], set_cuda_clock (S (cuda_clock w)) w, Done rc).

Definition failed (rc : CUresult) : bool := negb (rc =? CUDA_SUCCESS).

(** *** [pgstrom_init_cuda] *)

Fixpoint pgstrom_init_cuda_loop (ordinals : list Z) (i : nat) : M unit :=
  match ordinals with
  | [] => mret tt
  | ordinal :: rest =>
      rc ← cuda (CuDeviceGet ordinal);
      when (failed rc) (elog ERROR "failed on cuDeviceGet: %s") ;;
      modify (λ w, set_cuda_runtime (cuda_num_devices w)
                     (<[i := drv_device drv ordinal]> (cuda_devices w)) w) ;;
      pgstrom_init_cuda_loop rest (S i)
  end.

Definition pgstrom_init_cuda : M unit :=
  rc ← cuda (CuInit 0);
  when (failed rc) (elog ERROR "failed on cuInit: %s") ;;
  w ← get_world;
  let n := length (cuda_device_ordinals w) in
  modify (set_cuda_runtime (Z.of_nat n) (replicate n 0)) ;;
  pgstrom_init_cuda_loop (cuda_device_ordinals w) 0%nat.

(** *** [gpucontext_hash_index] *)

Definition gcontext_hash_size : Z := 100.

Definition gpucontext_hash_index (owner : ResourceOwner) : Z :=
  (crc32c owner mod 2 ^ 32) mod gcontext_hash_size.

(** *** [pgstrom_create_gpucontext]

    [HostPinMemContextCreate] and [MemoryContextAllocZero] belong to other
    modules: the arena is recorded as an event, the context object is placed
    at an address that holds no context, and the arena is named after that
    address. *)
Definition pgstrom_create_gpucontext (owner : ResourceOwner) : M addr :=
  w ← get_world;
  when (bool_decide (cuda_num_devices w < 0)) pgstrom_init_cuda ;;
  w ← get_world;
  let gcontext := fresh (dom (contexts w)) in
  let arena := Z.pos gcontext in
  emit (EvHostPinMemContextCreate owner arena) ;;
  modify (λ w, set_contexts
                 (<[gcontext :=
                      {| refcnt := 1; resowner := owner; memcxt := arena;
                         state_list := []; pds_list := [];
                         num_context := 0; cur_context := 0;
                         dev_context := [] |}]> (contexts w)) w) ;;
  mret gcontext.

(** *** [pgstrom_get_gpucontext] *)

(** The [dlist_foreach] scan of a bucket chain. *)
Fixpoint gcontext_chain_find (owner : ResourceOwner) (chain : list addr)
  : M (option addr) :=
  match chain with
  | [] => mret None
  | g :: rest =>
      gc ← deref_gcontext g;
      if bool_decide (resowner gc = owner) then mret (Some g)
      else gcontext_chain_find owner rest
  end.

Definition gcontext_incref (g : addr) : M unit :=
  gc ← deref_gcontext g;
  r ← int_result (refcnt gc + 1);
  update_gcontext g (gc_set_refcnt r).

Definition gcontext_last_matches (owner : ResourceOwner) : M (option addr) :=
  w ← get_world;
  match gcontext_last w with
  | None => mret None
  | Some g =>
      gc ← deref_gcontext g;
      if bool_decide (resowner gc = owner) then mret (Some g) else mret None
  end.

Definition pgstrom_get_gpucontext : M addr :=
  SpinLockAcquire gcontext_lock ;;
  w ← get_world;
  let owner := CurrentResourceOwner w in
  last ← gcontext_last_matches owner;
  match last with
  | Some gcontext =>
      gcontext_incref gcontext ;;
      SpinLockRelease gcontext_lock ;;
      mret gcontext
  | None =>
      (* not a last one, so search a hash table *)
      let hindex := gpucontext_hash_index owner in
      chain ← array_get (gcontext_hash w) hindex;
      found ← gcontext_chain_find owner chain;
      match found with
      | Some gcontext =>
          gcontext_incref gcontext ;;
          SpinLockRelease gcontext_lock ;;
          mret gcontext
      | None =>
          gcontext ← pgstrom_create_gpucontext owner;
          modify (λ w, set_gcontext_hash
                         (<[Z.to_nat hindex := chain ++ [gcontext]]>
                            (gcontext_hash w)) w) ;;
          SpinLockRelease gcontext_lock ;;
          mret gcontext
      end
  end.

(** *** [pgstrom_sync_gpucontext] *)

Definition pgstrom_sync_gpucontext (gcontext : addr) : M unit :=
  gc ← deref_gcontext gcontext;
  forM_ (seqZ 0 (num_context gc)) (λ i,
    ctx ← array_get (dev_context gc) i;
    rc ← cuda (CuCtxSetCurrent ctx);
    when (failed rc) (elog WARNING "failed on cuCtxSetCurrent: %s") ;;
    rc ← cuda CuCtxSynchronize;
    when (failed rc) (elog WARNING "failed on cuCtxSynchronize: %s")).

(** *** [pgstrom_release_gpucontext]

    The task callbacks, the task-state cleanup callback and
    [pgstrom_file_unmap_data_store] are code of the callers: each call is
    recorded as an event and is taken to return.  A call through a [NULL]
    [cb_release] is undefined behaviour.  The [Assert]s are not modelled.
    The source names the task state [gst] and the data-store iterator [iter]
    at one place each; the declared [gts] and the list iterator are meant. *)

Definition release_task (gts : addr) (is_commit : bool) (tp : addr) : M unit :=
  task ← deref_task tp;
  update_gts gts (λ s, gts_set_tracked_tasks (dlist_delete tp (tracked_tasks s)) s) ;;
  when is_commit (elog WARNING "Unreferenced GpuTask leak: %p") ;;
  if bool_decide (cb_release task = 0) then undefined
  else emit (EvTaskRelease (cb_release task) tp).

Definition release_taskstate (gcontext : addr) (is_commit : bool) (p : addr)
  : M unit :=
  gts ← deref_gts p;
  update_gcontext gcontext
    (λ gc, gc_set_state_list (dlist_delete p (state_list gc)) gc) ;;
  (* release cuda module, if any *)
  when (negb (bool_decide (cuda_module gts = 0)))
    (rc ← cuda (CuModuleUnload (cuda_module gts));
     when (failed rc) (elog WARNING "failed on cuModuleUnload: %s") ;;
     update_gts p (gts_set_cuda_module 0)) ;;
  (* release task objects *)
  forM_ (tracked_tasks gts) (release_task p is_commit) ;;
  (* release task state *)
  when is_commit (elog WARNING "Unreferenced GpuTaskState leak: %p") ;;
  when (negb (bool_decide (cb_cleanup gts = 0)))
    (emit (EvTaskStateCleanup (cb_cleanup gts) p)).

Definition release_data_store (gcontext : addr) (pds : pgstrom_data_store)
  : M unit :=
  update_gcontext gcontext (λ gc, gc_set_pds_list (drop 1 (pds_list gc)) gc) ;;
  match kds_fname pds with
  | Some fname => emit (EvFileUnmapDataStore fname)
  | None => mret tt
  end.

Definition destroy_dev_contexts (gc : GpuContext) : M unit :=
  forM_ (seqZ 0 (num_context gc)) (λ i,
    ctx ← array_get (dev_context gc) i;
    rc ← cuda (CuCtxDestroy ctx);
    when (failed rc) (elog WARNING "failed on cuCtxDestroy: %s")).

Definition pgstrom_release_gpucontext (gcontext : addr) (is_commit : bool)
  : M unit :=
  (* Ensure all the concurrent tasks getting completed *)
  pgstrom_sync_gpucontext gcontext ;;
  gc ← deref_gcontext gcontext;
  (* Release underlying TaskState, if any *)
  forM_ (state_list gc) (release_taskstate gcontext is_commit) ;;
  (* Release pgstrom_data_store *)
  forM_ (pds_list gc) (release_data_store gcontext) ;;
  (* OK, release this GpuContext *)
  destroy_dev_contexts gc ;;
  (* Ensure CUDA context is empty *)
  cuda (CuCtxSetCurrent 0) ;;
  (* OK, release the memory context that includes gcontext itself *)
  emit (EvMemoryContextDelete (memcxt gc)) ;;
  modify (λ w, set_contexts (delete gcontext (contexts w)) w).

(** *** [pgstrom_put_gpucontext] *)

Definition gcontext_unregister (gcontext : addr) : M unit :=
  modify (λ w,
    set_gcontext_hash (dlist_delete gcontext <$> gcontext_hash w)
      (if bool_decide (gcontext_last w = Some gcontext)
       then set_gcontext_last None w else w)).

Definition pgstrom_put_gpucontext (gcontext : addr) : M unit :=
  SpinLockAcquire gcontext_lock ;;
  gc ← deref_gcontext gcontext;
  r ← int_result (refcnt gc - 1);
  update_gcontext gcontext (gc_set_refcnt r) ;;
  let do_release := bool_decide (r = 0) in
  when do_release (gcontext_unregister gcontext) ;;
  SpinLockRelease gcontext_lock ;;
  when do_release (pgstrom_release_gpucontext gcontext true).

(** *** [pgstrom_init_gputaststate]

    [gts] points to storage of the caller; the fields the function does not
    assign ([cuda_module]) keep what the storage holds.  The lock and the
    counters it initialises and the performance counters it clears are not
    part of the data model.  [pgstrom_load_cuda_program] belongs to another
    module: the operation takes it as a parameter. *)
Definition pgstrom_init_gputaststate (pgstrom_load_cuda_program : addr → M unit)
    (gcontext gts : addr)
    (kern_source_arg extra_flags_arg : Z) (cb_cleanup_arg : funptr) : M unit :=
  update_gcontext gcontext (λ gc, gc_set_state_list (state_list gc ++ [gts]) gc) ;;
  s ← deref_gts gts;
  modify (λ w, set_taskstates
    (<[gts := {| gts_gcontext := gcontext; kern_source := kern_source_arg;
                 extra_flags := extra_flags_arg; cuda_module := cuda_module s;
                 tracked_tasks := []; running_tasks := [];
                 pending_tasks := []; completed_tasks := [];
                 cb_cleanup := cb_cleanup_arg |}]> (taskstates w)) w) ;;
  (* try to load binary module, or kick run-time compiler, if any *)
  when (negb (bool_decide (kern_source_arg = 0))) (pgstrom_load_cuda_program gts).

(** *** [pgstrom_init_gputask]

    [task] is storage of the caller; [memset] and the field assignments
    overwrite whatever it held.  The callbacks passed in are not stored by
    the source. *)

Definition pgstrom_init_gputask (gts : addr) (task : addr)
    (cb_process_arg cb_release_arg : funptr) : M unit :=
  s ← deref_gts gts;
  let gcontext := gts_gcontext s in
  gc ← deref_gcontext gcontext;
  (* index = (gcontext->cur_context++ % gcontext->num_context) *)
  next ← int_result (cur_context gc + 1);
  update_gcontext gcontext (gc_set_cur_context next) ;;
  when (bool_decide (num_context gc = 0)) undefined ;;
  let index := Z.rem (cur_context gc) (num_context gc) in
  ctx ← array_get (dev_context gc) index;
  w ← get_world;
  let device := drv_current_device drv (cuda_clock w) in
  rc ← cuda CuCtxGetDevice;
  when (failed rc) (elog ERROR "failed on cuCtxGetDevice: %s") ;;
  rc ← cuda (CuCtxSetCurrent ctx);
  when (failed rc) (elog ERROR "failed on cuCtxPushCurrent: %s") ;;
  w ← get_world;
  let stream := drv_stream drv (cuda_clock w) in
  rc ← cuda (CuStreamCreate CU_STREAM_NON_BLOCKING);
  when (failed rc) (elog ERROR "failed on cuStreamCreate: %s") ;;
  modify (λ w, set_tasks
                 (<[task := {| task_gts := Some gts; cuda_stream := stream;
                               cuda_device := device; cuda_context := ctx;
                               cb_process := 0; cb_release := 0 |}]> (tasks w)) w) ;;
  (* tracked by GpuTaskState *)
  SpinLockAcquire (gts_lock gts) ;;
  update_gts gts (λ s, gts_set_tracked_tasks (tracked_tasks s ++ [task]) s) ;;
  SpinLockRelease (gts_lock gts).

(** *** [gpucontext_cleanup_callback] *)

Definition gpucontext_cleanup_callback (phase : ResourceReleasePhase)
    (is_commit is_toplevel : bool) : M unit :=
  w ← get_world;
  let owner := CurrentResourceOwner w in
  let hindex := gpucontext_hash_index owner in
  if negb (bool_decide (phase = RESOURCE_RELEASE_AFTER_LOCKS)) then mret tt
  else
    SpinLockAcquire gcontext_lock ;;
    chain ← array_get (gcontext_hash w) hindex;
    found ← gcontext_chain_find owner chain;
    match found with
    | Some gcontext =>
        (* OK, GpuContext to be released *)
        gcontext_unregister gcontext ;;
        SpinLockRelease gcontext_lock ;;
        when is_commit
          (elog WARNING "Probably, someone forgot to put GpuContext") ;;
        pgstrom_release_gpucontext gcontext is_commit
    | None => SpinLockRelease gcontext_lock
    end.

(** *** [pgstrom_compute_workgroup_size] *)

(** The loop condition
    [dynamic_shmem_per_block + dynamic_shmem_per_thread * block_size >
     maximum_shmem_per_block]: [dynamic_shmem_per_thread] is a [size_t], so
    the [int] operands are converted and the arithmetic wraps at [2^64]. *)
Definition shmem_exceeds (dynamic_shmem_per_block dynamic_shmem_per_thread
    maximum_shmem_per_block block_size : Z) : bool :=
  to_size_t maximum_shmem_per_block <?
    to_size_t (to_size_t dynamic_shmem_per_block
               + to_size_t (dynamic_shmem_per_thread * to_size_t block_size)).

(** [while (exceeds(block_size)) block_size--;] with [block_size] an [int];
    [fuel] bounds the number of evaluations of the condition. *)
Fixpoint shrink_block_size (fuel : nat) (exceeds : Z → bool) (block_size : Z)
  : M Z :=
  match fuel with
  | O => out_of_fuel
  | S fuel' =>
      if exceeds block_size then
        next ← int_result (block_size - 1);
        shrink_block_size fuel' exceeds next
      else mret block_size
  end.

Definition cuFuncGetAttribute (attrib : CUfunction_attribute)
    (function : CUfunction) (fmt : string) : M Z :=
  rc ← cuda (CuFuncGetAttribute attrib function);
  when (failed rc) (elog ERROR fmt) ;;
  mret (drv_func_attr drv attrib function).

Definition cuDeviceGetAttribute (attrib : CUdevice_attribute)
    (device : CUdevice) (fmt : string) : M Z :=
  rc ← cuda (CuDeviceGetAttribute attrib device);
  when (failed rc) (elog ERROR fmt) ;;
  mret (drv_device_attr drv attrib device).

(** The result is the pair [( *p_grid_size, *p_block_size )]. *)
Definition pgstrom_compute_workgroup_size (fuel : nat)
    (function : CUfunction) (device : CUdevice) (maximum_blocksize : bool)
    (nitems dynamic_shmem_per_thread : Z) : M (Z * Z) :=
  (* get statically allocated shared memory *)
  dynamic_shmem_per_block ←
    cuFuncGetAttribute CU_FUNC_ATTRIBUTE_SHARED_SIZE_BYTES function
      "failed on cuFuncGetAttribute";
  if maximum_blocksize then
    block_size ←
      cuFuncGetAttribute CU_FUNC_ATTRIBUTE_MAX_THREADS_PER_BLOCK function
        "failed on cuFuncGetAttribute: %s";
    maximum_shmem_per_block ←
      cuDeviceGetAttribute CU_DEVICE_ATTRIBUTE_MAX_SHARED_MEMORY_PER_BLOCK
        device "failed on cuDeviceGetAttribute: %s";
    warp_size ←
      cuDeviceGetAttribute CU_DEVICE_ATTRIBUTE_WARP_SIZE
        device "failed on cuDeviceGetAttribute: %s";
    block_size ←
      shrink_block_size fuel
        (shmem_exceeds dynamic_shmem_per_block dynamic_shmem_per_thread
           maximum_shmem_per_block) block_size;
    when (bool_decide (block_size < warp_size))
      (elog ERROR "Expected block size is too small (%zu)") ;;
    let bs := to_size_t block_size in
    if bool_decide (bs = 0) then undefined
    else mret (to_size_t (nitems + bs - 1) / bs, bs)
  else
    modify (set_dynamic_shmem_per_thread_tls dynamic_shmem_per_thread) ;;
    w ← get_world;
    let limit := cuda_max_threads_per_block w in
    rc ← cuda (CuOccupancyMaxPotentialBlockSize function
                 dynamic_shmem_per_block limit);
    when (failed rc)
      (elog ERROR "failed on cuOccupancyMaxPotentialBlockSize: %s") ;;
    let '(grid_size, block_size) :=
      drv_occupancy drv function dynamic_shmem_per_block limit in
    mret (to_size_t grid_size, to_size_t block_size).

(** *** [pgstrom_check_device_capability] *)

(** [(dev_mem_sz / 3) & ~((1UL << 20) - 1)] *)
Definition malloc_ceiling (dev_mem_sz : Z) : Z :=
  Z.land (to_size_t dev_mem_sz / 3) (to_size_t (Z.lnot (Z.shiftl 1 20 - 1))).

Definition pgstrom_check_device_capability (ordinal : Z) (device : CUdevice)
  : M bool :=
  rc ← cuda (CuDeviceGetName device);
  when (failed rc) (elog ERROR "failed on cuDeviceGetName: %s") ;;
  rc ← cuda (CuDeviceTotalMem device);
  when (failed rc) (elog ERROR "failed on cuDeviceTotalMem: %s") ;;
  let dev_mem_sz := drv_total_mem drv device in
  dev_max_threads_per_block ←
    cuDeviceGetAttribute CU_DEVICE_ATTRIBUTE_MAX_THREADS_PER_BLOCK device
      "failed on cuDeviceGetAttribute: %s";
  dev_mem_clk ←
    cuDeviceGetAttribute CU_DEVICE_ATTRIBUTE_MEMORY_CLOCK_RATE device
      "failed on cuDeviceGetAttribute: %s";
  dev_mem_width ←
    cuDeviceGetAttribute CU_DEVICE_ATTRIBUTE_GLOBAL_MEMORY_BUS_WIDTH device
      "failed on cuDeviceGetAttribute: %s";
  dev_l2_sz ←
    cuDeviceGetAttribute CU_DEVICE_ATTRIBUTE_L2_CACHE_SIZE device
      "failed on cuDeviceGetAttribute: %s";
  dev_cap_major ←
    cuDeviceGetAttribute CU_DEVICE_ATTRIBUTE_COMPUTE_CAPABILITY_MAJOR device
      "failed on cuDeviceGetAttribute: %s";
  dev_cap_minor ←
    cuDeviceGetAttribute CU_DEVICE_ATTRIBUTE_COMPUTE_CAPABILITY_MINOR device
      "failed on cuDeviceGetAttribute: %s";
  dev_mpu_nums ←
    cuDeviceGetAttribute CU_DEVICE_ATTRIBUTE_MULTIPROCESSOR_COUNT device
      "failed on cuDeviceGetAttribute: %s";
  dev_mpu_clk ←
    cuDeviceGetAttribute CU_DEVICE_ATTRIBUTE_CLOCK_RATE device
      "failed on cuDeviceGetAttribute: %s";
  (* device older than Kepler is not supported *)
  let result := negb (dev_cap_major <? 3) in
  (* Track referenced device property *)
  capability ← int_result (100 * dev_cap_major + dev_cap_minor);
  modify (λ w, set_limits
    {| lim_ordinals := cuda_device_ordinals w;
       lim_max_malloc_size :=
         Z.min (cuda_max_malloc_size w) (malloc_ceiling dev_mem_sz);
       lim_max_threads_per_block :=
         Z.min (cuda_max_threads_per_block w)
               (to_size_t dev_max_threads_per_block);
       lim_compute_capability :=
         Z.min (cuda_compute_capability w) capability |} w) ;;
  (* Log the brief CUDA device properties *)
  elog LOG "CUDA device[%d] %s (%d of SMs (%dMHz), L2 %dKB, RAM %zuMB (%dbits, %dKHz), computing capability %d.%d%s" ;;
  mret result.

(** *** [pgstrom_init_cuda_control] *)

Definition pgstrom_init_cuda_control : M unit :=
  (* initialization of CUDA runtime *)
  rc ← cuda (CuInit 0);
  when (failed rc) (elog ERROR "failed on cuInit(%s)") ;;
  (* construct a list of available devices *)
  rc ← cuda CuDeviceGetCount;
  when (failed rc) (elog ERROR "failed on cuDeviceGetCount(%s)") ;;
  let count := drv_device_count drv in
  forM_ (seqZ 0 count) (λ i,
    rc ← cuda (CuDeviceGet i);
    when (failed rc) (elog ERROR "failed on cuDeviceGet(%s)") ;;
    ok ← pgstrom_check_device_capability i (drv_device drv i);
    when ok
      (modify (λ w, set_limits
         {| lim_ordinals := cuda_device_ordinals w ++ [i];
            lim_max_malloc_size := cuda_max_malloc_size w;
            lim_max_threads_per_block := cuda_max_threads_per_block w;
            lim_compute_capability := cuda_compute_capability w |} w))) ;;
  w ← get_world;
  when (bool_decide (cuda_device_ordinals w = []))
    (elog ERROR "no CUDA device found on the system") ;;
  (* initialization of GpuContext related stuff *)
  modify (set_gcontext_hash (replicate (Z.to_nat gcontext_hash_size) [])) ;;
  emit EvRegisterResourceReleaseCallback.

(** *** [pgstrom_device_info] *)

Definition DEVATTR_BOOL : Z := 1.
Definition DEVATTR_INT : Z := 2.
Definition DEVATTR_KB : Z := 3.
Definition DEVATTR_MHZ : Z := 4.
Definition DEVATTR_COMP_MODE : Z := 5.
Definition DEVATTR_BITS : Z := 6.

Definition catalog : list (CUdevice_attribute * string * Z) := [
    (CU_DEVICE_ATTRIBUTE_MAX_THREADS_PER_BLOCK,
     "max threads per block", DEVATTR_INT);
    (CU_DEVICE_ATTRIBUTE_MAX_BLOCK_DIM_X,
     "Maximum block dimension X", DEVATTR_INT);
    (CU_DEVICE_ATTRIBUTE_MAX_BLOCK_DIM_Y,
     "Maximum block dimension Y", DEVATTR_INT);
    (CU_DEVICE_ATTRIBUTE_MAX_BLOCK_DIM_Z,
     "Maximum block dimension Z", DEVATTR_INT);
    (CU_DEVICE_ATTRIBUTE_MAX_GRID_DIM_X,
     "Maximum grid dimension X", DEVATTR_INT);
    (CU_DEVICE_ATTRIBUTE_MAX_GRID_DIM_Y,
     "Maximum grid dimension Y", DEVATTR_INT);
    (CU_DEVICE_ATTRIBUTE_MAX_GRID_DIM_Z,
     "Maximum grid dimension Z", DEVATTR_INT);
    (CU_DEVICE_ATTRIBUTE_MAX_SHARED_MEMORY_PER_BLOCK,
     "Maximum shared memory available per block", DEVATTR_KB);
    (CU_DEVICE_ATTRIBUTE_TOTAL_CONSTANT_MEMORY,
     "Memory available on device for __constant__", DEVATTR_KB);
    (CU_DEVICE_ATTRIBUTE_WARP_SIZE,
     "Warp size in threads", DEVATTR_INT);
    (CU_DEVICE_ATTRIBUTE_MAX_PITCH,
     "Maximum pitch in bytes allowed by memory copies", DEVATTR_INT);
    (CU_DEVICE_ATTRIBUTE_MAX_REGISTERS_PER_BLOCK,
     "Maximum number of 32bit registers available per block", DEVATTR_INT);
    (CU_DEVICE_ATTRIBUTE_CLOCK_RATE,
     "Typical clock frequency in kilohertz", DEVATTR_MHZ);
    (CU_DEVICE_ATTRIBUTE_TEXTURE_ALIGNMENT,
     "Alignment requirement for textures", DEVATTR_INT);
    (CU_DEVICE_ATTRIBUTE_MULTIPROCESSOR_COUNT,
     "Number of multiprocessors on device", DEVATTR_INT);
    (CU_DEVICE_ATTRIBUTE_KERNEL_EXEC_TIMEOUT,
     "Has kernel execution timeout", DEVATTR_BOOL);
    (CU_DEVICE_ATTRIBUTE_INTEGRATED,
     "Integrated with host memory", DEVATTR_BOOL);
    (CU_DEVICE_ATTRIBUTE_CAN_MAP_HOST_MEMORY,
     "Host memory can be mapped to CUDA address space", DEVATTR_BOOL);
    (CU_DEVICE_ATTRIBUTE_COMPUTE_MODE,
     "Compute mode", DEVATTR_COMP_MODE);
    (CU_DEVICE_ATTRIBUTE_SURFACE_ALIGNMENT,
     "Alignment requirement for surfaces", DEVATTR_INT);
    (CU_DEVICE_ATTRIBUTE_CONCURRENT_KERNELS,
     "Multiple concurrent kernel support", DEVATTR_BOOL);
    (CU_DEVICE_ATTRIBUTE_ECC_ENABLED,
     "Device has ECC support enabled", DEVATTR_BOOL);
    (CU_DEVICE_ATTRIBUTE_PCI_BUS_ID,
     "PCI bus ID of the device", DEVATTR_INT);
    (CU_DEVICE_ATTRIBUTE_PCI_DEVICE_ID,
     "PCI device ID of the device", DEVATTR_INT);
    (CU_DEVICE_ATTRIBUTE_TCC_DRIVER,
     "Device is using TCC driver model", DEVATTR_BOOL);
    (CU_DEVICE_ATTRIBUTE_MEMORY_CLOCK_RATE,
     "Peak memory clock frequency", DEVATTR_MHZ);
    (CU_DEVICE_ATTRIBUTE_GLOBAL_MEMORY_BUS_WIDTH,
     "Global memory bus width", DEVATTR_BITS);
    (CU_DEVICE_ATTRIBUTE_L2_CACHE_SIZE,
     "Size of L2 cache in bytes", DEVATTR_KB);
    (CU_DEVICE_ATTRIBUTE_MAX_THREADS_PER_MULTIPROCESSOR,
     "Maximum threads per multiprocessor", DEVATTR_INT);
    (CU_DEVICE_ATTRIBUTE_ASYNC_ENGINE_COUNT,
     "Number of asynchronous engines", DEVATTR_INT);
    (CU_DEVICE_ATTRIBUTE_UNIFIED_ADDRESSING,
     "Device shares unified address space", DEVATTR_BOOL);
    (CU_DEVICE_ATTRIBUTE_PCI_DOMAIN_ID,
     "PCI domain ID of the device", DEVATTR_INT);
    (CU_DEVICE_ATTRIBUTE_COMPUTE_CAPABILITY_MAJOR,
     "Major compute capability version number", DEVATTR_INT);
    (CU_DEVICE_ATTRIBUTE_COMPUTE_CAPABILITY_MINOR,
     "Minor compute capability version number", DEVATTR_INT);
    (CU_DEVICE_ATTRIBUTE_STREAM_PRIORITIES_SUPPORTED,
     "Device supports stream priorities", DEVATTR_BOOL);
    (CU_DEVICE_ATTRIBUTE_GLOBAL_L1_CACHE_SUPPORTED,
     "Device supports caching globals in L1", DEVATTR_BOOL);
    (CU_DEVICE_ATTRIBUTE_LOCAL_L1_CACHE_SUPPORTED,
     "Device supports caching locals in L1", DEVATTR_BOOL);
    (CU_DEVICE_ATTRIBUTE_MAX_SHARED_MEMORY_PER_MULTIPROCESSOR,
     "Maximum shared memory per multiprocessor", DEVATTR_KB);
    (CU_DEVICE_ATTRIBUTE_MAX_REGISTERS_PER_MULTIPROCESSOR,
     "Maximum number of 32bit registers per multiprocessor", DEVATTR_INT);
    (CU_DEVICE_ATTRIBUTE_MANAGED_MEMORY,
     "Device can allocate managed memory on this system", DEVATTR_BOOL);
    (CU_DEVICE_ATTRIBUTE_MULTI_GPU_BOARD,
     "Device is on a multi-GPU board", DEVATTR_BOOL);
    (CU_DEVICE_ATTRIBUTE_MULTI_GPU_BOARD_GROUP_ID,
     "Unique id if device is on a multi-GPU board", DEVATTR_INT)
  ].

(** Formatting of one catalog attribute.  For [DEVATTR_COMP_MODE] the source
    leaves [att_value] unassigned and then reads it. *)
Definition format_att_value (attkind property : Z) : M string :=
  if attkind =? DEVATTR_BOOL then
    mret (if property =? 0 then "False" else "True")
  else if attkind =? DEVATTR_INT then mret (pretty property)
  else if attkind =? DEVATTR_KB then
    mret (pretty (property ÷ 1024) +:+ " KBytes")
  else if attkind =? DEVATTR_MHZ then
    mret (pretty (property ÷ 1000) +:+ " MHz")
  else if attkind =? DEVATTR_COMP_MODE then undefined
  else if attkind =? DEVATTR_BITS then mret (pretty property +:+ " bits")
  else elog ERROR "Bug? unexpected device attribute type" ;; undefined.

(** One call of the set-returning function at call counter [call_cntr]:
    [None] is [SRF_RETURN_DONE], [Some (id, attribute, value)] is the row
    handed to [SRF_RETURN_NEXT].  The tuple descriptor set up on the first
    call belongs to the host and is not modelled. *)
Definition pgstrom_device_info (call_cntr : Z)
  : M (option (Z * string * string)) :=
  let lengthof_catalog := Z.of_nat (length catalog) in
  let dindex := call_cntr / (lengthof_catalog + 2) in
  let aindex := call_cntr mod (lengthof_catalog + 2) in
  w ← get_world;
  when (bool_decide (cuda_num_devices w < 0)) pgstrom_init_cuda ;;
  w ← get_world;
  if bool_decide (cuda_num_devices w ≤ dindex) then mret None
  else
    device ← array_get (cuda_devices w) dindex;
    if bool_decide (aindex = 0) then
      rc ← cuda (CuDeviceGetName device);
      when (failed rc) (elog ERROR "failed on cuDeviceGetName: %s") ;;
      mret (Some (dindex, "Device name", drv_device_name drv device))
    else if bool_decide (aindex = 1) then
      rc ← cuda (CuDeviceTotalMem device);
      when (failed rc) (elog ERROR "failed on cuDeviceTotalMem: %s") ;;
      mret (Some (dindex, "Total global memory size",
                  pretty (Z.shiftr (drv_total_mem drv device) 20) +:+ " MBytes"))
    else
      '(attrib, attname, attkind) ← array_get catalog aindex;
      property ← cuDeviceGetAttribute attrib device
                   "failed on cuDeviceGetAttribute: %s";
      att_value ← format_att_value attkind property;
      mret (Some (dindex, attname, att_value)).

End cuda_control.

(** * Vocabulary of the properties *)

(** [prefix t r] puts the trace [t] in front of the run [r]. *)
Definition prefix {A : Type} (t : list event) (r : list event * world * outcome A)
  : list event * world * outcome A :=
  match r with (t', w, o) => (t ++ t', w, o) end.

(** [post Q m]: whatever its outcome, a run of [m] relates the state it
    starts in, the trace it emits and the state it leaves by [Q]. *)
Definition post (Q : world → list event → world → Prop) {A : Type} (m : M A)
  : Prop :=
  ∀ w t w' o, m w = (t, w', o) → Q w t w'.

(** Relations closed under doing nothing and under sequencing. *)
Class Sequential (Q : world → list event → world → Prop) : Prop := {
  seq_nil : ∀ w, Q w [] w;
  seq_app : ∀ w t1 w1 t2 w2, Q w t1 w1 → Q w1 t2 w2 → Q w (t1 ++ t2) w2;
}.

(** The state relation [R] holds between the initial and the final state. *)
Definition keeps (R : relation world) : world → list event → world → Prop :=
  λ w _ w', R w w'.

(** Every emitted event satisfies [P]. *)
Definition emits (P : event → Prop) : world → list event → world → Prop :=
  λ _ t _, Forall P t.

(** Nothing is emitted and the state is left as it was. *)
Definition silent : world → list event → world → Prop :=
  λ w t w', t = [] ∧ w' = w.

(** [total I m P]: from a state that satisfies [I], [m] returns normally
    with a value that satisfies [P] and re-establishes [I]. *)
Definition total (I : world → Prop) {A : Type} (m : M A) (P : A → Prop) : Prop :=
  ∀ w, I w → ∃ t w' a, m w = (t, w', Done a) ∧ I w' ∧ P a.

(** ** The registry *)

Definition owner_of (w : world) (g : addr) : option ResourceOwner :=
  resowner <$> contexts w !! g.

(** Every chained context is a live object, and the table has its
    [lengthof(gcontext_hash)] buckets. *)
Definition registry_wf (w : world) : Prop :=
  length (gcontext_hash w) = Z.to_nat gcontext_hash_size ∧
  Forall (Forall (λ g, is_Some (contexts w !! g))) (gcontext_hash w).

(** No chained context is bound to the current resource owner. *)
Definition scope_unregistered (w : world) : Prop :=
  Forall (Forall (λ g, owner_of w g ≠ Some (CurrentResourceOwner w)))
         (gcontext_hash w).

(** The most-recently-used slot is empty or holds a live context of another
    resource owner. *)
Definition last_unbound (w : world) : Prop :=
  match gcontext_last w with
  | None => True
  | Some g =>
      is_Some (contexts w !! g) ∧ owner_of w g ≠ Some (CurrentResourceOwner w)
  end.

Definition registered (g : addr) (w : world) : Prop :=
  ∃ chain, chain ∈ gcontext_hash w ∧ g ∈ chain.

(** The part of the state the registry operations work on. *)
Definition same_registry (w w' : world) : Prop :=
  contexts w' = contexts w ∧ gcontext_hash w' = gcontext_hash w ∧
  gcontext_last w' = gcontext_last w ∧
  CurrentResourceOwner w' = CurrentResourceOwner w.

(** The bucket table and the most-recently-used slot. *)
Definition same_table (w w' : world) : Prop :=
  gcontext_hash w' = gcontext_hash w ∧ gcontext_last w' = gcontext_last w.

(** [n] consecutive acquisitions under the current resource owner, and [n]
    consecutive releases of one context. *)
Fixpoint acquire_n (drv : Driver) (crc32c : ResourceOwner → Z) (n : nat)
  : M (list addr) :=
  match n with
  | O => mret []
  | S n' =>
      g ← pgstrom_get_gpucontext drv crc32c;
      gs ← acquire_n drv crc32c n';
      mret (g :: gs)
  end.

Fixpoint release_n (drv : Driver) (n : nat) (g : addr) : M unit :=
  match n with
  | O => mret tt
  | S n' => pgstrom_put_gpucontext drv g ;; release_n drv n' g
  end.

(** Physical teardown ends with the deletion of the context's arena. *)
Definition is_teardown (e : event) : bool :=
  match e with EvMemoryContextDelete _ => true | _ => false end.

Definition teardowns (t : list event) : nat := length (List.filter is_teardown t).

(** The context [g] is chained last in the bucket of the current resource
    owner, is bound to it with reference count [r], owns no task state, data
    store or device sub-context, and no context chained before it, nor the
    most-recently-used slot, is bound to that owner. *)
Record held (crc32c : ResourceOwner → Z) (g : addr) (r : Z) (w : world) : Prop := {
  held_positive : 1 ≤ r ≤ INT_MAX;
  held_context :
    ∃ gc, contexts w !! g = Some gc ∧ refcnt gc = r ∧
          resowner gc = CurrentResourceOwner w ∧ state_list gc = [] ∧
          pds_list gc = [] ∧ num_context gc = 0;
  held_chain :
    ∃ pre, gcontext_hash w !! Z.to_nat (gpucontext_hash_index crc32c (CurrentResourceOwner w))
           = Some (pre ++ [g]) ∧
           Forall (λ p, is_Some (contexts w !! p)) pre ∧
           Forall (λ p, owner_of w p ≠ Some (CurrentResourceOwner w)) pre;
  held_last : last_unbound w;
}.

(** ** Concrete data for examples

    A driver on which every call succeeds, with two devices: device 0 of
    compute capability 2.0 (1.5 GB, 512 threads per block) and device 1 of
    compute capability 3.5 (12 GB, 1024 threads per block). *)
Definition example_driver : Driver := {|
  drv_rc := λ _ _, CUDA_SUCCESS;
  drv_device_count := 2;
  drv_device := λ ordinal, ordinal;
  drv_device_name := λ device, if device =? 0 then "Fermi" else "Kepler";
  drv_total_mem := λ device, if device =? 0 then 1610612736 else 12884901888;
  drv_device_attr := λ attrib device,
    match attrib with
    | CU_DEVICE_ATTRIBUTE_COMPUTE_CAPABILITY_MAJOR => if device =? 0 then 2 else 3
    | CU_DEVICE_ATTRIBUTE_COMPUTE_CAPABILITY_MINOR => if device =? 0 then 0 else 5
    | CU_DEVICE_ATTRIBUTE_MAX_THREADS_PER_BLOCK => if device =? 0 then 512 else 1024
    | CU_DEVICE_ATTRIBUTE_WARP_SIZE => 32
    | CU_DEVICE_ATTRIBUTE_MAX_SHARED_MEMORY_PER_BLOCK => 49152
    | _ => 1
    end;
  drv_func_attr := λ attrib function,
    match attrib with
    | CU_FUNC_ATTRIBUTE_SHARED_SIZE_BYTES => 1024
    | CU_FUNC_ATTRIBUTE_MAX_THREADS_PER_BLOCK => 1024
    end;
  drv_occupancy := λ _ _ _, (16, 1024);
  drv_current_device := λ _, 1;
  drv_stream := λ n, Z.of_nat n + 1;
|}.

Definition example_crc32c : ResourceOwner → Z := λ owner, owner.

(** The process state before [pgstrom_init_cuda_control] ran, with the
    initial values of the file-scope variables. *)
Definition boot_world : world := {|
  cuda_device_ordinals := [];
  cuda_max_malloc_size := INT_MAX;
  cuda_max_threads_per_block := INT_MAX;
  cuda_compute_capability := INT_MAX;
  gcontext_hash := replicate (Z.to_nat gcontext_hash_size) [];
  gcontext_last := None;
  cuda_num_devices := -1;
  cuda_devices := [];
  dynamic_shmem_per_thread_tls := 0;
  CurrentResourceOwner := 4242;
  contexts := ∅; taskstates := ∅; tasks := ∅;
  cuda_clock := 0;
|}.

(** ** Teardown *)

(** The drain step: a synchronisation of the current device sub-context. *)
Definition is_drain (e : event) : bool :=
  match e with EvCuda CuCtxSynchronize _ => true | _ => false end.

(** Release of a task, of a task state or of a data store, unloading of a
    module, destruction of a device sub-context and of the arena. *)
Definition is_destruction (e : event) : bool :=
  match e with
  | EvTaskRelease _ _ | EvTaskStateCleanup _ _ | EvFileUnmapDataStore _
  | EvMemoryContextDelete _ => true
  | EvCuda (CuModuleUnload _) _ | EvCuda (CuCtxDestroy _) _ => true
  | _ => false
  end.

(** The driver calls of a trace, in order. *)
Definition calls (t : list event) : list cuda_call :=
  omap (λ e, match e with EvCuda c _ => Some c | _ => None end) t.

(** Every driver call that failed is followed at once by a [WARNING]. *)
Fixpoint every_failure_warned (t : list event) : bool :=
  match t with
  | [] => true
  | EvCuda _ rc :: t' =>
      (if rc =? CUDA_SUCCESS then true
       else match t' with EvElog WARNING _ :: _ => true | _ => false end)
      && every_failure_warned t'
  | _ :: t' => every_failure_warned t'
  end.

Definition warned : world → list event → world → Prop :=
  λ _ t _, every_failure_warned t = true.

(** No report above [WARNING]. *)
Definition no_error_report (e : event) : bool :=
  match e with EvElog ERROR _ => false | _ => true end.

(** The heap objects. *)
Definition same_heap (w w' : world) : Prop :=
  contexts w' = contexts w ∧ taskstates w' = taskstates w ∧ tasks w' = tasks w.

(** A tracked task is a live object with a release callback. *)
Definition task_ready (T : gmap addr GpuTask) (tp : addr) : Prop :=
  match T !! tp with
  | Some task => cb_release task ≠ 0
  | None => False
  end.

Definition gts_ready (w : world) (p : addr) : Prop :=
  match taskstates w !! p with
  | Some s => Forall (task_ready (tasks w)) (tracked_tasks s)
  | None => False
  end.

(** The context [g] is the live object [gc], its array of device
    sub-contexts has [num_context] entries, and its task states and their
    tracked tasks are ready. *)
Definition teardown_ready (g : addr) (gc : GpuContext) (w : world) : Prop :=
  contexts w !! g = Some gc ∧
  num_context gc = Z.of_nat (length (dev_context gc)) ∧
  Forall (gts_ready w) (state_list gc).

(** A context with two device sub-contexts, one task state with a loaded
    module and one tracked task, and one file-mapped data store. *)
Definition teardown_world : world := {|
  cuda_device_ordinals := [1];
  cuda_max_malloc_size := 536870912;
  cuda_max_threads_per_block := 512;
  cuda_compute_capability := 200;
  gcontext_hash := replicate (Z.to_nat gcontext_hash_size) [];
  gcontext_last := None;
  cuda_num_devices := 1;
  cuda_devices := [1];
  dynamic_shmem_per_thread_tls := 0;
  CurrentResourceOwner := 4242;
  contexts :=
    {[ 1%positive :=
         {| refcnt := 0; resowner := 4242; memcxt := 1;
            state_list := [5%positive];
            pds_list := [ {| kds_fname := Some "/dev/shm/kds" |} ];
            num_context := 2; cur_context := 1;
            dev_context := [11; 12] |} ]};
  taskstates :=
    {[ 5%positive :=
         {| gts_gcontext := 1%positive; kern_source := 0; extra_flags := 0;
            cuda_module := 77; tracked_tasks := [9%positive];
            running_tasks := []; pending_tasks := []; completed_tasks := [];
            cb_cleanup := 31 |} ]};
  tasks :=
    {[ 9%positive :=
         {| task_gts := Some 5%positive; cuda_stream := 3; cuda_device := 1;
            cuda_context := 11; cb_process := 0; cb_release := 32 |} ]};
  cuda_clock := 0;
|}.

(** A driver on which [cuCtxSetCurrent(NULL)] fails and every other call
    succeeds, one on which every call fails, and one on which
    [cuCtxSynchronize] fails and every other call succeeds. *)
Definition reset_failing_driver : Driver := {|
  drv_rc := λ _ c, match c with CuCtxSetCurrent 0 => 1 | _ => CUDA_SUCCESS end;
  drv_device_count := drv_device_count example_driver;
  drv_device := drv_device example_driver;
  drv_device_name := drv_device_name example_driver;
  drv_total_mem := drv_total_mem example_driver;
  drv_device_attr := drv_device_attr example_driver;
  drv_func_attr := drv_func_attr example_driver;
  drv_occupancy := drv_occupancy example_driver;
  drv_current_device := drv_current_device example_driver;
  drv_stream := drv_stream example_driver;
|}.

Definition failing_driver : Driver := {|
  drv_rc := λ _ _, 999;
  drv_device_count := drv_device_count example_driver;
  drv_device := drv_device example_driver;
  drv_device_name := drv_device_name example_driver;
  drv_total_mem := drv_total_mem example_driver;
  drv_device_attr := drv_device_attr example_driver;
  drv_func_attr := drv_func_attr example_driver;
  drv_occupancy := drv_occupancy example_driver;
  drv_current_device := drv_current_device example_driver;
  drv_stream := drv_stream example_driver;
|}.

Definition drain_failing_driver : Driver := {|
  drv_rc := λ _ c, match c with CuCtxSynchronize => 700 | _ => CUDA_SUCCESS end;
  drv_device_count := drv_device_count example_driver;
  drv_device := drv_device example_driver;
  drv_device_name := drv_device_name example_driver;
  drv_total_mem := drv_total_mem example_driver;
  drv_device_attr := drv_device_attr example_driver;
  drv_func_attr := drv_func_attr example_driver;
  drv_occupancy := drv_occupancy example_driver;
  drv_current_device := drv_current_device example_driver;
  drv_stream := drv_stream example_driver;
|}.

(** The invariant of the teardown loops of context [g]: the tasks are
    those of [T], the context is live, and every task state of [SL] is live
    and tracks ready tasks only. *)
Definition teardown_inv (g : addr) (T : gmap addr GpuTask) (SL : list addr)
    (w : world) : Prop :=
  tasks w = T ∧ is_Some (contexts w !! g) ∧
  Forall (λ p, ∃ s, taskstates w !! p = Some s ∧
                    Forall (task_ready T) (tracked_tasks s)) SL.

(** ** Acquisition *)

(** The state of a backend after the postmaster ran
    [pgstrom_init_cuda_control] on the example driver. *)
Definition ready_world : world :=
  (pgstrom_init_cuda_control example_driver boot_world).1.2.

Definition same_last (w w' : world) : Prop := gcontext_last w' = gcontext_last w.

(** The events emitted while [gcontext_lock] is held; [held] tells whether
    it is held at the start of the trace. *)
Fixpoint critical_section (held : bool) (t : list event) : list event :=
  match t with
  | [] => []
  | EvSpinLockAcquire gcontext_lock :: t' => critical_section true t'
  | EvSpinLockRelease gcontext_lock :: t' => critical_section false t'
  | e :: t' =>
      if held then e :: critical_section held t' else critical_section held t'
  end.

(** Driver calls and arena allocation. *)
Definition is_device_call_or_allocation (e : event) : bool :=
  match e with
  | EvCuda _ _ | EvHostPinMemContextCreate _ _ => true
  | _ => false
  end.

(** Driver calls and reports. *)
Definition is_driver_call_or_report (e : event) : Prop :=
  match e with
  | EvCuda _ _ | EvElog _ _ => True
  | _ => False
  end.

(** ** Device enumeration *)

Definition fold_min (init : Z) (l : list Z) : Z := foldl Z.min init l.

(** The devices the driver reports, in ordinal order. *)
Definition enumerated (drv : Driver) : list Z := seqZ 0 (drv_device_count drv).

(** The capability predicate of [pgstrom_check_device_capability]. *)
Definition supported (drv : Driver) (ordinal : Z) : bool :=
  negb (drv_device_attr drv CU_DEVICE_ATTRIBUTE_COMPUTE_CAPABILITY_MAJOR
          (drv_device drv ordinal) <? 3).

Definition device_malloc_ceiling (drv : Driver) (ordinal : Z) : Z :=
  malloc_ceiling (drv_total_mem drv (drv_device drv ordinal)).

Definition device_max_threads (drv : Driver) (ordinal : Z) : Z :=
  to_size_t (drv_device_attr drv CU_DEVICE_ATTRIBUTE_MAX_THREADS_PER_BLOCK
               (drv_device drv ordinal)).

Definition device_capability (drv : Driver) (ordinal : Z) : Z :=
  100 * drv_device_attr drv CU_DEVICE_ATTRIBUTE_COMPUTE_CAPABILITY_MAJOR
          (drv_device drv ordinal)
  + drv_device_attr drv CU_DEVICE_ATTRIBUTE_COMPUTE_CAPABILITY_MINOR
      (drv_device drv ordinal).

(** The aggregated limits as the specification describes them: the minimum
    over the devices that passed the capability predicate. *)
Definition minimum (l : list Z) : option Z :=
  match l with
  | [] => None
  | x :: l' => Some (foldl Z.min x l')
  end.

Definition specified_limits (drv : Driver) : option Z * option Z * option Z :=
  let accepted := List.filter (supported drv) (enumerated drv) in
  (minimum (device_malloc_ceiling drv <$> accepted),
   minimum (device_max_threads drv <$> accepted),
   minimum (device_capability drv <$> accepted)).

(** ** Workgroup sizing *)

(** A driver that reports a kernel whose static shared memory (49153 bytes)
    exceeds the 49152 bytes a block of the device may use. *)
Definition oversized_kernel_driver : Driver := {|
  drv_rc := drv_rc example_driver;
  drv_device_count := drv_device_count example_driver;
  drv_device := drv_device example_driver;
  drv_device_name := drv_device_name example_driver;
  drv_total_mem := drv_total_mem example_driver;
  drv_device_attr := drv_device_attr example_driver;
  drv_func_attr := λ attrib function,
    match attrib with
    | CU_FUNC_ATTRIBUTE_SHARED_SIZE_BYTES => 49153
    | CU_FUNC_ATTRIBUTE_MAX_THREADS_PER_BLOCK => 1024
    end;
  drv_occupancy := drv_occupancy example_driver;
  drv_current_device := drv_current_device example_driver;
  drv_stream := drv_stream example_driver;
|}.

(** ** The invariant of the registry *)

(** The invariant of the registry. *)
Record registry_inv (crc32c : ResourceOwner → Z) (w : world) : Prop := {
  inv_buckets : length (gcontext_hash w) = Z.to_nat gcontext_hash_size;
  inv_chained : ∀ i chain g,
    gcontext_hash w !! i = Some chain → g ∈ chain →
    ∃ gc, contexts w !! g = Some gc ∧ 1 ≤ refcnt gc ∧
          i = Z.to_nat (gpucontext_hash_index crc32c (resowner gc));
  inv_nodup : ∀ i chain, gcontext_hash w !! i = Some chain → NoDup chain;
  inv_owner : ∀ g1 g2 gc1 gc2,
    registered g1 w → registered g2 w →
    contexts w !! g1 = Some gc1 → contexts w !! g2 = Some gc2 →
    resowner gc1 = resowner gc2 → g1 = g2;
  inv_last : ∀ g, gcontext_last w = Some g → registered g w;
}.

(** Every context other than [g] is left as it was. *)
Definition same_others (g : addr) (w w' : world) : Prop :=
  CurrentResourceOwner w' = CurrentResourceOwner w ∧
  ∀ p, p ≠ g → contexts w' !! p = contexts w !! p.

(** The state after [gcontext] left the bucket table and the slot. *)
Definition unchained (gcontext : addr) (w : world) : world :=
  (gcontext_unregister gcontext w).1.2.

(** What [pgstrom_create_gpucontext] leaves of the registry, whatever its
    outcome: the table and the slot, and every context that was live. *)
Definition extends (w w' : world) : Prop :=
  gcontext_hash w' = gcontext_hash w ∧ gcontext_last w' = gcontext_last w ∧
  CurrentResourceOwner w' = CurrentResourceOwner w ∧
  ∀ p gc, contexts w !! p = Some gc → contexts w' !! p = Some gc.

(** ** The outcomes of runs *)

(** [ends_with R U m]: a run of [m] that raises an error raises one of [R];
    a run of [m] is undefined only if [U]; no run of [m] runs out of fuel. *)
Definition ends_with (R : string → Prop) (U : Prop) {A : Type} (m : M A) : Prop :=
  ∀ w t w' o, m w = (t, w', o) →
    match o with
    | Done _ => True
    | Raised msg => R msg
    | Undef => U
    | OutOfFuel => False
    end.

(** The errors of [pgstrom_init_cuda]. *)
Definition init_cuda_error (msg : string) : Prop :=
  msg = "failed on cuInit: %s" ∨ msg = "failed on cuDeviceGet: %s".

(** ** Further concrete data *)

(** The state of the backend after its first acquisition. *)
Definition held_world : world :=
  (pgstrom_get_gpucontext example_driver example_crc32c ready_world).1.2.

(** A backend whose list of usable ordinals is [0; 1], and a driver on which
    [cuDeviceGet] of ordinal 1 fails. *)
Definition two_device_world : world :=
  set_limits {| lim_ordinals := [0; 1]; lim_max_malloc_size := 536870912;
                lim_max_threads_per_block := 512;
                lim_compute_capability := 200 |} boot_world.

Definition second_device_failing_driver : Driver := {|
  drv_rc := λ _ c, match c with CuDeviceGet 1 => 100 | _ => CUDA_SUCCESS end;
  drv_device_count := drv_device_count example_driver;
  drv_device := λ ordinal, ordinal + 10;
  drv_device_name := drv_device_name example_driver;
  drv_total_mem := drv_total_mem example_driver;
  drv_device_attr := drv_device_attr example_driver;
  drv_func_attr := drv_func_attr example_driver;
  drv_occupancy := drv_occupancy example_driver;
  drv_current_device := drv_current_device example_driver;
  drv_stream := drv_stream example_driver;
|}.

(** The state of a backend after it initialised the CUDA runtime. *)
Definition initialised_world : world :=
  (pgstrom_init_cuda example_driver ready_world).1.2.

(** ** Cleanup callbacks and tasks *)

(** The invocations of task-state cleanup callbacks in a trace, in order. *)
Definition cleanups (t : list event) : list (funptr * addr) :=
  omap (λ e, match e with
             | EvTaskStateCleanup cb p => Some (cb, p)
             | _ => None
             end) t.

(** The cleanup callback of the task state at [p], if it has one. *)
Definition cleanup_of (w : world) (p : addr) : option (funptr * addr) :=
  s ← taskstates w !! p;
  if bool_decide (cb_cleanup s = 0) then None else Some (cb_cleanup s, p).

(** Every task state that was live is live, with the cleanup callback it had. *)
Definition same_callbacks (w w' : world) : Prop :=
  ∀ p s, taskstates w !! p = Some s →
         ∃ s', taskstates w' !! p = Some s' ∧ cb_cleanup s' = cb_cleanup s.

(** An event other than the invocation of a cleanup callback. *)
Definition quiet (e : event) : Prop := ∀ cb p, e ≠ EvTaskStateCleanup cb p.

(** The tasks are left as they were, and so is every task state but [p]. *)
Definition same_tasks (p : addr) (w w' : world) : Prop :=
  tasks w' = tasks w ∧ ∀ q, q ≠ p → taskstates w' !! q = taskstates w !! q.

(** ** Device introspection *)

Definition unexpected_kind_report : event :=
  EvElog ERROR "Bug? unexpected device attribute type".

(** * Properties *)

(** ** Reasoning about runs *)

Lemma prefix_nil {A} (r : list event * world * outcome A) : prefix [] r = r.
Proof. by destruct r as [[??]?]. Qed.

Lemma prefix_prefix {A} t1 t2 (r : list event * world * outcome A) :
  prefix t1 (prefix t2 r) = prefix (t1 ++ t2) r.
Proof. destruct r as [[??]?]; simpl. by rewrite app_assoc. Qed.

Lemma run_bind {A B} (m : M A) (k : A → M B) w t w' a :
  m w = (t, w', Done a) → (m ≫= k) w = prefix t (k a w').
Proof. intros H. unfold mbind, M_bind. rewrite H. reflexivity. Qed.

Lemma run_bind_stop {A B} (m : M A) (k : A → M B) w t w' o :
  m w = (t, w', o) → (∀ a, o ≠ Done a) →
  ∃ o', (m ≫= k) w = (t, w', o') ∧ ∀ b, o' ≠ Done b.
Proof.
  intros H Ho. unfold mbind, M_bind. rewrite H.
  destruct o; [by destruct (Ho a)| | |]; eexists; (split; [reflexivity|done]).
Qed.

Lemma run_ret {A B} (a : A) (k : A → M B) w : (mret a ≫= k) w = k a w.
Proof. unfold mbind, M_bind, mret, M_ret. by destruct (k a w) as [[??]?]. Qed.

Lemma run_get_world {B} (k : world → M B) w : (get_world ≫= k) w = k w w.
Proof. unfold mbind, M_bind, get_world. by destruct (k w w) as [[??]?]. Qed.

Lemma run_modify {B} f (k : unit → M B) w : (modify f ≫= k) w = k tt (f w).
Proof. unfold mbind, M_bind, modify. by destruct (k tt (f w)) as [[??]?]. Qed.

Lemma run_emit {B} e (k : unit → M B) w : (emit e ≫= k) w = prefix [e] (k tt w).
Proof. reflexivity. Qed.

Lemma run_assoc {A B C} (m : M A) (f : A → M B) (k : B → M C) w :
  ((m ≫= f) ≫= k) w = (m ≫= λ a, f a ≫= k) w.
Proof.
  unfold mbind, M_bind. destruct (m w) as [[t1 w1] [a| | |]]; try done.
  destruct (f a w1) as [[t2 w2] [b| | |]]; try done.
  destruct (k b w2) as [[t3 w3] r]. by rewrite app_assoc.
Qed.

Lemma run_elog {B} lvl fmt (k : unit → M B) w :
  lvl ≠ ERROR → (elog lvl fmt ≫= k) w = prefix [EvElog lvl fmt] (k tt w).
Proof.
  intros Hl. unfold elog. rewrite run_assoc, run_emit.
  destruct lvl; try done; by rewrite run_ret.
Qed.

Lemma run_elog_error {B} fmt (k : unit → M B) w :
  (elog ERROR fmt ≫= k) w = ([EvElog ERROR fmt], w, Raised fmt).
Proof. reflexivity. Qed.

Lemma run_cuda {B} drv c (k : Z → M B) w :
  (cuda drv c ≫= k) w
  = prefix [EvCuda c (drv_rc drv (cuda_clock w) c)]
      (k (drv_rc drv (cuda_clock w) c) (set_cuda_clock (S (cuda_clock w)) w)).
Proof. reflexivity. Qed.

Lemma prefix_outcome {A} t0 (r : list event * world * outcome A) :
  (prefix t0 r).2 = r.2.
Proof. by destruct r as [[??]?]. Qed.

Lemma prefix_shape {A} t0 (r : list event * world * outcome A)
    (P : world → outcome A → Prop) :
  (∃ t w' o, r = (t, w', o) ∧ P w' o) →
  ∃ t w' o, prefix t0 r = (t, w', o) ∧ P w' o.
Proof. intros (t & w' & o & -> & HP). by exists (t0 ++ t), w', o. Qed.

Lemma run_array_get {A B} (a : list A) i x (k : A → M B) w :
  0 ≤ i → a !! Z.to_nat i = Some x → (array_get a i ≫= k) w = k x w.
Proof.
  intros Hi Hx. unfold array_get. rewrite bool_decide_eq_true_2 by done.
  rewrite Hx. apply run_ret.
Qed.

Lemma run_int_result {B} x (k : Z → M B) w :
  INT_MIN ≤ x ≤ INT_MAX → (int_result x ≫= k) w = k x w.
Proof.
  intros Hx. unfold int_result. rewrite bool_decide_eq_true_2 by done.
  apply run_ret.
Qed.

Lemma run_deref_gcontext {B} g gc (k : GpuContext → M B) w :
  contexts w !! g = Some gc → (deref_gcontext g ≫= k) w = k gc w.
Proof.
  intros Hg. erewrite run_bind; last by (unfold deref_gcontext; rewrite Hg).
  apply prefix_nil.
Qed.

Lemma run_update_gcontext {B} g gc f (k : unit → M B) w :
  contexts w !! g = Some gc →
  (update_gcontext g f ≫= k) w
  = k tt (set_contexts (<[g := f gc]> (contexts w)) w).
Proof.
  intros Hg. unfold update_gcontext. rewrite run_assoc.
  rewrite (run_deref_gcontext _ gc) by done. by rewrite run_modify.
Qed.

(** ** Rules for [post] *)

Lemma post_weaken (Q Q' : world → list event → world → Prop) {A} (m : M A) :
  post Q m → (∀ w t w', Q w t w' → Q' w t w') → post Q' m.
Proof. intros Hm HQ w t w' o E. eapply HQ, Hm, E. Qed.

Section post_rules.
Context (Q : world → list event → world → Prop) `{!Sequential Q}.

Lemma post_ret {A} (a : A) : post Q (mret a).
Proof. intros w t w' o [= <- <- <-]. apply seq_nil. Qed.

Lemma post_bind {A B} (m : M A) (k : A → M B) :
  post Q m → (∀ a, post Q (k a)) → post Q (m ≫= k).
Proof.
  intros Hm Hk w t w' o. unfold mbind, M_bind.
  destruct (m w) as [[t1 w1] o1] eqn:E1. apply Hm in E1.
  destruct o1 as [a| | |]; try (intros [= <- <- <-]; done).
  destruct (k a w1) as [[t2 w2] o2] eqn:E2. apply Hk in E2.
  intros [= <- <- <-]. by eapply seq_app.
Qed.

Lemma post_emit e : (∀ w, Q w [e] w) → post Q (emit e).
Proof. intros He w t w' o [= <- <- <-]. apply He. Qed.

Lemma post_raise {A} msg : post Q (@raise A msg).
Proof. intros w t w' o [= <- <- <-]. apply seq_nil. Qed.

Lemma post_undefined {A} : post Q (@undefined A).
Proof. intros w t w' o [= <- <- <-]. apply seq_nil. Qed.

Lemma post_out_of_fuel {A} : post Q (@out_of_fuel A).
Proof. intros w t w' o [= <- <- <-]. apply seq_nil. Qed.

Lemma post_get_world : post Q get_world.
Proof. intros w t w' o [= <- <- <-]. apply seq_nil. Qed.

Lemma post_modify f : (∀ w, Q w [] (f w)) → post Q (modify f).
Proof. intros Hf w t w' o [= <- <- <-]. apply Hf. Qed.

Lemma post_elog lvl fmt : (∀ w, Q w [EvElog lvl fmt] w) → post Q (elog lvl fmt).
Proof.
  intros He. apply post_bind; [by apply post_emit|]. intros _.
  destruct lvl; auto using post_ret, @post_raise.
Qed.

Lemma post_when b m : post Q m → post Q (when b m).
Proof. destruct b; simpl; auto using @post_ret. Qed.

Lemma post_forM_ {A} (l : list A) body :
  (∀ x, post Q (body x)) → post Q (forM_ l body).
Proof.
  intros Hb. induction l as [|x l IH]; simpl; [apply post_ret|].
  apply post_bind; auto.
Qed.

Lemma post_int_result x : post Q (int_result x).
Proof. unfold int_result. case_bool_decide; auto using @post_ret, @post_undefined. Qed.

Lemma post_array_get {A} (a : list A) i : post Q (array_get a i).
Proof.
  unfold array_get. case_bool_decide; [|apply post_undefined].
  destruct (a !! Z.to_nat i); auto using @post_ret, @post_undefined.
Qed.

Lemma post_cuda drv c :
  (∀ w rc, Q w [EvCuda c rc] (set_cuda_clock (S (cuda_clock w)) w)) →
  post Q (cuda drv c).
Proof. intros Hc w t w' o [= <- <- <-]. apply Hc. Qed.

Lemma post_deref_gcontext g : post Q (deref_gcontext g).
Proof.
  intros w t w' o. unfold deref_gcontext.
  destruct (_ !! _); intros [= <- <- <-]; apply seq_nil.
Qed.

Lemma post_deref_gts p : post Q (deref_gts p).
Proof.
  intros w t w' o. unfold deref_gts.
  destruct (_ !! _); intros [= <- <- <-]; apply seq_nil.
Qed.

Lemma post_deref_task p : post Q (deref_task p).
Proof.
  intros w t w' o. unfold deref_task.
  destruct (_ !! _); intros [= <- <- <-]; apply seq_nil.
Qed.

End post_rules.

#[global] Instance keeps_sequential R `{!Reflexive R, !Transitive R} :
  Sequential (keeps R).
Proof. split; unfold keeps; [done|]. intros. by etrans. Qed.

#[global] Instance silent_sequential : Sequential silent.
Proof. split; unfold silent; [done|]. by intros w t1 w1 t2 w2 [-> ->] [-> ->]. Qed.

#[global] Instance emits_sequential P : Sequential (emits P).
Proof. split; unfold emits; [done|]. intros. by apply Forall_app. Qed.

#[global] Instance same_registry_refl : Reflexive same_registry.
Proof. by intros w. Qed.
#[global] Instance same_registry_trans : Transitive same_registry.
Proof. intros w1 w2 w3 (?&?&?&?) (?&?&?&?). repeat split; congruence. Qed.
#[global] Instance same_table_refl : Reflexive same_table.
Proof. by intros w. Qed.
#[global] Instance same_table_trans : Transitive same_table.
Proof. intros w1 w2 w3 (?&?) (?&?). repeat split; congruence. Qed.

(** [post_auto side] decomposes a goal [post Q m] along the structure of
    [m]; [side] solves the conditions on single events and state updates. *)
Ltac post_step side :=
  lazymatch goal with
  | |- post _ (_ ≫= _) => apply post_bind; try apply _; [|intros ?]
  | |- post _ (mret _) => apply post_ret; apply _
  | |- post _ (cuda _ _) => apply post_cuda; intros ? ?; side
  | |- post _ (modify _) => apply post_modify; intros ?; side
  | |- post _ (emit _) => apply post_emit; intros ?; side
  | |- post _ (elog _ _) => apply post_elog; try apply _; intros ?; side
  | |- post _ (SpinLockAcquire _) => apply post_emit; intros ?; side
  | |- post _ (SpinLockRelease _) => apply post_emit; intros ?; side
  | |- post _ (when _ _) => apply post_when; try apply _
  | |- post _ (forM_ _ _) => apply post_forM_; try apply _; intros ?
  | |- post _ get_world => apply post_get_world; apply _
  | |- post _ (raise _) => apply post_raise; apply _
  | |- post _ undefined => apply post_undefined; apply _
  | |- post _ out_of_fuel => apply post_out_of_fuel; apply _
  | |- post _ (int_result _) => apply post_int_result; apply _
  | |- post _ (array_get _ _) => apply post_array_get; apply _
  | |- post _ (deref_gcontext _) => apply post_deref_gcontext; apply _
  | |- post _ (deref_gts _) => apply post_deref_gts; apply _
  | |- post _ (deref_task _) => apply post_deref_task; apply _
  | |- post _ (if ?x then _ else _) => destruct x
  | |- post _ (match ?x with _ => _ end) => destruct x
  end.
Ltac post_auto side := repeat (post_step side).
Ltac keeps_auto := post_auto ltac:(by unfold keeps).

(** ** Rules for [total] *)

Section total_rules.
Context (I : world → Prop).

Lemma total_ret {A} (a : A) (P : A → Prop) : P a → total I (mret a) P.
Proof. intros Ha w Hw. by exists [], w, a. Qed.

Lemma total_bind {A B} (m : M A) (k : A → M B) P Q :
  total I m P → (∀ a, P a → total I (k a) Q) → total I (m ≫= k) Q.
Proof.
  intros Hm Hk w Hw. destruct (Hm w Hw) as (t1 & w1 & a & E1 & Hw1 & Ha).
  destruct (Hk a Ha w1 Hw1) as (t2 & w2 & b & E2 & Hw2 & Hb).
  exists (t1 ++ t2), w2, b. split; [|done].
  erewrite run_bind by done. by rewrite E2.
Qed.

Lemma total_weaken {A} (m : M A) (P P' : A → Prop) :
  total I m P → (∀ a, P a → P' a) → total I m P'.
Proof.
  intros Hm HP w Hw. destruct (Hm w Hw) as (t & w' & a & ? & ? & ?).
  exists t, w', a. auto.
Qed.

Lemma total_emit e : total I (emit e) (λ _, True).
Proof. intros w Hw. by exists [e], w, tt. Qed.

Lemma total_get_world : total I get_world I.
Proof. intros w Hw. by exists [], w, w. Qed.

Lemma total_modify f : (∀ w, I w → I (f w)) → total I (modify f) (λ _, True).
Proof. intros Hf w Hw. exists [], (f w), tt. auto. Qed.

Lemma total_cuda drv c :
  (∀ w n, I w → I (set_cuda_clock n w)) → total I (cuda drv c) (λ _, True).
Proof. intros Hc w Hw. do 3 eexists. split; [reflexivity|]. auto. Qed.

Lemma total_elog_warning fmt : total I (elog WARNING fmt) (λ _, True).
Proof. intros w Hw. by exists [EvElog WARNING fmt], w, tt. Qed.

Lemma total_when b m : total I m (λ _, True) → total I (when b m) (λ _, True).
Proof. destruct b; simpl; [done|]. intros _. by apply total_ret. Qed.

Lemma total_forM_ {A} (l : list A) body :
  (∀ x, x ∈ l → total I (body x) (λ _, True)) →
  total I (forM_ l body) (λ _, True).
Proof.
  induction l as [|x l IH]; intros Hb; simpl; [by apply total_ret|].
  eapply total_bind; [apply Hb; left|]. intros _ _.
  apply IH. intros y Hy. apply Hb. by right.
Qed.

End total_rules.

(** A loop over the indices of an array that reads the array at each index
    is the loop over its elements. *)
Lemma forM_array {A} (a : list A) (body : A → M unit) w :
  forM_ (seqZ 0 (Z.of_nat (length a))) (λ i, array_get a i ≫= body) w
  = forM_ a body w.
Proof.
  assert (∀ pre l w, a = pre ++ l →
    forM_ (seqZ (Z.of_nat (length pre)) (Z.of_nat (length l)))
          (λ i, array_get a i ≫= body) w
    = forM_ l body w) as H.
  { intros pre l. revert pre. induction l as [|x l IH]; intros pre w' ->; [done|].
    rewrite length_cons, Nat2Z.inj_succ, seqZ_cons by lia. simpl.
    assert ((array_get (pre ++ x :: l) (Z.of_nat (length pre)) ≫= body) w'
            = body x w') as Hx.
    { apply run_array_get; [lia|]. rewrite Nat2Z.id.
      by rewrite lookup_app_r, Nat.sub_diag by lia. }
    unfold mbind at 1, M_bind at 1. rewrite Hx.
    unfold mbind, M_bind.
    destruct (body x w') as [[t1 w1] [[]| | |]]; try done.
    replace (Z.succ (Z.of_nat (length pre))) with (Z.of_nat (length (pre ++ [x])))
      by (rewrite length_app; simpl; lia).
    replace (Z.pred (Z.succ (Z.of_nat (length l)))) with (Z.of_nat (length l)) by lia.
    fold (@mbind M _). rewrite (IH (pre ++ [x])); [done|]. by rewrite <- app_assoc. }
  apply (H [] a w). done.
Qed.

Lemma bind_done_inv {A B} (m : M A) (k : A → M B) w t w' b :
  (m ≫= k) w = (t, w', Done b) →
  ∃ t1 w1 a t2, m w = (t1, w1, Done a) ∧ k a w1 = (t2, w', Done b) ∧ t = t1 ++ t2.
Proof.
  unfold mbind, M_bind. destruct (m w) as [[t1 w1] [a| | |]]; try done.
  destruct (k a w1) as [[t2 w2] o] eqn:E. intros [= <- <- ->]. by exists t1, w1, a, t2.
Qed.

Lemma prefix_done_inv {A} t0 (r : list event * world * outcome A) t w' a :
  prefix t0 r = (t, w', Done a) → ∃ t1, r = (t1, w', Done a) ∧ t = t0 ++ t1.
Proof. destruct r as [[t1 w1] o]. simpl. intros [= <- <- ->]. by exists t1. Qed.

Section registry.
Context (drv : Driver) (crc32c : ResourceOwner → Z).

Lemma pgstrom_init_cuda_loop_same_registry ordinals i :
  post (keeps same_registry) (pgstrom_init_cuda_loop drv ordinals i).
Proof.
  revert i. induction ordinals as [|o l IH]; intros i; simpl; keeps_auto; apply IH.
Qed.

Lemma pgstrom_init_cuda_same_registry :
  post (keeps same_registry) (pgstrom_init_cuda drv).
Proof.
  unfold pgstrom_init_cuda. keeps_auto. apply pgstrom_init_cuda_loop_same_registry.
Qed.

(** Teardown works on the context, its task states and the driver; the
    bucket table and the most-recently-used slot are not touched. *)
Lemma pgstrom_release_gpucontext_same_table g is_commit :
  post (keeps same_table) (pgstrom_release_gpucontext drv g is_commit).
Proof.
  unfold pgstrom_release_gpucontext, pgstrom_sync_gpucontext,
    destroy_dev_contexts, release_taskstate, release_data_store, release_task,
    update_gcontext, update_gts.
  keeps_auto.
Qed.

Lemma gpucontext_hash_index_range owner :
  0 ≤ gpucontext_hash_index crc32c owner < gcontext_hash_size.
Proof. unfold gpucontext_hash_index, gcontext_hash_size. apply Z.mod_pos_bound. lia. Qed.

Lemma registry_bucket w owner :
  registry_wf w →
  ∃ chain, gcontext_hash w !! Z.to_nat (gpucontext_hash_index crc32c owner) = Some chain
           ∧ Forall (λ g, is_Some (contexts w !! g)) chain.
Proof.
  intros [Hlen Hall].
  pose proof (gpucontext_hash_index_range owner) as Hr.
  destruct (lookup_lt_is_Some_2 (gcontext_hash w)
              (Z.to_nat (gpucontext_hash_index crc32c owner))) as [chain Hc].
  { rewrite Hlen. lia. }
  exists chain. split; [done|].
  rewrite Forall_forall in Hall. apply Hall. by eapply list_elem_of_lookup_2.
Qed.

Lemma gcontext_chain_find_app owner pre rest w :
  Forall (λ g, is_Some (contexts w !! g)) pre →
  Forall (λ g, owner_of w g ≠ Some owner) pre →
  gcontext_chain_find owner (pre ++ rest) w = gcontext_chain_find owner rest w.
Proof.
  induction pre as [|g pre IH]; intros Hv Hu; [done|].
  inversion Hv as [|? ? [gc Hgc] Hv']; subst.
  inversion Hu as [|? ? Hne Hu']; subst.
  simpl. rewrite (run_deref_gcontext _ gc) by done.
  unfold owner_of in Hne. rewrite Hgc in Hne. simpl in Hne.
  rewrite bool_decide_eq_false_2 by congruence. by apply IH.
Qed.

Lemma gcontext_chain_find_none owner chain w :
  Forall (λ g, is_Some (contexts w !! g)) chain →
  Forall (λ g, owner_of w g ≠ Some owner) chain →
  gcontext_chain_find owner chain w = ([], w, Done None).
Proof.
  intros Hv Hu. rewrite <- (app_nil_r chain). by rewrite gcontext_chain_find_app.
Qed.

Lemma gcontext_last_matches_none w :
  last_unbound w →
  gcontext_last_matches (CurrentResourceOwner w) w = ([], w, Done None).
Proof.
  unfold last_unbound, gcontext_last_matches. rewrite run_get_world.
  destruct (gcontext_last w) as [g|]; [|done]. intros [[gc Hgc] Hne].
  rewrite (run_deref_gcontext _ gc) by done.
  unfold owner_of in Hne. rewrite Hgc in Hne. simpl in Hne.
  by rewrite bool_decide_eq_false_2 by congruence.
Qed.

Lemma pgstrom_create_gpucontext_done owner w t w' g :
  pgstrom_create_gpucontext drv owner w = (t, w', Done g) →
  g = fresh (dom (contexts w)) ∧
  contexts w' !! g = Some {| refcnt := 1; resowner := owner; memcxt := Z.pos g;
                             state_list := []; pds_list := [];
                             num_context := 0; cur_context := 0;
                             dev_context := [] |} ∧
  (∀ p, p ≠ g → contexts w' !! p = contexts w !! p) ∧
  gcontext_hash w' = gcontext_hash w ∧ gcontext_last w' = gcontext_last w ∧
  CurrentResourceOwner w' = CurrentResourceOwner w.
Proof.
  unfold pgstrom_create_gpucontext. rewrite run_get_world.
  intros (t1 & w1 & [] & t2 & Hinit & H & ->)%bind_done_inv.
  assert (same_registry w w1) as (Hc & Hh & Hl & Ho).
  { revert Hinit. apply (post_when (keeps same_registry)).
    apply pgstrom_init_cuda_same_registry. }
  rewrite run_get_world, run_emit, run_modify in H.
  apply prefix_done_inv in H as (t3 & [= <- <- <-] & ->). simpl.
  rewrite Hc. split_and!; try done.
  - apply lookup_insert_eq.
  - intros p Hp. by rewrite lookup_insert_ne.
Qed.

Lemma held_set_refcnt g r r' gc w :
  held crc32c g r w → contexts w !! g = Some gc → 1 ≤ r' ≤ INT_MAX →
  held crc32c g r'
    (set_contexts (<[g := gc_set_refcnt r' gc]> (contexts w)) w).
Proof.
  intros [Hr (gc' & Hgc & Hrc & Hown & Hsl & Hpl & Hnc) (pre & Hch & Hv & Hu) Hlast] Hgc' Hr'.
  assert (gc' = gc) as -> by congruence.
  assert (∀ p, owner_of w p ≠ Some (CurrentResourceOwner w) → p ≠ g) as Hneq.
  { intros p Hp ->. apply Hp. unfold owner_of. by rewrite Hgc, <- Hown. }
  split; simpl.
  - done.
  - eexists. rewrite lookup_insert_eq. by split.
  - exists pre. split; [done|]. split.
    + eapply Forall_impl; [exact Hv|]. intros p Hp. simpl in Hp.
      rewrite lookup_insert. case_decide; by eauto.
    + rewrite Forall_forall in Hu |- *. intros p Hp. specialize (Hu p Hp).
      unfold owner_of; simpl. rewrite lookup_insert_ne; [done|].
      intros ->. by apply (Hneq p).
  - unfold last_unbound in *; simpl. destruct (gcontext_last w) as [l|]; [|done].
    destruct Hlast as [Hl1 Hl2]. specialize (Hneq l Hl2).
    unfold owner_of; simpl. by rewrite lookup_insert_ne.
Qed.

Lemma held_get g r w :
  held crc32c g r w →
  if bool_decide (r + 1 ≤ INT_MAX) then
    ∃ w', pgstrom_get_gpucontext drv crc32c w
          = ([EvSpinLockAcquire gcontext_lock; EvSpinLockRelease gcontext_lock],
             w', Done g)
          ∧ held crc32c g (r + 1) w'
  else ∀ t w' o, pgstrom_get_gpucontext drv crc32c w = (t, w', o) → o = Undef.
Proof.
  intros Hheld.
  pose proof Hheld as [Hr (gc & Hgc & Hrc & Hown & Hsl & Hpl & Hnc) (pre & Hch & Hv & Hu) Hlast].
  unfold pgstrom_get_gpucontext, SpinLockAcquire.
  rewrite run_emit, run_get_world.
  erewrite run_bind by by apply gcontext_last_matches_none.
  rewrite prefix_nil.
  rewrite (run_array_get _ _ _ _ _ (proj1 (gpucontext_hash_index_range _)) Hch).
  erewrite run_bind; last first.
  { rewrite gcontext_chain_find_app by done. simpl.
    rewrite (run_deref_gcontext _ gc) by done.
    by rewrite bool_decide_eq_true_2 by done. }
  rewrite prefix_nil. unfold gcontext_incref.
  rewrite !run_assoc, (run_deref_gcontext _ gc) by done. rewrite run_assoc.
  rewrite Hrc. case_bool_decide as Hmax.
  - rewrite run_int_result by (unfold INT_MIN; lia).
    rewrite (run_update_gcontext _ gc) by done.
    eexists. split; [reflexivity|]. eapply held_set_refcnt; [done..|lia].
  - intros t w' o. unfold int_result. rewrite bool_decide_eq_false_2 by lia.
    simpl. by intros [= <- <- <-].
Qed.

(** A release that is not the last one, whatever the most-recently-used
    slot holds: it does not look at the slot. *)
Lemma held_put g r slot w :
  held crc32c g r w → 2 ≤ r →
  ∃ w', pgstrom_put_gpucontext drv g (set_gcontext_last slot w)
        = ([EvSpinLockAcquire gcontext_lock; EvSpinLockRelease gcontext_lock],
           set_gcontext_last slot w', Done tt)
        ∧ held crc32c g (r - 1) w'.
Proof.
  intros Hheld Hr2.
  pose proof Hheld as [Hr (gc & Hgc & Hrc & _) _ _].
  unfold pgstrom_put_gpucontext, SpinLockAcquire.
  rewrite run_emit, (run_deref_gcontext _ gc) by done.
  rewrite Hrc, run_int_result by (unfold INT_MIN; lia).
  rewrite (run_update_gcontext _ gc) by done.
  rewrite bool_decide_eq_false_2 by lia. simpl.
  exists (set_contexts (<[g := gc_set_refcnt (r - 1) gc]> (contexts w)) w).
  split; [reflexivity|]. eapply held_set_refcnt; [done..|lia].
Qed.

Lemma not_registered_dlist_delete g (table : list (list addr)) w :
  gcontext_hash w = dlist_delete g <$> table → ¬ registered g w.
Proof.
  intros Hh (chain & Hc & Hg). rewrite Hh in Hc.
  apply list_elem_of_fmap in Hc as (chain' & -> & _).
  unfold dlist_delete in Hg. apply list_elem_of_filter in Hg as [Hne _]. done.
Qed.

(** The release of the last reference: the context leaves the bucket table,
    the most-recently-used slot is cleared when it pointed to the context,
    and teardown runs after the lock was released. *)
Lemma pgstrom_put_gpucontext_last_reference g gc w :
  contexts w !! g = Some gc → refcnt gc = 1 →
  ∃ w2, pgstrom_put_gpucontext drv g w
        = prefix [EvSpinLockAcquire gcontext_lock; EvSpinLockRelease gcontext_lock]
            (pgstrom_release_gpucontext drv g true w2) ∧
        contexts w2 = <[g := gc_set_refcnt 0 gc]> (contexts w) ∧
        gcontext_hash w2 = dlist_delete g <$> gcontext_hash w ∧
        gcontext_last w2 = (if bool_decide (gcontext_last w = Some g)
                            then None else gcontext_last w).
Proof.
  intros Hgc Hrc.
  unfold pgstrom_put_gpucontext, SpinLockAcquire, SpinLockRelease.
  rewrite run_emit, (run_deref_gcontext _ gc) by done.
  rewrite Hrc, run_int_result by done.
  rewrite (run_update_gcontext _ gc) by done.
  simpl. unfold gcontext_unregister. rewrite run_modify, run_emit.
  rewrite prefix_prefix. simpl.
  eexists. split; [reflexivity|]. simpl. by case_bool_decide.
Qed.

(** Teardown of a context that owns no task state, data store or device
    sub-context. *)
Lemma pgstrom_release_gpucontext_empty g gc is_commit w :
  contexts w !! g = Some gc →
  state_list gc = [] → pds_list gc = [] → num_context gc = 0 →
  pgstrom_release_gpucontext drv g is_commit w
  = ([EvCuda (CuCtxSetCurrent 0) (drv_rc drv (cuda_clock w) (CuCtxSetCurrent 0));
      EvMemoryContextDelete (memcxt gc)],
     set_contexts (delete g (contexts w)) (set_cuda_clock (S (cuda_clock w)) w),
     Done tt).
Proof.
  intros Hgc Hsl Hpl Hnc.
  unfold pgstrom_release_gpucontext, pgstrom_sync_gpucontext, destroy_dev_contexts.
  rewrite run_assoc, (run_deref_gcontext _ gc) by done.
  rewrite Hnc. change (seqZ 0 0) with (@nil Z). simpl forM_. rewrite run_ret.
  rewrite (run_deref_gcontext _ gc), Hsl, Hpl, Hnc by done.
  reflexivity.
Qed.

(** The release of the last reference of a context that owns nothing,
    whatever the most-recently-used slot holds. *)
Lemma held_put_last g slot w :
  held crc32c g 1 w →
  ∃ t w', pgstrom_put_gpucontext drv g (set_gcontext_last slot w) = (t, w', Done tt) ∧
          teardowns t = 1%nat ∧ ¬ registered g w' ∧
          gcontext_last w' = (if bool_decide (slot = Some g) then None else slot) ∧
          contexts w' !! g = None.
Proof.
  intros [Hr (gc & Hgc & Hrc & Hown & Hsl & Hpl & Hnc) _ Hlast].
  destruct (pgstrom_put_gpucontext_last_reference g gc (set_gcontext_last slot w)
              Hgc Hrc) as (w2 & -> & Hc2 & Hh2 & Hl2).
  rewrite (pgstrom_release_gpucontext_empty g (gc_set_refcnt 0 gc)); [|by rewrite Hc2, lookup_insert_eq|done..].
  do 2 eexists. split; [reflexivity|]. simpl. split_and!.
  - done.
  - by eapply not_registered_dlist_delete.
  - exact Hl2.
  - apply lookup_delete_eq.
Qed.

Lemma held_acquire_n g n : ∀ r w t w' gs,
  held crc32c g r w →
  acquire_n drv crc32c n w = (t, w', Done gs) →
  gs = replicate n g ∧ held crc32c g (r + Z.of_nat n) w'.
Proof.
  induction n as [|n IH]; intros r w t w' gs Hheld; simpl.
  - intros [= <- <- <-]. by rewrite Z.add_0_r.
  - intros (t1 & w1 & g1 & t2 & Hget & H & ->)%bind_done_inv.
    apply bind_done_inv in H as (t3 & w3 & gs' & t4 & Hacq & [= <- <- <-] & ->).
    pose proof (held_get g r w Hheld) as Hg. case_bool_decide.
    + destruct Hg as (w1' & Hget' & Hheld'). rewrite Hget in Hget'.
      simplify_eq.
      destruct (IH _ _ _ _ _ Hheld' Hacq) as [-> Hh]. split; [done|].
      by replace (r + Z.of_nat (S n)) with (r + 1 + Z.of_nat n) by lia.
    + by specialize (Hg _ _ _ Hget).
Qed.

Lemma held_registered g r w : held crc32c g r w → registered g w.
Proof.
  intros [_ _ (pre & Hch & _) _]. eexists. split.
  - by eapply list_elem_of_lookup_2.
  - set_solver.
Qed.

(** [k] releases of a context held [r] times, from a state whose
    most-recently-used slot holds [slot]. *)
Lemma held_release_n g slot k : ∀ r w,
  held crc32c g (Z.of_nat r) w → (k ≤ r)%nat →
  ∃ t w', release_n drv k g (set_gcontext_last slot w) = (t, w', Done tt) ∧
    if bool_decide (k < r)%nat then
      (∃ w'', w' = set_gcontext_last slot w'' ∧
              held crc32c g (Z.of_nat (r - k)) w'') ∧
      teardowns t = 0%nat
    else
      ¬ registered g w' ∧
      gcontext_last w' = (if bool_decide (slot = Some g) then None else slot) ∧
      contexts w' !! g = None ∧ teardowns t = 1%nat.
Proof.
  induction k as [|k IH]; intros r w Hheld Hk; simpl.
  - do 2 eexists. split; [reflexivity|]. pose proof (held_positive _ _ _ _ Hheld).
    rewrite bool_decide_eq_true_2 by lia. rewrite Nat.sub_0_r.
    split; [by exists w|done].
  - destruct (decide (r = 1%nat)) as [->|Hr1].
    + assert (k = 0%nat) as -> by lia.
      destruct (held_put_last g slot w Hheld) as (t & w' & Hput & Ht & Hrest).
      erewrite run_bind by done. simpl. rewrite app_nil_r.
      do 2 eexists. split; [reflexivity|]. simpl. tauto.
    + pose proof (held_positive _ _ _ _ Hheld).
      destruct (held_put g _ slot w Hheld) as (w1 & Hput & Hheld1); [lia|].
      replace (Z.of_nat r - 1) with (Z.of_nat (r - 1)) in Hheld1 by lia.
      destruct (IH _ _ Hheld1) as (t & w' & Hrel & Hcase); [lia|].
      erewrite run_bind by done. rewrite Hrel. simpl.
      do 2 eexists. split; [reflexivity|].
      destruct (bool_decide_reflect (k < r - 1)%nat).
      * rewrite bool_decide_eq_true_2 by lia.
        by replace (r - S k)%nat with (r - 1 - k)%nat by lia.
      * by rewrite bool_decide_eq_false_2 by lia.
Qed.

Lemma pgstrom_get_gpucontext_miss w t w' g :
  registry_wf w → scope_unregistered w → last_unbound w →
  pgstrom_get_gpucontext drv crc32c w = (t, w', Done g) →
  held crc32c g 1 w'.
Proof.
  intros Hwf Hun Hlast.
  destruct (registry_bucket w (CurrentResourceOwner w) Hwf) as (chain & Hch & Hv).
  assert (Forall (λ p, owner_of w p ≠ Some (CurrentResourceOwner w)) chain) as Hu.
  { unfold scope_unregistered in Hun. rewrite Forall_forall in Hun.
    apply Hun. by eapply list_elem_of_lookup_2. }
  pose proof (gpucontext_hash_index_range (CurrentResourceOwner w)) as Hidx.
  unfold pgstrom_get_gpucontext, SpinLockAcquire, SpinLockRelease.
  rewrite run_emit, run_get_world.
  erewrite run_bind by by apply gcontext_last_matches_none.
  rewrite prefix_nil, (run_array_get _ _ chain) by (done || lia).
  erewrite run_bind by by apply gcontext_chain_find_none.
  rewrite prefix_nil.
  intros (t1 & H & ->)%prefix_done_inv.
  apply bind_done_inv in H as (t2 & w2 & g' & t3 & Hcreate & H & ->).
  rewrite run_modify, run_emit in H. injection H as <- <- <-.
  apply pgstrom_create_gpucontext_done in Hcreate
    as (Hfresh & Hg & Hother & Hh & Hl & Ho).
  assert (∀ p, is_Some (contexts w !! p) → p ≠ g') as Hneq.
  { intros p Hp ->. apply (is_fresh (dom (contexts w))).
    rewrite <- Hfresh. by apply elem_of_dom. }
  split; simpl.
  - done.
  - rewrite Ho. eexists. by split.
  - rewrite Ho, Hh. exists chain. split.
    { apply list_lookup_insert_eq. by eapply lookup_lt_Some. }
    split.
    + eapply Forall_impl; [exact Hv|]. intros p Hp. simpl in Hp.
      by rewrite Hother by by apply Hneq.
    + apply Forall_forall. intros p Hp. unfold owner_of.
      rewrite Forall_forall in Hv, Hu.
      rewrite Hother by (apply Hneq; by apply Hv). by apply Hu.
  - unfold last_unbound in *. simpl. rewrite Hl, Ho.
    destruct (gcontext_last w) as [l|]; [|done]. destruct Hlast as [Hl1 Hl2].
    unfold owner_of in *. simpl. by rewrite !Hother by by apply Hneq.
Qed.

End registry.

Lemma set_gcontext_last_id w : set_gcontext_last (gcontext_last w) w = w.
Proof. by destruct w. Qed.

(** C1.  Starting from a state in which the current resource owner has no
    context, [N] acquisitions return one and the same context.  The
    acquisitions never write the most-recently-used slot, so the releases
    are taken from the state they left with the slot holding any value
    [slot]: the value it has, another context, or the context itself.  Each
    of the first [N-1] releases leaves the context chained with a positive
    reference count, one less per release, leaves the slot as it is, and
    runs no teardown; the [N]-th release takes the context out of the bucket
    table, clears the slot if it pointed to the context and leaves it as it
    is otherwise, and runs the teardown, exactly once. *)
Theorem refcount_release_protocol drv crc32c (N : nat) w0 t1 w1 gs :
  registry_wf w0 → scope_unregistered w0 → last_unbound w0 →
  (0 < N)%nat →
  acquire_n drv crc32c N w0 = (t1, w1, Done gs) →
  ∃ g, gs = replicate N g ∧
    set_gcontext_last (gcontext_last w1) w1 = w1 ∧
    ∀ slot k, (k ≤ N)%nat →
      ∃ tk wk,
        release_n drv k g (set_gcontext_last slot w1) = (tk, wk, Done tt) ∧
        if bool_decide (k < N)%nat then
          registered g wk ∧
          refcnt <$> contexts wk !! g = Some (Z.of_nat (N - k)) ∧
          gcontext_last wk = slot ∧
          teardowns tk = 0%nat
        else
          ¬ registered g wk ∧
          gcontext_last wk = (if bool_decide (slot = Some g) then None else slot) ∧
          contexts wk !! g = None ∧ teardowns tk = 1%nat.
Proof.
  intros Hwf Hun Hlast HN Hacq. destruct N as [|N]; [lia|]. simpl in Hacq.
  apply bind_done_inv in Hacq as (t2 & w2 & g & t3 & Hget & H & ->).
  apply bind_done_inv in H as (t4 & w4 & gs' & t5 & Hacq & [= <- <- <-] & ->).
  apply (pgstrom_get_gpucontext_miss drv crc32c) in Hget; [|done..].
  destruct (held_acquire_n drv crc32c g N _ _ _ _ _ Hget Hacq) as [-> Hheld].
  exists g. split; [done|]. split; [apply set_gcontext_last_id|]. intros slot k Hk.
  replace (1 + Z.of_nat N) with (Z.of_nat (S N)) in Hheld by lia.
  destruct (held_release_n drv crc32c g slot k _ _ Hheld Hk)
    as (tk & wk & Hrel & Hcase).
  exists tk, wk. split; [done|]. case_bool_decide; [|done].
  destruct Hcase as [(w'' & -> & Hh) Ht].
  split; [exact (held_registered crc32c g _ _ Hh)|]. split; [|done].
  destruct Hh as [_ (gc & Hgc & <- & _) _ _]. simpl. by rewrite Hgc.
Qed.

Lemma refcount_release_protocol_witness :
  ∃ g, ∀ slot k, (k ≤ 3)%nat →
    ∃ tk wk,
      release_n example_driver k g
        (set_gcontext_last slot
           (acquire_n example_driver example_crc32c 3 boot_world).1.2)
      = (tk, wk, Done tt) ∧
      if bool_decide (k < 3)%nat then
        registered g wk ∧
        refcnt <$> contexts wk !! g = Some (Z.of_nat (3 - k)) ∧
        gcontext_last wk = slot ∧
        teardowns tk = 0%nat
      else
        ¬ registered g wk ∧
        gcontext_last wk = (if bool_decide (slot = Some g) then None else slot) ∧
        contexts wk !! g = None ∧ teardowns tk = 1%nat.
Proof.
  destruct (acquire_n example_driver example_crc32c 3 boot_world)
    as [[t1 w1] o] eqn:E.
  assert (o = Done [1%positive; 1%positive; 1%positive]) as ->.
  { apply (f_equal snd) in E. vm_compute in E. congruence. }
  assert (registry_wf boot_world) as Hwf.
  { split; [reflexivity|]. by apply Forall_replicate. }
  assert (scope_unregistered boot_world) as Hun by by apply Forall_replicate.
  assert (0 < 3)%nat as Hpos by lia.
  destruct (refcount_release_protocol example_driver example_crc32c 3
              boot_world t1 w1 _ Hwf Hun I Hpos E) as (g & _ & _ & H).
  exists g. exact H.
Defined.

(** The release of the last reference when the most-recently-used slot
    points to the context: the slot is cleared. *)
Example last_release_clears_slot :
  let w1 := (acquire_n example_driver example_crc32c 2 boot_world).1.2 in
  gcontext_last w1 = None ∧
  gcontext_last
    (release_n example_driver 1 1%positive
       (set_gcontext_last (Some 1%positive) w1)).1.2 = Some 1%positive ∧
  gcontext_last
    (release_n example_driver 2 1%positive
       (set_gcontext_last (Some 1%positive) w1)).1.2 = None ∧
  gcontext_last
    (release_n example_driver 2 1%positive
       (set_gcontext_last (Some 7%positive) w1)).1.2 = Some 7%positive.
Proof. split_and!; vm_compute; reflexivity. Qed.

(** ** The scope-boundary cleanup hook *)

(** C8.  At a phase other than [RESOURCE_RELEASE_AFTER_LOCKS] the hook
    emits nothing and leaves the state as it is.  At that phase, when no
    chained context is bound to the current resource owner, it takes and
    releases the lock, reports nothing, calls nothing, and leaves the state
    as it is. *)
Theorem cleanup_callback_noop drv crc32c w phase is_commit is_toplevel :
  phase ≠ RESOURCE_RELEASE_AFTER_LOCKS ∨ (registry_wf w ∧ scope_unregistered w) →
  gpucontext_cleanup_callback drv crc32c phase is_commit is_toplevel w
  = (if bool_decide (phase = RESOURCE_RELEASE_AFTER_LOCKS)
     then [EvSpinLockAcquire gcontext_lock; EvSpinLockRelease gcontext_lock]
     else [], w, Done tt).
Proof.
  intros H. unfold gpucontext_cleanup_callback. rewrite run_get_world.
  destruct (bool_decide_reflect (phase = RESOURCE_RELEASE_AFTER_LOCKS)) as [->|Hne];
    simpl; [|done].
  destruct H as [?|[Hwf Hun]]; [done|].
  destruct (registry_bucket crc32c w (CurrentResourceOwner w) Hwf) as (chain & Hc & Hv).
  unfold SpinLockAcquire. rewrite run_emit.
  rewrite (run_array_get _ _ chain); [|apply gpucontext_hash_index_range|done].
  erewrite run_bind; last first.
  { apply gcontext_chain_find_none; [done|].
    unfold scope_unregistered in Hun. rewrite Forall_forall in Hun.
    apply Hun. by eapply list_elem_of_lookup_2. }
  done.
Qed.

Lemma ready_world_unregistered : registry_wf ready_world ∧ scope_unregistered ready_world.
Proof.
  assert (gcontext_hash ready_world = replicate 100 []) as Hh
    by (vm_compute; reflexivity).
  unfold registry_wf, scope_unregistered. rewrite Hh.
  split; [split|]; [reflexivity|by apply Forall_replicate..].
Defined.

Lemma cleanup_callback_noop_witness :
  gpucontext_cleanup_callback example_driver example_crc32c
    RESOURCE_RELEASE_AFTER_LOCKS true true ready_world
  = ([EvSpinLockAcquire gcontext_lock; EvSpinLockRelease gcontext_lock],
     ready_world, Done tt) ∧
  gpucontext_cleanup_callback example_driver example_crc32c
    RESOURCE_RELEASE_LOCKS true true ready_world
  = ([], ready_world, Done tt).
Proof.
  split.
  - apply (cleanup_callback_noop example_driver example_crc32c ready_world
             RESOURCE_RELEASE_AFTER_LOCKS true true).
    right. exact ready_world_unregistered.
  - apply (cleanup_callback_noop example_driver example_crc32c ready_world
             RESOURCE_RELEASE_LOCKS true true).
    left. discriminate.
Defined.

(** The hook invoked twice at the end of a scope that forgot to release its
    context: the first invocation warns and tears the context down, the
    second finds nothing. *)
Example cleanup_callback_twice :
  let acquired :=
    (pgstrom_get_gpucontext example_driver example_crc32c ready_world).1.2 in
  let first :=
    gpucontext_cleanup_callback example_driver example_crc32c
      RESOURCE_RELEASE_AFTER_LOCKS true true acquired in
  let second :=
    gpucontext_cleanup_callback example_driver example_crc32c
      RESOURCE_RELEASE_AFTER_LOCKS true true first.1.2 in
  first.1.1
  = [EvSpinLockAcquire gcontext_lock; EvSpinLockRelease gcontext_lock;
     EvElog WARNING "Probably, someone forgot to put GpuContext";
     EvCuda (CuCtxSetCurrent 0) 0; EvMemoryContextDelete 1] ∧
  second.1.1
  = [EvSpinLockAcquire gcontext_lock; EvSpinLockRelease gcontext_lock] ∧
  second.2 = Done tt ∧
  contexts second.1.2 = contexts first.1.2 ∧
  gcontext_hash second.1.2 = gcontext_hash first.1.2.
Proof. split_and!; vm_compute; reflexivity. Qed.

(** ** Acquisition and the most-recently-used slot *)

#[global] Instance same_last_refl : Reflexive same_last.
Proof. by intros w. Qed.
#[global] Instance same_last_trans : Transitive same_last.
Proof. intros w1 w2 w3 ? ?. unfold same_last in *. congruence. Qed.

Section acquire.
Context (drv : Driver) (crc32c : ResourceOwner → Z).

Lemma pgstrom_init_cuda_emits :
  post (emits is_driver_call_or_report) (pgstrom_init_cuda drv).
Proof.
  assert (∀ l i, post (emits is_driver_call_or_report)
                      (pgstrom_init_cuda_loop drv l i)) as Hloop.
  { induction l as [|o l IH]; intros i; simpl;
      post_auto ltac:(by repeat constructor); apply IH. }
  unfold pgstrom_init_cuda. post_auto ltac:(by repeat constructor). apply Hloop.
Qed.

Lemma gcontext_chain_find_keeps R `{!Reflexive R, !Transitive R} owner chain :
  post (keeps R) (gcontext_chain_find owner chain).
Proof. induction chain as [|g chain IH]; simpl; keeps_auto. apply IH. Qed.

(** No path of the acquisition writes the most-recently-used slot. *)
Lemma pgstrom_get_gpucontext_same_last :
  post (keeps same_last) (pgstrom_get_gpucontext drv crc32c).
Proof.
  unfold pgstrom_get_gpucontext, gcontext_last_matches, gcontext_incref,
    pgstrom_create_gpucontext, update_gcontext.
  keeps_auto; try (apply gcontext_chain_find_keeps; apply _).
  eapply post_weaken; [apply pgstrom_init_cuda_same_registry|].
  by intros w t w' (_ & _ & ? & _).
Qed.

(** The acquisition holds the lock from its first step to its last.  On a
    hit nothing else is observable.  On a miss the CUDA runtime is
    initialised if it was not yet, and the arena is created, while the lock
    is held; the creation leaves the bucket table as it was, and the new
    context is chained afterwards, at the tail of its bucket. *)
Lemma pgstrom_get_gpucontext_trace w t w' g :
  pgstrom_get_gpucontext drv crc32c w = (t, w', Done g) →
  (is_Some (contexts w !! g) ∧
   t = [EvSpinLockAcquire gcontext_lock; EvSpinLockRelease gcontext_lock]) ∨
  (contexts w !! g = None ∧
   ∃ t_init w_created chain,
     t = EvSpinLockAcquire gcontext_lock
         :: t_init
         ++ [EvHostPinMemContextCreate (CurrentResourceOwner w) (Z.pos g);
             EvSpinLockRelease gcontext_lock] ∧
     Forall is_driver_call_or_report t_init ∧
     (0 ≤ cuda_num_devices w → t_init = []) ∧
     pgstrom_create_gpucontext drv (CurrentResourceOwner w) w
     = (t_init ++ [EvHostPinMemContextCreate (CurrentResourceOwner w) (Z.pos g)],
        w_created, Done g) ∧
     gcontext_hash w_created = gcontext_hash w ∧
     gcontext_hash w !! Z.to_nat (gpucontext_hash_index crc32c (CurrentResourceOwner w))
     = Some chain ∧
     gcontext_hash w'
     = <[Z.to_nat (gpucontext_hash_index crc32c (CurrentResourceOwner w))
         := chain ++ [g]]> (gcontext_hash w)).
Proof.
  unfold pgstrom_get_gpucontext, SpinLockAcquire, SpinLockRelease.
  rewrite run_emit, run_get_world.
  intros (t0 & H & ->)%prefix_done_inv.
  apply bind_done_inv in H as (t1 & w1 & last & t2 & Hlast & H & ->).
  assert (∀ owner chain, post silent (gcontext_chain_find owner chain)) as Hsilent.
  { intros owner chain. induction chain as [|p chain IH]; simpl;
      post_auto ltac:(done); apply IH. }
  assert (∀ owner chain v tv v' g',
            gcontext_chain_find owner chain v = (tv, v', Done (Some g')) →
            is_Some (contexts v !! g')) as Hfound.
  { intros owner chain v. induction chain as [|p chain IH]; simpl; [done|].
    intros tv v' g'. unfold mbind, M_bind, deref_gcontext.
    destruct (contexts v !! p) as [gc|] eqn:Ep; [|done].
    case_bool_decide.
    - intros [= <- <- <-]. by rewrite Ep.
    - destruct (gcontext_chain_find owner chain v) as [[tx vx] o] eqn:E.
      intros [= <- <- ->]. by eapply IH. }
  assert (t1 = [] ∧ w1 = w ∧
          ∀ g', last = Some g' → is_Some (contexts w !! g')) as (-> & -> & Hlive).
  { assert (post silent (gcontext_last_matches (CurrentResourceOwner w))) as Hs.
    { unfold gcontext_last_matches. post_auto ltac:(done). }
    destruct (Hs _ _ _ _ Hlast) as [-> ->]. split_and!; try done.
    intros g' ->. revert Hlast. unfold gcontext_last_matches.
    rewrite run_get_world. destruct (gcontext_last w) as [l|]; [|done].
    unfold mbind, M_bind, deref_gcontext.
    destruct (contexts w !! l) as [gc|] eqn:El; [|done].
    case_bool_decide; intros [= <-]. by rewrite El. }
  assert (∀ g0 t3 w3,
    (gcontext_incref g0 ≫= λ _, emit (EvSpinLockRelease gcontext_lock) ≫= λ _, mret g0) w
    = (t3, w3, Done g) →
    g0 = g ∧ t3 = [EvSpinLockRelease gcontext_lock]) as Hhit.
  { intros g0 t3 w3 (t4 & w4 & [] & t5 & Hinc & H5 & ->)%bind_done_inv.
    rewrite run_emit in H5. injection H5 as <- <- <-.
    assert (post (emits (λ _, False)) (gcontext_incref g0)) as Hq.
    { unfold gcontext_incref, update_gcontext. post_auto ltac:(by constructor). }
    apply Hq in Hinc. by destruct Hinc. }
  destruct last as [g0|].
  - left. apply Hhit in H as [<- ->]. split; [by apply Hlive|done].
  - simpl in H.
    apply bind_done_inv in H as (t3 & w3 & chain & t4 & Hchain & H & ->).
    assert (t3 = [] ∧ w3 = w ∧
            gcontext_hash w !! Z.to_nat (gpucontext_hash_index crc32c (CurrentResourceOwner w))
            = Some chain) as (-> & -> & Hc).
    { revert Hchain. unfold array_get. case_bool_decide; [|done].
      destruct (_ !! _); [|done]. by intros [= <- <- <-]. }
    apply bind_done_inv in H as (t5 & w5 & found & t6 & Hfind & H & ->).
    destruct (Hsilent _ _ _ _ _ _ Hfind) as [-> ->].
    destruct found as [g0|].
    + left. apply Hhit in H as [<- ->]. split; [by eapply Hfound|done].
    + right.
      apply bind_done_inv in H as (t7 & w7 & g' & t8 & Hcreate & H & ->).
      rewrite run_modify, run_emit in H. injection H as <- <- <-.
      pose proof Hcreate as (Hfresh & _ & _ & Hh & _)%pgstrom_create_gpucontext_done.
      split.
      { apply not_elem_of_dom. rewrite Hfresh. apply is_fresh. }
      revert Hcreate. unfold pgstrom_create_gpucontext at 1. rewrite run_get_world.
      intros (t_init & w_init & [] & t9 & Hinit & H & ->)%bind_done_inv.
      rewrite run_get_world, run_emit, run_modify in H.
      apply prefix_done_inv in H as (? & [= <- <- <-] & ->).
      assert (same_registry w w_init) as (Hci & _ & _ & Hoi).
      { revert Hinit. apply (post_when (keeps same_registry)).
        apply pgstrom_init_cuda_same_registry. }
      clear Hfresh. rewrite Hci.
      eexists t_init, _, chain. split_and!.
      * simpl. by rewrite <- !app_assoc.
      * revert Hinit. apply (post_when (emits is_driver_call_or_report)).
        apply pgstrom_init_cuda_emits.
      * intros Hn. rewrite bool_decide_eq_false_2 in Hinit by lia.
        by injection Hinit as <- <-.
      * unfold pgstrom_create_gpucontext. rewrite run_get_world.
        erewrite run_bind by exact Hinit.
        rewrite run_get_world, run_emit, run_modify. simpl.
        rewrite Hci. reflexivity.
      * done.
      * done.
      * simpl. simpl in Hh. by rewrite Hh.
Qed.


Lemma critical_section_held t1 t2 :
  Forall is_driver_call_or_report t1 →
  critical_section true (t1 ++ t2) = t1 ++ critical_section true t2.
Proof.
  induction 1 as [|e t1 He _ IH]; [done|].
  destruct e; simpl in *; try done; by rewrite IH.
Qed.

End acquire.

(** A successful acquisition either hits a live context, and then its
    critical section is empty; or it creates the context it returns, and
    then the initialisation of the CUDA runtime (if it was still to be done)
    and the creation of the arena are the content of the critical section,
    the creation has returned with the bucket table unchanged, and the
    context is chained after it. *)
Lemma acquire_creates_inside_critical_section drv crc32c w t w' g :
  pgstrom_get_gpucontext drv crc32c w = (t, w', Done g) →
  (is_Some (contexts w !! g) ∧ critical_section false t = []) ∨
  (contexts w !! g = None ∧
   ∃ t_init w_created chain,
     Forall is_driver_call_or_report t_init ∧
     (0 ≤ cuda_num_devices w → t_init = []) ∧
     critical_section false t
     = t_init ++ [EvHostPinMemContextCreate (CurrentResourceOwner w) (Z.pos g)] ∧
     pgstrom_create_gpucontext drv (CurrentResourceOwner w) w
     = (t_init ++ [EvHostPinMemContextCreate (CurrentResourceOwner w) (Z.pos g)],
        w_created, Done g) ∧
     gcontext_hash w_created = gcontext_hash w ∧
     gcontext_hash w !! Z.to_nat (gpucontext_hash_index crc32c (CurrentResourceOwner w))
     = Some chain ∧
     gcontext_hash w'
     = <[Z.to_nat (gpucontext_hash_index crc32c (CurrentResourceOwner w))
         := chain ++ [g]]> (gcontext_hash w)).
Proof.
  intros [[Hlive ->]|(Hnew & t_init & w_created & chain & -> & Hinit & Hready
                      & Hcreate & Hh & Hchain & Hh')]%pgstrom_get_gpucontext_trace.
  - by left.
  - right. split; [done|]. exists t_init, w_created, chain. split_and!; try done.
    simpl. by rewrite critical_section_held.
Qed.

Example acquire_creates_inside_critical_section_ready :
  ∃ t w', pgstrom_get_gpucontext example_driver example_crc32c ready_world
          = (t, w', Done 1%positive) ∧
    ∃ t_init,
      Forall is_driver_call_or_report t_init ∧
      critical_section false t
      = t_init ++ [EvHostPinMemContextCreate 4242 1] ∧
      gcontext_hash w' !! 42%nat = Some [1%positive].
Proof.
  destruct (pgstrom_get_gpucontext example_driver example_crc32c ready_world)
    as [[t w'] o] eqn:E.
  assert (o = Done 1%positive) as ->.
  { apply (f_equal snd) in E. vm_compute in E. congruence. }
  exists t, w'. split; [done|].
  destruct (acquire_creates_inside_critical_section _ _ _ _ _ _ E)
    as [[Hlive _]|(_ & t_init & w_created & chain & Hinit & _ & Hcs & _ & _ & Hc & Hh)].
  - exfalso. vm_compute in Hlive. by destruct Hlive.
  - exists t_init. split; [done|]. split; [exact Hcs|].
    rewrite Hh. vm_compute in Hc. injection Hc as <-. reflexivity.
Defined.

(** C7: on a miss the initialisation of the CUDA runtime and the creation
    of the arena happen between the acquisition and the release of
    [gcontext_lock], while [pgstrom_put_gpucontext] and the cleanup hook
    release the lock before they call the driver.  When the initialisation
    fails, the error is raised with the lock still held. *)
Theorem acquire_device_calls_under_lock :
  (pgstrom_get_gpucontext example_driver example_crc32c ready_world).1.1
  = [EvSpinLockAcquire gcontext_lock;
     EvCuda (CuInit 0) 0; EvCuda (CuDeviceGet 1) 0;
     EvHostPinMemContextCreate 4242 1;
     EvSpinLockRelease gcontext_lock] ∧
  critical_section false
    (pgstrom_get_gpucontext example_driver example_crc32c ready_world).1.1
  = [EvCuda (CuInit 0) 0; EvCuda (CuDeviceGet 1) 0;
     EvHostPinMemContextCreate 4242 1] ∧
  forallb (λ e, negb (is_device_call_or_allocation e))
    (critical_section false
       (pgstrom_get_gpucontext example_driver example_crc32c ready_world).1.1)
  = false ∧
  (pgstrom_get_gpucontext failing_driver example_crc32c ready_world).1.1
  = [EvSpinLockAcquire gcontext_lock;
     EvCuda (CuInit 0) 999; EvElog ERROR "failed on cuInit: %s"] ∧
  (pgstrom_get_gpucontext failing_driver example_crc32c ready_world).2
  = Raised "failed on cuInit: %s".
Proof. split_and!; vm_compute; reflexivity. Qed.

(** C6: the acquisition that creates a context leaves the most-recently-used
    slot empty, and the next acquisition under the same resource owner does
    not pass the test of the fast path. *)
Theorem acquire_miss_leaves_last_unset :
  let r := pgstrom_get_gpucontext example_driver example_crc32c ready_world in
  r.2 = Done 1%positive ∧
  contexts ready_world !! 1%positive = None ∧
  gcontext_last r.1.2 = None ∧
  (gcontext_last_matches (CurrentResourceOwner r.1.2) r.1.2).2 = Done None ∧
  (pgstrom_get_gpucontext example_driver example_crc32c r.1.2).2 = Done 1%positive.
Proof. split_and!; vm_compute; reflexivity. Qed.

(** ** Teardown *)

Lemma every_failure_warned_app t1 t2 :
  every_failure_warned t1 = true → every_failure_warned t2 = true →
  every_failure_warned (t1 ++ t2) = true.
Proof.
  induction t1 as [|e t1 IH]; [done|]. intros H1 H2.
  destruct e; simpl in *; auto.
  apply andb_true_iff in H1 as [Hhead Htail]. apply andb_true_iff. split; [|auto].
  destruct (rc =? CUDA_SUCCESS); [done|].
  destruct t1 as [|[] ?]; simpl in *; try done.
Qed.

#[global] Instance warned_sequential : Sequential warned.
Proof. split; unfold warned; [done|]. intros. by apply every_failure_warned_app. Qed.

#[global] Instance same_heap_refl : Reflexive same_heap.
Proof. by intros w. Qed.
#[global] Instance same_heap_trans : Transitive same_heap.
Proof. intros w1 w2 w3 (?&?&?) (?&?&?). repeat split; congruence. Qed.

Section checked_calls.
Context (Q : world → list event → world → Prop) `{!Sequential Q} (drv : Driver).

(** A driver call whose failure is reported at level [WARNING]. *)
Lemma post_checked_call {B} c fmt (k : unit → M B) :
  (∀ w rc, failed rc = true →
     Q w [EvCuda c rc; EvElog WARNING fmt] (set_cuda_clock (S (cuda_clock w)) w)) →
  (∀ w rc, failed rc = false →
     Q w [EvCuda c rc] (set_cuda_clock (S (cuda_clock w)) w)) →
  post Q (k tt) →
  post Q (cuda drv c ≫= λ rc, when (failed rc) (elog WARNING fmt) ≫= k).
Proof.
  intros Hfail Hok Hk w t w' o. unfold mbind at 1, M_bind at 1, cuda.
  destruct (failed _) eqn:Hrc; simpl.
  - rewrite run_elog by done.
    destruct (k tt _) as [[t2 w2] o2] eqn:Ek. simpl. intros [= <- <- <-].
    apply Hk in Ek. eapply (seq_app _ [_; _]); [by apply Hfail|done].
  - rewrite run_ret.
    destruct (k tt _) as [[t2 w2] o2] eqn:Ek. simpl. intros [= <- <- <-].
    apply Hk in Ek. eapply (seq_app _ [_]); [by apply Hok|done].
Qed.

Lemma post_checked_call_end c fmt :
  (∀ w rc, failed rc = true →
     Q w [EvCuda c rc; EvElog WARNING fmt] (set_cuda_clock (S (cuda_clock w)) w)) →
  (∀ w rc, failed rc = false →
     Q w [EvCuda c rc] (set_cuda_clock (S (cuda_clock w)) w)) →
  post Q (cuda drv c ≫= λ rc, when (failed rc) (elog WARNING fmt)).
Proof.
  intros Hfail Hok w t w' o. unfold mbind at 1, M_bind at 1, cuda.
  destruct (failed _) eqn:Hrc; simpl; intros [= <- <- <-].
  - by apply Hfail.
  - by apply Hok.
Qed.

End checked_calls.

Ltac warned_side :=
  unfold warned, failed in *; cbn [every_failure_warned];
  try match goal with
      | H : negb (?rc =? CUDA_SUCCESS) = _ |- _ => destruct (rc =? CUDA_SUCCESS)
      end;
  done.

Ltac warned_step :=
  cbv beta;
  first
    [ apply post_checked_call; try apply _; [intros ? ? ?; warned_side..|]
    | apply post_checked_call_end; try apply _; intros ? ? ?; warned_side
    | post_step warned_side ].
Ltac warned_auto := repeat warned_step.

Section teardown.
Context (drv : Driver).

Lemma pgstrom_sync_gpucontext_warned g :
  post warned (pgstrom_sync_gpucontext drv g).
Proof. unfold pgstrom_sync_gpucontext. warned_auto. Qed.

Lemma pgstrom_sync_gpucontext_same_heap g :
  post (keeps same_heap) (pgstrom_sync_gpucontext drv g).
Proof. unfold pgstrom_sync_gpucontext. keeps_auto. Qed.

(** The drain step emits driver calls and warnings only. *)
Lemma pgstrom_sync_gpucontext_emits g :
  post (emits (λ e, is_destruction e = false ∧ no_error_report e = true))
       (pgstrom_sync_gpucontext drv g).
Proof. unfold pgstrom_sync_gpucontext. post_auto ltac:(by repeat constructor). Qed.

Section loops.
Context (g : addr) (T : gmap addr GpuTask) (SL : list addr).
Local Abbreviation I := (teardown_inv g T SL).

Lemma teardown_inv_clock w n : I w → I (set_cuda_clock n w).
Proof. done. Qed.

Lemma teardown_inv_contexts w x :
  I w → I (set_contexts (<[g := x]> (contexts w)) w).
Proof.
  intros (HT & Hg & HSL). split_and!; [done| |done].
  simpl. by rewrite lookup_insert_eq.
Qed.

Lemma teardown_inv_taskstates w p s s' :
  I w → taskstates w !! p = Some s →
  tracked_tasks s' ⊆ tracked_tasks s →
  I (set_taskstates (<[p := s']> (taskstates w)) w).
Proof.
  intros (HT & Hg & HSL) Hp Hsub. split_and!; [done..|].
  eapply Forall_impl; [exact HSL|]. intros q (sq & Hq & Hready). simpl.
  destruct (decide (p = q)) as [->|Hne].
  - exists s'. rewrite lookup_insert_eq. split; [done|].
    assert (sq = s) as -> by congruence.
    rewrite Forall_forall in Hready |- *. auto.
  - exists sq. by rewrite lookup_insert_ne.
Qed.

Lemma total_update_gcontext f : total I (update_gcontext g f) (λ _, True).
Proof.
  intros w Hw. pose proof Hw as (_ & [gc Hgc] & _).
  exists [], (set_contexts (<[g := f gc]> (contexts w)) w), tt.
  split; [|split; [by apply teardown_inv_contexts|done]].
  unfold update_gcontext. by rewrite (run_deref_gcontext _ gc).
Qed.

Lemma total_deref_gts p :
  p ∈ SL → total I (deref_gts p) (λ s, Forall (task_ready T) (tracked_tasks s)).
Proof.
  intros Hp w Hw. pose proof Hw as (_ & _ & HSL).
  rewrite Forall_forall in HSL. destruct (HSL p Hp) as (s & Hs & Hready).
  exists [], w, s. split; [|done]. unfold deref_gts. by rewrite Hs.
Qed.

Lemma total_update_gts p f :
  p ∈ SL → (∀ s, tracked_tasks (f s) ⊆ tracked_tasks s) →
  total I (update_gts p f) (λ _, True).
Proof.
  intros Hp Hf w Hw. pose proof Hw as (_ & _ & HSL).
  rewrite Forall_forall in HSL. destruct (HSL p Hp) as (s & Hs & Hready).
  exists [], (set_taskstates (<[p := f s]> (taskstates w)) w), tt.
  split; [|split; [by eapply teardown_inv_taskstates|done]].
  unfold update_gts.
  erewrite run_bind by (unfold deref_gts; by rewrite Hs). done.
Qed.

Lemma total_release_task p is_commit tp :
  p ∈ SL → task_ready T tp →
  total I (release_task p is_commit tp) (λ _, True).
Proof.
  intros Hp Htp. unfold release_task.
  eapply (total_bind _ _ _ (λ task, cb_release task ≠ 0)).
  { intros w Hw. pose proof Hw as (HT & _). unfold task_ready in Htp.
    destruct (T !! tp) as [task|] eqn:Etask; [|done].
    exists [], w, task. split; [|done]. unfold deref_task. by rewrite HT, Etask. }
  intros task Hcb.
  eapply total_bind.
  { apply total_update_gts; [done|]. intros s. simpl. unfold dlist_delete.
    intros x [_ Hx]%list_elem_of_filter. done. }
  intros _ _. eapply total_bind.
  { apply total_when, total_elog_warning. }
  intros _ _. rewrite bool_decide_eq_false_2 by done. apply total_emit.
Qed.

Lemma total_release_taskstate is_commit p :
  p ∈ SL → total I (release_taskstate drv g is_commit p) (λ _, True).
Proof.
  intros Hp. unfold release_taskstate.
  eapply total_bind; [by apply total_deref_gts|]. intros gts Hready.
  eapply total_bind; [apply total_update_gcontext|]. intros _ _.
  eapply total_bind.
  { apply total_when. eapply total_bind; [by apply total_cuda|]. intros rc _.
    eapply total_bind; [apply total_when, total_elog_warning|]. intros _ _.
    by apply total_update_gts. }
  intros _ _. eapply total_bind.
  { apply total_forM_. intros tp Htp. apply total_release_task; [done|].
    rewrite Forall_forall in Hready. auto. }
  intros _ _. eapply total_bind; [apply total_when, total_elog_warning|].
  intros _ _. apply total_when, total_emit.
Qed.

Lemma total_release_data_store pds :
  total I (release_data_store g pds) (λ _, True).
Proof.
  unfold release_data_store.
  eapply total_bind; [apply total_update_gcontext|]. intros _ _.
  destruct (kds_fname pds); [apply total_emit|by apply total_ret].
Qed.

Lemma total_destroy_dev_contexts gc :
  num_context gc = Z.of_nat (length (dev_context gc)) →
  total I (destroy_dev_contexts drv gc) (λ _, True).
Proof.
  intros Hnum w Hw. unfold destroy_dev_contexts. rewrite Hnum, forM_array.
  revert w Hw. apply total_forM_. intros ctx _.
  eapply total_bind; [by apply total_cuda|]. intros rc _.
  apply total_when, total_elog_warning.
Qed.

End loops.

(** The drain visits every device sub-context, in order, and nothing else
    calls the driver. *)
Lemma pgstrom_sync_gpucontext_calls g gc w :
  contexts w !! g = Some gc →
  num_context gc = Z.of_nat (length (dev_context gc)) →
  ∃ t w', pgstrom_sync_gpucontext drv g w = (t, w', Done tt) ∧
          calls t = flat_map (λ ctx, [CuCtxSetCurrent ctx; CuCtxSynchronize])
                             (dev_context gc).
Proof.
  intros Hgc Hnum. unfold pgstrom_sync_gpucontext.
  rewrite (run_deref_gcontext _ gc), Hnum, forM_array by done.
  clear Hgc Hnum. revert w. set (body := λ ctx : Z, _).
  induction (dev_context gc) as [|ctx l IH]; intros w; simpl.
  - by exists [], w.
  - assert (∃ t1 w1, body ctx w = (t1, w1, Done tt) ∧
                     calls t1 = [CuCtxSetCurrent ctx; CuCtxSynchronize])
      as (t1 & w1 & E1 & Hc1).
    { unfold body, mbind, M_bind, cuda. simpl.
      destruct (failed _); simpl; destruct (failed _); simpl; eauto. }
    destruct (IH w1) as (t2 & w2 & E2 & Hc2).
    exists (t1 ++ t2), w2. split.
    + erewrite run_bind by exact E1. by rewrite E2.
    + unfold calls in *. by rewrite omap_app, Hc1, Hc2.
Qed.

Lemma teardown_loops_warned g gc is_commit :
  post warned (forM_ (state_list gc) (release_taskstate drv g is_commit)) ∧
  post warned (forM_ (pds_list gc) (release_data_store g)) ∧
  post warned (destroy_dev_contexts drv gc).
Proof.
  unfold release_taskstate, release_task, release_data_store,
    destroy_dev_contexts, update_gcontext, update_gts.
  split_and!; warned_auto.
Qed.

(** After the drain no synchronisation is issued, and no report is above
    [WARNING]. *)
Lemma teardown_loops_emits g gc is_commit :
  let P := λ e, is_drain e = false ∧ no_error_report e = true in
  post (emits P) (forM_ (state_list gc) (release_taskstate drv g is_commit)) ∧
  post (emits P) (forM_ (pds_list gc) (release_data_store g)) ∧
  post (emits P) (destroy_dev_contexts drv gc).
Proof.
  unfold release_taskstate, release_task, release_data_store,
    destroy_dev_contexts, update_gcontext, update_gts.
  split_and!; post_auto ltac:(by repeat constructor).
Qed.

End teardown.

(** The course of the teardown.  For a context whose task states and
    tracked tasks are live, teardown returns normally whatever the driver
    answers.  Its trace
    starts with the trace of the drain, which sets current and synchronises
    every device sub-context in order and holds no release, unload or
    destruction; what follows the drain holds no synchronisation.  Up to
    the closing [cuCtxSetCurrent(NULL)], every failed driver call is
    followed at once by a [WARNING] and nothing is reported above that
    level; the return code of the closing call is not looked at.  The arena
    is deleted last and the context is gone. *)
Theorem teardown_drains_then_completes drv g gc is_commit w :
  teardown_ready g gc w →
  ∃ t_drain t_rest rc w',
    pgstrom_release_gpucontext drv g is_commit w
    = (t_drain ++ t_rest
       ++ [EvCuda (CuCtxSetCurrent 0) rc; EvMemoryContextDelete (memcxt gc)],
       w', Done tt) ∧
    (pgstrom_sync_gpucontext drv g w).1.1 = t_drain ∧
    calls t_drain = flat_map (λ ctx, [CuCtxSetCurrent ctx; CuCtxSynchronize])
                             (dev_context gc) ∧
    Forall (λ e, is_destruction e = false) t_drain ∧
    Forall (λ e, is_drain e = false) t_rest ∧
    every_failure_warned (t_drain ++ t_rest) = true ∧
    Forall (λ e, no_error_report e = true) (t_drain ++ t_rest) ∧
    contexts w' !! g = None.
Proof.
  intros (Hgc & Hnum & Hready).
  destruct (pgstrom_sync_gpucontext_calls drv g gc w Hgc Hnum)
    as (t_drain & w1 & Esync & Hcalls).
  pose proof (pgstrom_sync_gpucontext_same_heap drv g _ _ _ _ Esync)
    as (Hc1 & Hs1 & Ht1).
  pose proof (pgstrom_sync_gpucontext_warned drv g _ _ _ _ Esync) as Hw1.
  pose proof (pgstrom_sync_gpucontext_emits drv g _ _ _ _ Esync) as He1.
  assert (teardown_inv g (tasks w) (state_list gc) w1) as Hinv.
  { split_and!; [done|by rewrite Hc1, Hgc|].
    eapply Forall_impl; [exact Hready|]. intros p Hp. unfold gts_ready in Hp.
    rewrite Hs1. destruct (taskstates w !! p) as [s|]; [by exists s|done]. }
  destruct (total_forM_ _ _ _
              (λ p Hp, total_release_taskstate drv g (tasks w) (state_list gc)
                         is_commit p Hp) w1 Hinv)
    as (t2 & w2 & [] & E2 & Hinv2 & _).
  destruct (total_forM_ _ (pds_list gc) _
              (λ pds _, total_release_data_store g (tasks w) (state_list gc) pds)
              w2 Hinv2)
    as (t3 & w3 & [] & E3 & Hinv3 & _).
  destruct (total_destroy_dev_contexts drv g (tasks w) (state_list gc) gc Hnum
              w3 Hinv3)
    as (t4 & w4 & [] & E4 & Hinv4 & _).
  destruct (teardown_loops_warned drv g gc is_commit) as (Hwa & Hwb & Hwc).
  destruct (teardown_loops_emits drv g gc is_commit) as (Hea & Heb & Hec).
  exists t_drain, (t2 ++ t3 ++ t4),
    (drv_rc drv (cuda_clock w4) (CuCtxSetCurrent 0)),
    (set_contexts (delete g (contexts w4)) (set_cuda_clock (S (cuda_clock w4)) w4)).
  split_and!.
  - unfold pgstrom_release_gpucontext.
    erewrite run_bind by exact Esync.
    rewrite (run_deref_gcontext _ gc) by by rewrite Hc1.
    erewrite run_bind by exact E2. erewrite run_bind by exact E3.
    erewrite run_bind by exact E4. simpl. by rewrite <- !app_assoc.
  - by rewrite Esync.
  - done.
  - eapply Forall_impl; [exact He1|]. by intros e [? ?].
  - apply Hea in E2. apply Heb in E3. apply Hec in E4.
    rewrite !Forall_app. split_and!;
      (eapply Forall_impl; [eassumption|]); by intros e [? ?].
  - apply Hwa in E2. apply Hwb in E3. apply Hwc in E4.
    repeat apply every_failure_warned_app; done.
  - apply Hea in E2. apply Heb in E3. apply Hec in E4.
    rewrite !Forall_app. split_and!;
      (eapply Forall_impl; [eassumption|]); by intros e [? ?].
  - simpl. apply lookup_delete_eq.
Qed.

Lemma teardown_world_ready :
  ∃ gc, teardown_ready 1%positive gc teardown_world.
Proof.
  eexists. split_and!.
  - reflexivity.
  - reflexivity.
  - repeat constructor. vm_compute. repeat constructor. discriminate.
Defined.

Lemma teardown_drains_then_completes_witness :
  ∃ t_drain t_rest rc w',
    pgstrom_release_gpucontext failing_driver 1%positive true teardown_world
    = (t_drain ++ t_rest
       ++ [EvCuda (CuCtxSetCurrent 0) rc; EvMemoryContextDelete 1],
       w', Done tt) ∧
    calls t_drain = [CuCtxSetCurrent 11; CuCtxSynchronize;
                     CuCtxSetCurrent 12; CuCtxSynchronize] ∧
    Forall (λ e, is_destruction e = false) t_drain ∧
    Forall (λ e, is_drain e = false) t_rest ∧
    every_failure_warned (t_drain ++ t_rest) = true ∧
    contexts w' !! 1%positive = None.
Proof.
  destruct teardown_world_ready as [gc Hready].
  destruct (teardown_drains_then_completes failing_driver 1%positive gc true
              teardown_world Hready)
    as (t_drain & t_rest & rc & w' & E & _ & Hcalls & Hd & Hr & Hw & _ & Hg).
  destruct Hready as (Hgc & _). injection Hgc as <-.
  exists t_drain, t_rest, rc, w'. done.
Defined.

(** C2.  Two runs of the teardown of a ready context.  On a driver on
    which the closing [cuCtxSetCurrent(NULL)] fails and every other call
    succeeds, the teardown runs to its end and the failed call is followed
    by no report: its return code is not looked at, unlike the return codes
    of the other driver calls of the teardown.  On a driver on which
    [cuCtxSynchronize] fails, the failed drain of each device sub-context is
    reported as a [WARNING], and the task is released and both device
    sub-contexts are destroyed all the same. *)
Lemma teardown_unreported_failure :
  (∃ gc, teardown_ready 1%positive gc teardown_world) ∧
  (pgstrom_release_gpucontext reset_failing_driver 1%positive false
     teardown_world).1.1
  = [EvCuda (CuCtxSetCurrent 11) 0; EvCuda CuCtxSynchronize 0;
     EvCuda (CuCtxSetCurrent 12) 0; EvCuda CuCtxSynchronize 0;
     EvCuda (CuModuleUnload 77) 0; EvTaskRelease 32 9;
     EvTaskStateCleanup 31 5; EvFileUnmapDataStore "/dev/shm/kds";
     EvCuda (CuCtxDestroy 11) 0; EvCuda (CuCtxDestroy 12) 0;
     EvCuda (CuCtxSetCurrent 0) 1; EvMemoryContextDelete 1] ∧
  every_failure_warned
    (pgstrom_release_gpucontext reset_failing_driver 1%positive false
       teardown_world).1.1 = false ∧
  (pgstrom_release_gpucontext drain_failing_driver 1%positive false
     teardown_world).1.1
  = [EvCuda (CuCtxSetCurrent 11) 0;
     EvCuda CuCtxSynchronize 700;
     EvElog WARNING "failed on cuCtxSynchronize: %s";
     EvCuda (CuCtxSetCurrent 12) 0;
     EvCuda CuCtxSynchronize 700;
     EvElog WARNING "failed on cuCtxSynchronize: %s";
     EvCuda (CuModuleUnload 77) 0; EvTaskRelease 32 9;
     EvTaskStateCleanup 31 5; EvFileUnmapDataStore "/dev/shm/kds";
     EvCuda (CuCtxDestroy 11) 0; EvCuda (CuCtxDestroy 12) 0;
     EvCuda (CuCtxSetCurrent 0) 0; EvMemoryContextDelete 1].
Proof.
  split; [exact teardown_world_ready|]. split_and!; vm_compute; reflexivity.
Qed.

(** ** Task initialisation *)

(** C9, as amended.  With the task state and its context live, the cursor
    inside the range of [int] and the array of device sub-contexts covering
    the cursor's slot, [pgstrom_init_gputask] advances the round-robin
    cursor of the context in every case.  If the three driver calls
    succeed, the task is bound to the sub-context of the cursor's slot and
    appended to the tracked tasks; if one of them fails, the error is
    raised and the task states and the tasks are as before. *)
Theorem init_gputask_outcome drv gts task cb_process_arg cb_release_arg w s gc ctx :
  taskstates w !! gts = Some s →
  contexts w !! gts_gcontext s = Some gc →
  0 ≤ cur_context gc < INT_MAX →
  0 < num_context gc →
  dev_context gc !! Z.to_nat (cur_context gc `rem` num_context gc) = Some ctx →
  let c := cuda_clock w in
  let rc1 := drv_rc drv c CuCtxGetDevice in
  let rc2 := drv_rc drv (S c) (CuCtxSetCurrent ctx) in
  let rc3 := drv_rc drv (S (S c)) (CuStreamCreate CU_STREAM_NON_BLOCKING) in
  ∃ t w' o,
    pgstrom_init_gputask drv gts task cb_process_arg cb_release_arg w = (t, w', o) ∧
    contexts w' = <[gts_gcontext s := gc_set_cur_context (cur_context gc + 1) gc]>
                    (contexts w) ∧
    if bool_decide (rc1 = CUDA_SUCCESS ∧ rc2 = CUDA_SUCCESS ∧ rc3 = CUDA_SUCCESS)
    then
      o = Done tt ∧
      tasks w' = <[task := {| task_gts := Some gts;
                              cuda_stream := drv_stream drv (S (S c));
                              cuda_device := drv_current_device drv c;
                              cuda_context := ctx;
                              cb_process := 0; cb_release := 0 |}]> (tasks w) ∧
      taskstates w' = <[gts := gts_set_tracked_tasks (tracked_tasks s ++ [task]) s]>
                        (taskstates w)
    else
      (∃ msg, o = Raised msg) ∧ tasks w' = tasks w ∧ taskstates w' = taskstates w.
Proof.
  intros Hs Hgc Hcur Hnum Hctx c rc1 rc2 rc3.
  unfold pgstrom_init_gputask.
  erewrite run_bind by (unfold deref_gts; by rewrite Hs). rewrite prefix_nil.
  rewrite (run_deref_gcontext _ gc) by done.
  rewrite run_int_result by (unfold INT_MIN; lia).
  rewrite (run_update_gcontext _ gc) by done.
  rewrite bool_decide_eq_false_2 by lia. simpl when. rewrite run_ret.
  rewrite (run_array_get _ _ ctx) by (try done; apply Z.rem_nonneg; lia).
  rewrite run_get_world, run_cuda. simpl cuda_clock. fold c. fold rc1.
  apply (prefix_shape _ _ (λ w' o, _ ∧ _)). unfold failed.
  destruct (Z.eqb_spec rc1 CUDA_SUCCESS) as [H1|H1]; simpl when; last first.
  { rewrite run_elog_error. do 3 eexists. split; [reflexivity|]. split; [done|].
    rewrite bool_decide_eq_false_2 by tauto. eauto. }
  rewrite run_ret, run_cuda. simpl cuda_clock. fold c. fold rc2.
  apply (prefix_shape _ _ (λ w' o, _ ∧ _)).
  destruct (Z.eqb_spec rc2 CUDA_SUCCESS) as [H2|H2]; simpl when; last first.
  { rewrite run_elog_error. do 3 eexists. split; [reflexivity|]. split; [done|].
    rewrite bool_decide_eq_false_2 by tauto. eauto. }
  rewrite run_ret, run_get_world, run_cuda. simpl cuda_clock. fold c. fold rc3.
  apply (prefix_shape _ _ (λ w' o, _ ∧ _)).
  destruct (Z.eqb_spec rc3 CUDA_SUCCESS) as [H3|H3]; simpl when; last first.
  { rewrite run_elog_error. do 3 eexists. split; [reflexivity|]. split; [done|].
    rewrite bool_decide_eq_false_2 by tauto. eauto. }
  rewrite run_ret, run_modify. unfold SpinLockAcquire, SpinLockRelease.
  rewrite run_emit. apply (prefix_shape _ _ (λ w' o, _ ∧ _)).
  erewrite run_bind; last first.
  { unfold update_gts. erewrite run_bind by (unfold deref_gts; simpl; by rewrite Hs).
    reflexivity. }
  do 3 eexists. split; [reflexivity|]. split; [done|].
  rewrite bool_decide_eq_true_2 by done. done.
Qed.

Lemma init_gputask_outcome_witness :
  ∃ t w',
    pgstrom_init_gputask example_driver 5%positive 10%positive 0 0 teardown_world
    = (t, w', Done tt) ∧
    cur_context <$> contexts w' !! 1%positive = Some 2 ∧
    cuda_context <$> tasks w' !! 10%positive = Some 12 ∧
    tracked_tasks <$> taskstates w' !! 5%positive = Some [9%positive; 10%positive].
Proof.
  assert (0 ≤ 1 < INT_MAX) as Hcur by (unfold INT_MAX; lia).
  assert (0 < 2) as Hnum by lia.
  destruct (init_gputask_outcome example_driver 5%positive 10%positive 0 0
              teardown_world _ _ 12 eq_refl eq_refl Hcur Hnum eq_refl)
    as (t & w' & o & E & Hc & H).
  rewrite bool_decide_eq_true_2 in H by done.
  destruct H as (-> & Ht & Hs).
  exists t, w'. split; [exact E|]. rewrite Hc, Ht, Hs. by vm_compute.
Defined.

(** A context as [pgstrom_create_gpucontext] leaves it has no device
    sub-context ([num_context] is 0 in the zeroed object and nothing in this
    file assigns it): the remainder in the round-robin step is undefined. *)
Example init_gputask_fresh_context_undefined :
  let acquired :=
    (pgstrom_get_gpucontext example_driver example_crc32c ready_world).1.2 in
  let w := set_taskstates (taskstates teardown_world) acquired in
  num_context <$> contexts w !! 1%positive = Some 0 ∧
  (pgstrom_init_gputask example_driver 5%positive 10%positive 0 0 w).2 = Undef.
Proof. split; vm_compute; reflexivity. Qed.

(** C9 as stated fails: the cursor of the context has been advanced when
    the error is raised. *)
Lemma init_gputask_failure_advances_cursor :
  let r := pgstrom_init_gputask failing_driver 5%positive 10%positive 0 0
             teardown_world in
  r.2 = Raised "failed on cuCtxGetDevice: %s" ∧
  cur_context <$> contexts teardown_world !! 1%positive = Some 1 ∧
  cur_context <$> contexts r.1.2 !! 1%positive = Some 2 ∧
  contexts r.1.2 ≠ contexts teardown_world.
Proof.
  split_and!; try (vm_compute; reflexivity).
  intros H. apply (f_equal (λ m, cur_context <$> m !! 1%positive)) in H.
  vm_compute in H. discriminate.
Qed.

(** ** Device enumeration *)

Section enumeration.
Context (drv : Driver).

Lemma cuDeviceGetAttribute_done attrib device fmt w t w' v :
  cuDeviceGetAttribute drv attrib device fmt w = (t, w', Done v) →
  v = drv_device_attr drv attrib device ∧
  w' = set_cuda_clock (S (cuda_clock w)) w.
Proof.
  unfold cuDeviceGetAttribute. rewrite run_cuda.
  intros (t1 & H & ->)%prefix_done_inv. revert H.
  destruct (failed _); simpl when.
  - by rewrite run_elog_error.
  - rewrite run_ret. by intros [= <- <- <-].
Qed.

Ltac peel_call H :=
  rewrite run_cuda in H; apply prefix_done_inv in H as (? & H & ->);
  destruct (failed _) in H; simpl when in H;
  [by rewrite run_elog_error in H|rewrite run_ret in H];
  cbn [cuda_clock set_cuda_clock] in H.

Ltac peel_attribute H :=
  let Hq := fresh "Hq" in
  apply bind_done_inv in H as (? & ? & ? & ? & Hq & H & ->);
  apply cuDeviceGetAttribute_done in Hq as [-> ->];
  cbn [cuda_clock set_cuda_clock] in H.

Lemma pgstrom_check_device_capability_done ordinal w t w' b :
  pgstrom_check_device_capability drv ordinal (drv_device drv ordinal) w
  = (t, w', Done b) →
  b = supported drv ordinal ∧
  cuda_device_ordinals w' = cuda_device_ordinals w ∧
  cuda_max_malloc_size w'
  = Z.min (cuda_max_malloc_size w) (device_malloc_ceiling drv ordinal) ∧
  cuda_max_threads_per_block w'
  = Z.min (cuda_max_threads_per_block w) (device_max_threads drv ordinal) ∧
  cuda_compute_capability w'
  = Z.min (cuda_compute_capability w) (device_capability drv ordinal).
Proof.
  unfold pgstrom_check_device_capability. intros H.
  peel_call H. peel_call H. do 8 peel_attribute H.
  apply bind_done_inv in H as (? & ? & capability & ? & Hcap & H & ->).
  revert Hcap. unfold int_result. case_bool_decide; [|done].
  unfold mret, M_ret. intros Hcap. simplify_eq.
  rewrite run_modify, run_elog in H by done. simpl in H. by simplify_eq.
Qed.

Lemma enumeration_loop l : ∀ w t w',
  forM_ l (λ i,
    rc ← cuda drv (CuDeviceGet i);
    when (failed rc) (elog ERROR "failed on cuDeviceGet(%s)") ;;
    ok ← pgstrom_check_device_capability drv i (drv_device drv i);
    when ok
      (modify (λ w, set_limits
         {| lim_ordinals := cuda_device_ordinals w ++ [i];
            lim_max_malloc_size := cuda_max_malloc_size w;
            lim_max_threads_per_block := cuda_max_threads_per_block w;
            lim_compute_capability := cuda_compute_capability w |} w))) w
  = (t, w', Done tt) →
  cuda_device_ordinals w'
  = cuda_device_ordinals w ++ List.filter (supported drv) l ∧
  cuda_max_malloc_size w'
  = fold_min (cuda_max_malloc_size w) (device_malloc_ceiling drv <$> l) ∧
  cuda_max_threads_per_block w'
  = fold_min (cuda_max_threads_per_block w) (device_max_threads drv <$> l) ∧
  cuda_compute_capability w'
  = fold_min (cuda_compute_capability w) (device_capability drv <$> l).
Proof.
  induction l as [|i l IH]; intros w t w'; simpl.
  - unfold mret, M_ret. intros ?. simplify_eq. by rewrite app_nil_r.
  - intros (t1 & w1 & [] & t2 & Hbody & Hrest & ->)%bind_done_inv.
    apply IH in Hrest as (Ho & Hm & Ht & Hc). clear IH.
    peel_call Hbody.
    apply bind_done_inv in Hbody as (? & w2 & ok & ? & Hcheck & Hbody & ->).
    apply pgstrom_check_device_capability_done in Hcheck
      as (-> & Ho2 & Hm2 & Ht2 & Hc2).
    simpl in Ho2, Hm2, Ht2, Hc2.
    assert (cuda_device_ordinals w1
            = cuda_device_ordinals w ++ (if supported drv i then [i] else []) ∧
            cuda_max_malloc_size w1 = cuda_max_malloc_size w2 ∧
            cuda_max_threads_per_block w1 = cuda_max_threads_per_block w2 ∧
            cuda_compute_capability w1 = cuda_compute_capability w2)
      as (Ho1 & Hm1 & Ht1 & Hc1).
    { destruct (supported drv i); simpl in Hbody;
        unfold mret, M_ret, modify in Hbody; simplify_eq;
        simpl; rewrite ?Ho2, ?app_nil_r; done. }
    rewrite Ho, Hm, Ht, Hc, Ho1, Hm1, Ht1, Hc1, Hm2, Ht2, Hc2.
    split_and!; try done.
    destruct (supported drv i); simpl; by rewrite <- ?app_assoc, ?app_nil_r.
Qed.

End enumeration.

(** What enumeration computes.  When it succeeds, the list of usable
    devices holds the ordinals that passed the capability predicate, and it
    is not empty; each aggregated limit is the minimum of its initial value
    and of the values of all the devices the driver reported, whether they
    passed the predicate or not. *)
Theorem enumeration_aggregates_all_devices drv w t w' :
  pgstrom_init_cuda_control drv w = (t, w', Done tt) →
  cuda_device_ordinals w'
  = cuda_device_ordinals w ++ List.filter (supported drv) (enumerated drv) ∧
  cuda_device_ordinals w' ≠ [] ∧
  cuda_max_malloc_size w'
  = fold_min (cuda_max_malloc_size w)
             (device_malloc_ceiling drv <$> enumerated drv) ∧
  cuda_max_threads_per_block w'
  = fold_min (cuda_max_threads_per_block w)
             (device_max_threads drv <$> enumerated drv) ∧
  cuda_compute_capability w'
  = fold_min (cuda_compute_capability w)
             (device_capability drv <$> enumerated drv).
Proof.
  unfold pgstrom_init_cuda_control. intros H.
  rewrite run_cuda in H. apply prefix_done_inv in H as (? & H & ->).
  destruct (failed _) in H; simpl when in H;
    [by rewrite run_elog_error in H|rewrite run_ret in H].
  rewrite run_cuda in H. apply prefix_done_inv in H as (? & H & ->).
  destruct (failed _) in H; simpl when in H;
    [by rewrite run_elog_error in H|rewrite run_ret in H].
  apply bind_done_inv in H as (t1 & w1 & [] & t2 & Hloop & H & ->).
  apply enumeration_loop in Hloop as (Ho & Hm & Ht & Hc).
  simpl in Ho, Hm, Ht, Hc. rewrite run_get_world in H.
  case_bool_decide as Hnil; simpl when in H; [by rewrite run_elog_error in H|].
  rewrite run_ret, run_modify in H. unfold emit in H. simplify_eq. simpl.
  unfold enumerated. by rewrite <- Ho, <- Hm, <- Ht, <- Hc.
Qed.

Lemma enumeration_aggregates_all_devices_witness :
  world_limits ready_world
  = {| lim_ordinals := [1]; lim_max_malloc_size := 536870912;
       lim_max_threads_per_block := 512; lim_compute_capability := 200 |}.
Proof.
  destruct (pgstrom_init_cuda_control example_driver boot_world)
    as [[t w'] o] eqn:E.
  assert (o = Done tt) as ->.
  { apply (f_equal snd) in E. vm_compute in E. congruence. }
  destruct (enumeration_aggregates_all_devices _ _ _ _ E) as (Ho & _ & Hm & Ht & Hc).
  unfold ready_world, world_limits. rewrite E. simpl.
  rewrite Ho, Hm, Ht, Hc. vm_compute. reflexivity.
Defined.

(** C3.  With a device of compute capability 2.0 (1.5 GB, 512 threads per
    block) beside one of compute capability 3.5 (12 GB, 1024 threads per
    block), enumeration succeeds and lists the second device only, and all
    three aggregated limits are those of the first device, which did not
    pass the capability predicate: 512 MB, 512 threads and 200, where the
    minimum over the listed devices is 4096 MB, 1024 threads and 305. *)
Lemma enumeration_excluded_device_lowers_limits :
  (pgstrom_init_cuda_control example_driver boot_world).2 = Done tt ∧
  List.filter (supported example_driver) (enumerated example_driver) = [1] ∧
  world_limits ready_world
  = {| lim_ordinals := [1]; lim_max_malloc_size := 536870912;
       lim_max_threads_per_block := 512; lim_compute_capability := 200 |} ∧
  specified_limits example_driver = (Some 4294967296, Some 1024, Some 305) ∧
  (Some (cuda_max_malloc_size ready_world),
   Some (cuda_max_threads_per_block ready_world),
   Some (cuda_compute_capability ready_world))
  ≠ specified_limits example_driver.
Proof. split_and!; try (vm_compute; reflexivity). vm_compute. discriminate. Qed.

(** ** Workgroup sizing *)

Lemma shrink_block_size_never exceeds :
  (∀ b, exceeds b = true) →
  ∀ fuel b w, ∃ t w',
    shrink_block_size fuel exceeds b w = (t, w', Undef) ∨
    shrink_block_size fuel exceeds b w = (t, w', OutOfFuel).
Proof.
  intros Hex. induction fuel as [|fuel IH]; intros b w; simpl.
  - exists [], w. by right.
  - rewrite Hex. unfold int_result. case_bool_decide.
    + rewrite run_ret. apply IH.
    + exists [], w. by left.
Qed.

(** C4: for a kernel whose static shared memory alone exceeds the limit of
    the device and that needs no dynamic shared memory, the loop condition
    holds for every block size: whatever the bound on the number of
    iterations, the computation neither returns nor raises its error; it
    runs [block_size] down to [INT_MIN] and overflows. *)
Theorem workgroup_size_static_overflow (fuel : nat) :
  let o := (pgstrom_compute_workgroup_size oversized_kernel_driver fuel
              7 1 true 100000 0 ready_world).2 in
  o = Undef ∨ o = OutOfFuel.
Proof.
  unfold pgstrom_compute_workgroup_size, cuFuncGetAttribute, cuDeviceGetAttribute.
  rewrite !run_assoc, run_cuda. simpl when. rewrite run_assoc, run_ret, run_ret.
  rewrite !run_assoc, run_cuda. simpl when. rewrite run_assoc, run_ret, run_ret.
  rewrite !run_assoc, run_cuda. simpl when. rewrite run_assoc, run_ret, run_ret.
  rewrite !run_assoc, run_cuda. simpl when. rewrite run_assoc, run_ret, run_ret.
  simpl drv_func_attr. simpl drv_device_attr. rewrite !prefix_outcome.
  match goal with
  | |- context [(shrink_block_size ?f ?e ?b ≫= ?k) ?w] =>
      destruct (shrink_block_size_never e
                  (λ b', ltac:(unfold shmem_exceeds; rewrite Z.mul_0_l; reflexivity))
                  f b w) as (t & w' & [E|E]);
      unfold mbind, M_bind; rewrite E; simpl; auto
  end.
Qed.

(** C5: in maximum-occupancy mode the grid size is the one the driver
    heuristic returned; the item count does not enter it. *)
Theorem occupancy_mode_grid_size :
  (pgstrom_compute_workgroup_size example_driver 0 7 1 false 100000 64
     ready_world).2 = Done (16, 1024) ∧
  (100000 + 1024 - 1) / 1024 = 98 ∧
  (pgstrom_compute_workgroup_size example_driver 0 7 1 false 5 64
     ready_world).2 = Done (16, 1024) ∧
  (pgstrom_compute_workgroup_size example_driver 1 7 1 true 100000 0
     ready_world).2 = Done (98, 1024).
Proof. split_and!; vm_compute; reflexivity. Qed.

(** The arithmetic of the loop condition wraps at [2^64]: a per-thread
    requirement of [2^63] bytes passes the test at the initial block size. *)
Example workgroup_size_wraps :
  (pgstrom_compute_workgroup_size example_driver 1 7 1 true 100000 (2 ^ 63)
     ready_world).2 = Done (98, 1024) ∧
  49152 < 1024 + 2 ^ 63 * 1024.
Proof. split; [vm_compute; reflexivity|lia]. Qed.

Lemma occupancy_mode_ignores_nitems drv fuel function device nitems nitems' dsp w :
  pgstrom_compute_workgroup_size drv fuel function device false nitems dsp w
  = pgstrom_compute_workgroup_size drv fuel function device false nitems' dsp w.
Proof. reflexivity. Qed.

(** When the condition fails at 0, the loop leaves with the largest block
    size, not above the initial one, at which the condition fails. *)
Lemma shrink_block_size_fits exceeds :
  exceeds 0 = false →
  ∀ fuel b0 w, 0 ≤ b0 ≤ INT_MAX → (Z.to_nat b0 < fuel)%nat →
  ∃ b, shrink_block_size fuel exceeds b0 w = ([], w, Done b) ∧
       0 ≤ b ≤ b0 ∧ exceeds b = false ∧
       ∀ b', b < b' ≤ b0 → exceeds b' = true.
Proof.
  intros H0. induction fuel as [|fuel IH]; intros b0 w Hb Hf; [lia|]. simpl.
  destruct (exceeds b0) eqn:Eb.
  - assert (b0 ≠ 0) by (intros ->; congruence).
    rewrite run_int_result by (unfold INT_MIN; lia).
    destruct (IH (b0 - 1) w) as (b & E & Hr & Hex & Hmax); [lia..|].
    exists b. split_and!; [done|lia..|done|].
    intros b' Hb'. destruct (decide (b' = b0)) as [->|]; [done|]. apply Hmax. lia.
  - exists b0. split_and!; [done|lia..|done|]. intros b' Hb'. lia.
Qed.

Lemma to_size_t_id x : 0 ≤ x < 2 ^ 64 → to_size_t x = x.
Proof. intros Hx. unfold to_size_t. by apply Z.mod_small. Qed.

(** The maximum-block-size mode on inputs whose static shared memory fits
    the device and whose arithmetic stays inside 64 bits: with the driver
    calls succeeding and fuel for the whole loop, the computation returns
    the largest block size whose shared memory fits, not below the warp
    size, with the grid size that covers the items, or raises the
    configuration error. *)
Lemma workgroup_size_when_static_fits drv fuel function device nitems per_thread w :
  let static := drv_func_attr drv CU_FUNC_ATTRIBUTE_SHARED_SIZE_BYTES function in
  let b0 := drv_func_attr drv CU_FUNC_ATTRIBUTE_MAX_THREADS_PER_BLOCK function in
  let limit := drv_device_attr drv CU_DEVICE_ATTRIBUTE_MAX_SHARED_MEMORY_PER_BLOCK device in
  let warp := drv_device_attr drv CU_DEVICE_ATTRIBUTE_WARP_SIZE device in
  (∀ n c, drv_rc drv n c = CUDA_SUCCESS) →
  0 ≤ static ≤ limit → limit < 2 ^ 64 →
  0 ≤ per_thread → static + per_thread * b0 < 2 ^ 64 →
  0 ≤ b0 ≤ INT_MAX → 0 < warp →
  0 ≤ nitems → nitems + b0 ≤ 2 ^ 64 →
  (Z.to_nat b0 < fuel)%nat →
  ∃ t w' o,
    pgstrom_compute_workgroup_size drv fuel function device true nitems per_thread w
    = (t, w', o) ∧
    ((∃ block,
        o = Done ((nitems + block - 1) / block, block) ∧
        warp ≤ block ≤ b0 ∧
        static + per_thread * block ≤ limit ∧
        ∀ b', block < b' ≤ b0 → limit < static + per_thread * b') ∨
     o = Raised "Expected block size is too small (%zu)").
Proof.
  intros static b0 limit warp Hok Hstatic Hlimit Hpt Hprod Hb0 Hwarp Hn Hnb Hfuel.
  assert (∀ b, 0 ≤ b ≤ b0 →
            shmem_exceeds static per_thread limit b
            = (limit <? static + per_thread * b)) as Hex.
  { intros b Hb. unfold shmem_exceeds. unfold INT_MAX in Hb0.
    assert (0 ≤ per_thread * b ≤ per_thread * b0) by nia.
    rewrite (to_size_t_id limit), (to_size_t_id static), (to_size_t_id b) by lia.
    by rewrite (to_size_t_id (per_thread * b)), to_size_t_id by lia. }
  unfold pgstrom_compute_workgroup_size, cuFuncGetAttribute, cuDeviceGetAttribute.
  do 4 (rewrite !run_assoc, run_cuda, Hok; simpl when;
        rewrite run_assoc, run_ret, run_ret;
        apply (prefix_shape _ _ (λ w' o, _));
        cbn [cuda_clock set_cuda_clock]).
  fold static b0 limit warp.
  match goal with
  | |- context [(shrink_block_size _ ?e _ ≫= _) ?w1] =>
      destruct (shrink_block_size_fits e
                  ltac:(rewrite Hex by lia; apply Z.ltb_ge; lia)
                  fuel b0 w1 Hb0 Hfuel)
        as (b & E & Hb & Hfit & Hmax)
  end.
  erewrite run_bind by exact E. rewrite prefix_nil.
  rewrite Hex in Hfit by done. apply Z.ltb_ge in Hfit.
  destruct (bool_decide_reflect (b < warp)) as [Hsmall|Hsmall]; simpl when.
  { rewrite run_elog_error. do 3 eexists. split; [reflexivity|]. by right. }
  rewrite run_ret, (to_size_t_id b) by (unfold INT_MAX in *; lia).
  rewrite bool_decide_eq_false_2 by lia.
  rewrite to_size_t_id by lia.
  do 3 eexists. split; [reflexivity|]. left. exists b. split_and!; [done|lia..|].
  intros b' Hb'. specialize (Hmax b' Hb'). rewrite Hex in Hmax by lia.
  by apply Z.ltb_lt.
Qed.

(** ** Device introspection *)

(** C10: the rows after the two special rows read [catalog[aindex]], so the
    last two rows of every device read past the 42 entries of the catalog,
    and the first two entries are never shown. *)
Theorem device_info_reads_past_catalog :
  length catalog = 42%nat ∧
  (pgstrom_device_info example_driver 2 ready_world).2
  = Done (Some (0, "Maximum block dimension Y", "1")) ∧
  catalog !! 0%nat
  = Some (CU_DEVICE_ATTRIBUTE_MAX_THREADS_PER_BLOCK, "max threads per block",
          DEVATTR_INT) ∧
  catalog !! 42%nat = None ∧
  (pgstrom_device_info example_driver 42 ready_world).2 = Undef ∧
  (pgstrom_device_info example_driver 43 ready_world).2 = Undef ∧
  (pgstrom_device_info example_driver 44 ready_world).2 = Done None.
Proof. split_and!; vm_compute; reflexivity. Qed.

(** The same at every call counter whose attribute index is 42 or 43, for
    every device the function visits. *)
Lemma device_info_out_of_bounds drv w call_cntr device :
  0 ≤ cuda_num_devices w → 0 ≤ call_cntr →
  call_cntr / 44 < cuda_num_devices w →
  cuda_devices w !! Z.to_nat (call_cntr / 44) = Some device →
  42 ≤ call_cntr mod 44 →
  pgstrom_device_info drv call_cntr w = ([], w, Undef).
Proof.
  intros Hn Hc Hd Hdev Ha. unfold pgstrom_device_info.
  change (Z.of_nat (length catalog) + 2) with 44.
  rewrite run_get_world.
  rewrite (bool_decide_eq_false_2 (cuda_num_devices w < 0)) by lia. simpl when.
  rewrite run_ret, run_get_world.
  rewrite (bool_decide_eq_false_2 (cuda_num_devices w ≤ _)) by lia.
  rewrite (run_array_get _ _ device) by (try done; by apply Z.div_pos).
  rewrite !bool_decide_eq_false_2 by lia.
  unfold array_get. rewrite bool_decide_eq_true_2 by lia.
  rewrite (lookup_ge_None_2 catalog); [done|].
  change (length catalog) with 42%nat. lia.
Qed.

(** ** The invariant of the registry *)

#[global] Instance same_others_refl g : Reflexive (same_others g).
Proof. by intros w. Qed.
#[global] Instance same_others_trans g : Transitive (same_others g).
Proof.
  intros w1 w2 w3 [Ho1 H1] [Ho2 H2]. split; [congruence|].
  intros p Hp. by rewrite H2, H1.
Qed.

Section registry_invariant.
Context (drv : Driver) (crc32c : ResourceOwner → Z).

Lemma registered_lookup g w :
  registered g w ↔ ∃ i chain, gcontext_hash w !! i = Some chain ∧ g ∈ chain.
Proof.
  unfold registered. split.
  - intros (chain & [i Hi]%list_elem_of_lookup_1 & Hg). eauto.
  - intros (i & chain & Hi & Hg). exists chain. split; [|done].
    by eapply list_elem_of_lookup_2.
Qed.

Lemma registry_inv_registered g w :
  registry_inv crc32c w → registered g w →
  ∃ gc chain, contexts w !! g = Some gc ∧ 1 ≤ refcnt gc ∧
    gcontext_hash w !! Z.to_nat (gpucontext_hash_index crc32c (resowner gc)) = Some chain ∧
    g ∈ chain.
Proof.
  intros Hinv (i & chain & Hi & Hg)%registered_lookup.
  destruct (inv_chained _ _ Hinv i chain g Hi Hg) as (gc & Hgc & Hr & ->).
  eauto 10.
Qed.

Lemma gcontext_chain_find_cases owner chain w :
  (∃ g gc, gcontext_chain_find owner chain w = ([], w, Done (Some g)) ∧
           g ∈ chain ∧ contexts w !! g = Some gc ∧ resowner gc = owner) ∨
  (gcontext_chain_find owner chain w = ([], w, Done None) ∧
   Forall (λ g, is_Some (contexts w !! g)) chain ∧
   Forall (λ g, owner_of w g ≠ Some owner) chain) ∨
  (gcontext_chain_find owner chain w = ([], w, Undef) ∧
   ∃ g, g ∈ chain ∧ contexts w !! g = None).
Proof.
  induction chain as [|g chain IH]; simpl.
  - right; left. by repeat constructor.
  - unfold mbind, M_bind, deref_gcontext.
    destruct (contexts w !! g) as [gc|] eqn:Eg;
      [|right; right; split; [done|exists g; split; [by left|done]]].
    case_bool_decide as Ho.
    + left. exists g, gc. split_and!; [done|by left|done..].
    + destruct IH as [(g' & gc' & -> & Hin & Hgc' & Hown)
                      |[(-> & Hv & Hu)|(-> & g' & Hin & Hg')]].
      * left. exists g', gc'. split_and!; [done|by right|done..].
      * right; left. split_and!; [done|..].
        -- constructor; [by rewrite Eg|done].
        -- constructor; [|done]. unfold owner_of. rewrite Eg. simpl. congruence.
      * right; right. split; [done|]. exists g'. split; [by right|done].
Qed.

Lemma gcontext_last_matches_cases owner w :
  (∃ g gc, gcontext_last_matches owner w = ([], w, Done (Some g)) ∧
           gcontext_last w = Some g ∧ contexts w !! g = Some gc ∧
           resowner gc = owner) ∨
  (gcontext_last_matches owner w = ([], w, Done None) ∧
   ∀ g, gcontext_last w = Some g →
        is_Some (contexts w !! g) ∧ owner_of w g ≠ Some owner) ∨
  (gcontext_last_matches owner w = ([], w, Undef) ∧
   ∃ g, gcontext_last w = Some g ∧ contexts w !! g = None).
Proof.
  unfold gcontext_last_matches. rewrite run_get_world.
  destruct (gcontext_last w) as [g|]; [|by right; left].
  unfold mbind, M_bind, deref_gcontext.
  destruct (contexts w !! g) as [gc|] eqn:Eg; [|right; right; eauto].
  case_bool_decide as Ho.
  - left. by exists g, gc.
  - right; left. split; [done|]. intros ? [= <-]. rewrite Eg. split; [done|].
    unfold owner_of. rewrite Eg. simpl. congruence.
Qed.

Lemma gcontext_incref_run g gc w :
  contexts w !! g = Some gc →
  gcontext_incref g w
  = if bool_decide (INT_MIN ≤ refcnt gc + 1 ≤ INT_MAX)
    then ([], set_contexts (<[g := gc_set_refcnt (refcnt gc + 1) gc]> (contexts w)) w,
          Done tt)
    else ([], w, Undef).
Proof.
  intros Hgc. unfold gcontext_incref.
  rewrite (run_deref_gcontext _ gc) by done.
  unfold int_result. case_bool_decide; [|done].
  rewrite run_ret. unfold update_gcontext.
  by rewrite (run_deref_gcontext _ gc) by done.
Qed.

Lemma registry_inv_ext w w' :
  contexts w' = contexts w → gcontext_hash w' = gcontext_hash w →
  gcontext_last w' = gcontext_last w →
  registry_inv crc32c w → registry_inv crc32c w'.
Proof.
  intros Hc Hh Hl [H1 H2 H3 H4 H5].
  split; unfold registered in *; rewrite ?Hc, ?Hh, ?Hl; done.
Qed.

Lemma registry_inv_update g gc gc' w :
  registry_inv crc32c w → contexts w !! g = Some gc →
  resowner gc' = resowner gc → (registered g w → 1 ≤ refcnt gc') →
  registry_inv crc32c (set_contexts (<[g := gc']> (contexts w)) w).
Proof.
  intros [H1 H2 H3 H4 H5] Hgc Hown Href. split; simpl; try done.
  - intros i chain p Hi Hp.
    destruct (H2 i chain p Hi Hp) as (gcp & Hgcp & Hr & Hidx).
    destruct (decide (p = g)) as [->|Hne].
    + exists gc'. rewrite lookup_insert_eq. split_and!; [done| |].
      * apply Href. apply registered_lookup. eauto.
      * rewrite Hown. congruence.
    + exists gcp. by rewrite lookup_insert_ne.
  - intros g1 g2 gc1 gc2 Hr1 Hr2 Hg1 Hg2 Ho.
    assert (∀ p gcp, contexts (set_contexts (<[g := gc']> (contexts w)) w) !! p = Some gcp →
              ∃ gcp', contexts w !! p = Some gcp' ∧ resowner gcp' = resowner gcp) as Hback.
    { intros p gcp. simpl. destruct (decide (p = g)) as [->|Hne].
      - rewrite lookup_insert_eq. intros [= <-]. eauto.
      - rewrite lookup_insert_ne by done. eauto. }
    apply Hback in Hg1 as (gc1' & Hg1 & Ho1). apply Hback in Hg2 as (gc2' & Hg2 & Ho2).
    eapply (H4 g1 g2); [done..|congruence].
Qed.

Lemma registry_inv_remove g w w2 :
  registry_inv crc32c w →
  gcontext_hash w2 = dlist_delete g <$> gcontext_hash w →
  gcontext_last w2 = (if bool_decide (gcontext_last w = Some g)
                      then None else gcontext_last w) →
  (∀ p, p ≠ g → contexts w2 !! p = contexts w !! p) →
  registry_inv crc32c w2.
Proof.
  intros [H1 H2 H3 H4 H5] Hh Hl Hc.
  assert (∀ p, registered p w2 → registered p w ∧ p ≠ g) as Hreg.
  { intros p (i & chain & Hi & Hp)%registered_lookup. rewrite Hh in Hi.
    rewrite list_lookup_fmap in Hi.
    destruct (gcontext_hash w !! i) as [chain0|] eqn:E0; [|done].
    injection Hi as <-. unfold dlist_delete in Hp.
    apply list_elem_of_filter in Hp as [Hne Hp].
    split; [|done]. apply registered_lookup. eauto. }
  split.
  - by rewrite Hh, length_fmap.
  - intros i chain p Hi Hp. rewrite Hh, list_lookup_fmap in Hi.
    destruct (gcontext_hash w !! i) as [chain0|] eqn:E0; [|done].
    injection Hi as <-. unfold dlist_delete in Hp.
    apply list_elem_of_filter in Hp as [Hne Hp].
    rewrite Hc by done. eauto.
  - intros i chain Hi. rewrite Hh, list_lookup_fmap in Hi.
    destruct (gcontext_hash w !! i) as [chain0|] eqn:E0; [|done].
    injection Hi as <-. apply NoDup_filter. eauto.
  - intros g1 g2 gc1 gc2 [Hr1 Hn1]%Hreg [Hr2 Hn2]%Hreg.
    rewrite !Hc by done. eauto.
  - intros p Hp. rewrite Hl in Hp. case_bool_decide as Hg; [done|].
    assert (p ≠ g) as Hne by congruence.
    specialize (H5 p Hp). apply registered_lookup in H5 as (i & chain & Hi & Hin).
    apply registered_lookup. exists i, (dlist_delete g chain). split.
    + by rewrite Hh, list_lookup_fmap, Hi.
    + unfold dlist_delete. by apply list_elem_of_filter.
Qed.

Lemma registry_inv_insert g gc chain w wc :
  registry_inv crc32c w →
  contexts w !! g = None → contexts wc !! g = Some gc → 1 ≤ refcnt gc →
  (∀ p, p ≠ g → contexts wc !! p = contexts w !! p) →
  gcontext_hash wc = gcontext_hash w → gcontext_last wc = gcontext_last w →
  gcontext_hash w !! Z.to_nat (gpucontext_hash_index crc32c (resowner gc)) = Some chain →
  Forall (λ p, owner_of w p ≠ Some (resowner gc)) chain →
  registry_inv crc32c
    (set_gcontext_hash
       (<[Z.to_nat (gpucontext_hash_index crc32c (resowner gc)) := chain ++ [g]]>
          (gcontext_hash wc)) wc).
Proof.
  intros Hinv Hnew Hgc Hr Hc Hh Hl Hch Hu. pose proof Hinv as [H1 H2 H3 H4 H5].
  set (idx := Z.to_nat (gpucontext_hash_index crc32c (resowner gc))) in *.
  assert (∀ p, registered p w → p ≠ g) as Hold.
  { intros p (gcp & _ & Hp & _)%registry_inv_registered; [|done]. congruence. }
  assert (∀ p, registered p (set_gcontext_hash (<[idx := chain ++ [g]]> (gcontext_hash wc)) wc) →
               p = g ∨ registered p w) as Hreg.
  { intros p (i & c & Hi & Hp)%registered_lookup. simpl in Hi. rewrite Hh in Hi.
    destruct (decide (i = idx)) as [->|Hne].
    - rewrite list_lookup_insert_eq in Hi by by eapply lookup_lt_Some.
      injection Hi as <-. apply elem_of_app in Hp as [Hp|Hp].
      + right. apply registered_lookup. eauto.
      + left. by apply list_elem_of_singleton in Hp.
    - rewrite list_lookup_insert_ne in Hi by done.
      right. apply registered_lookup. eauto. }
  split; simpl.
  - by rewrite length_insert, Hh.
  - intros i c p Hi Hp. rewrite Hh in Hi.
    destruct (decide (i = idx)) as [->|Hne].
    + rewrite list_lookup_insert_eq in Hi by by eapply lookup_lt_Some.
      injection Hi as <-. apply elem_of_app in Hp as [Hp|Hp].
      * destruct (H2 idx chain p Hch Hp) as (gcp & Hgcp & ?).
        exists gcp. rewrite Hc; [done|]. congruence.
      * apply list_elem_of_singleton in Hp as ->. eauto.
    + rewrite list_lookup_insert_ne in Hi by done.
      destruct (H2 i c p Hi Hp) as (gcp & Hgcp & ?).
      exists gcp. rewrite Hc; [done|]. congruence.
  - intros i c Hi. rewrite Hh in Hi.
    destruct (decide (i = idx)) as [->|Hne].
    + rewrite list_lookup_insert_eq in Hi by by eapply lookup_lt_Some.
      injection Hi as <-. apply NoDup_app. split_and!; [by eapply H3| |apply NoDup_singleton].
      intros p Hp ->%list_elem_of_singleton.
      destruct (H2 idx chain g Hch Hp) as (gcp & Hgcp & _). congruence.
    + rewrite list_lookup_insert_ne in Hi by done. eauto.
  - assert (∀ p gcp, registered p w → contexts w !! p = Some gcp →
                     resowner gcp = resowner gc → False) as Hclash.
    { intros p gcp Hp Hgcp Ho.
      destruct (registry_inv_registered p w Hinv Hp) as (gcp' & c & Hgcp' & _ & Hc' & Hin).
      assert (gcp' = gcp) as -> by congruence.
      rewrite Ho in Hc'. fold idx in Hc'. rewrite Hch in Hc'. injection Hc' as <-.
      rewrite Forall_forall in Hu. apply (Hu p Hin).
      unfold owner_of. rewrite Hgcp. simpl. by rewrite Ho. }
    intros g1 g2 gc1 gc2 [->|Hr1]%Hreg [->|Hr2]%Hreg Hg1 Hg2 Ho; [done|..].
    + exfalso. rewrite Hgc in Hg1. injection Hg1 as <-.
      rewrite Hc in Hg2 by by apply Hold. by eapply (Hclash g2 gc2).
    + exfalso. rewrite Hgc in Hg2. injection Hg2 as <-.
      rewrite Hc in Hg1 by by apply Hold. by eapply (Hclash g1 gc1).
    + rewrite Hc in Hg1, Hg2 by by apply Hold. eauto.
  - intros p Hp. rewrite Hl in Hp. specialize (H5 p Hp).
    apply registered_lookup in H5 as (i & c & Hi & Hin).
    apply registered_lookup. simpl. rewrite Hh.
    destruct (decide (i = idx)) as [->|Hne].
    + exists idx, (chain ++ [g]). split.
      * apply list_lookup_insert_eq. by eapply lookup_lt_Some.
      * rewrite Hch in Hi. injection Hi as <-. set_solver.
    + exists i, c. by rewrite list_lookup_insert_ne.
Qed.

#[global] Instance extends_refl : Reflexive extends.
Proof. by intros w. Qed.
#[global] Instance extends_trans : Transitive extends.
Proof.
  intros w1 w2 w3 (?&?&?&H12) (?&?&?&H23). split_and!; try congruence. eauto.
Qed.

Lemma same_registry_extends w w' : same_registry w w' → extends w w'.
Proof. intros (Hc & Hh & Hl & Ho). split_and!; try done. intros p gc. by rewrite Hc. Qed.

Lemma pgstrom_create_gpucontext_extends owner :
  post (keeps extends) (pgstrom_create_gpucontext drv owner).
Proof.
  unfold pgstrom_create_gpucontext.
  apply post_bind; try apply _; [apply post_get_world; apply _|]. intros w0.
  apply post_bind; try apply _.
  { apply post_when; try apply _. eapply post_weaken;
      [apply pgstrom_init_cuda_same_registry|]. intros w t w'. apply same_registry_extends. }
  intros _. intros w t w' o. rewrite run_get_world, run_emit, run_modify.
  simpl. intros [= <- <- <-]. unfold keeps. split_and!; try done. simpl.
  intros p gc Hp. rewrite lookup_insert_ne; [done|].
  intros <-. apply (is_fresh (dom (contexts w))). apply elem_of_dom. eauto.
Qed.

Lemma registry_inv_extends w w' :
  extends w w' → registry_inv crc32c w → registry_inv crc32c w'.
Proof.
  intros (Hh & Hl & _ & Hc) Hinv. pose proof Hinv as [H1 H2 H3 H4 H5].
  assert (∀ p, registered p w' → registered p w) as Hreg.
  { intros p. unfold registered. by rewrite Hh. }
  assert (∀ p gc, registered p w → contexts w' !! p = Some gc →
                  contexts w !! p = Some gc) as Hback.
  { intros p gc (gc0 & _ & Hp & _)%registry_inv_registered Hp'; [|done].
    rewrite (Hc _ _ Hp) in Hp'. congruence. }
  split.
  - by rewrite Hh.
  - intros i chain p Hi Hp. rewrite Hh in Hi.
    destruct (H2 i chain p Hi Hp) as (gc & Hgc & ?). eauto.
  - intros i chain. rewrite Hh. eauto.
  - intros g1 g2 gc1 gc2 Hr1%Hreg Hr2%Hreg Hg1 Hg2. eauto.
  - intros p. rewrite Hl. unfold registered. rewrite Hh. apply H5.
Qed.

(** The context bound to the current resource owner, when it is chained,
    is what the acquisition returns, from the slot or from the bucket. *)
Lemma pgstrom_get_gpucontext_hit g gc w :
  registry_inv crc32c w → registered g w →
  contexts w !! g = Some gc → resowner gc = CurrentResourceOwner w →
  pgstrom_get_gpucontext drv crc32c w
  = if bool_decide (refcnt gc + 1 ≤ INT_MAX)
    then ([EvSpinLockAcquire gcontext_lock; EvSpinLockRelease gcontext_lock],
          set_contexts (<[g := gc_set_refcnt (refcnt gc + 1) gc]> (contexts w)) w,
          Done g)
    else ([EvSpinLockAcquire gcontext_lock], w, Undef).
Proof.
  intros Hinv Hreg Hgc Hown.
  destruct (registry_inv_registered g w Hinv Hreg) as (gc0 & chain & Hgc0 & Hr & Hch & Hin).
  assert (gc0 = gc) as -> by congruence. rewrite Hown in Hch.
  assert (∀ g' gc', registered g' w → contexts w !! g' = Some gc' →
                    resowner gc' = CurrentResourceOwner w → g' = g) as Huniq.
  { intros g' gc' Hreg' Hgc' Hown'. eapply (inv_owner _ _ Hinv); [done..|congruence]. }
  assert ((gcontext_incref g ≫= λ _, SpinLockRelease gcontext_lock ≫= λ _, mret g) w
          = if bool_decide (refcnt gc + 1 ≤ INT_MAX)
            then ([EvSpinLockRelease gcontext_lock],
                  set_contexts (<[g := gc_set_refcnt (refcnt gc + 1) gc]> (contexts w)) w,
                  Done g)
            else ([], w, Undef)) as Hinc.
  { unfold mbind at 1, M_bind at 1. rewrite (gcontext_incref_run g gc) by done.
    destruct (bool_decide_reflect (refcnt gc + 1 ≤ INT_MAX)).
    - by rewrite bool_decide_eq_true_2 by (unfold INT_MIN; lia).
    - by rewrite bool_decide_eq_false_2 by lia. }
  unfold pgstrom_get_gpucontext. unfold SpinLockAcquire at 1.
  rewrite run_emit, run_get_world.
  destruct (gcontext_last_matches_cases (CurrentResourceOwner w) w)
    as [(g' & gc' & E & Hl & Hgc' & Hown')|[(E & Hl)|(E & g' & Hl & Hnone)]].
  - erewrite run_bind by exact E. rewrite prefix_nil.
    assert (g' = g) as -> by (eapply Huniq; [by eapply inv_last|done..]).
    rewrite Hinc. by case_bool_decide.
  - erewrite run_bind by exact E. rewrite prefix_nil.
    rewrite (run_array_get _ _ chain);
      [|apply gpucontext_hash_index_range|done].
    destruct (gcontext_chain_find_cases (CurrentResourceOwner w) chain w)
      as [(g' & gc' & E' & Hin' & Hgc' & Hown')|[(E' & Hv & Hu)|(E' & g' & Hin' & Hnone)]].
    + erewrite run_bind by exact E'. rewrite prefix_nil.
      assert (g' = g) as ->.
      { eapply Huniq; [|done..]. apply registered_lookup. eauto. }
      rewrite Hinc. by case_bool_decide.
    + exfalso. rewrite Forall_forall in Hu. apply (Hu g Hin).
      unfold owner_of. by rewrite Hgc, <- Hown.
    + exfalso. destruct (inv_chained _ _ Hinv _ _ _ Hch Hin') as (? & ? & _). congruence.
  - exfalso. apply (inv_last _ _ Hinv) in Hl.
    apply registry_inv_registered in Hl as (? & ? & ? & _); [|done]. congruence.
Qed.

(** The acquisition under a resource owner that has no chained context. *)
Lemma pgstrom_get_gpucontext_run_miss w :
  registry_inv crc32c w →
  (∀ g gc, registered g w → contexts w !! g = Some gc →
           resowner gc ≠ CurrentResourceOwner w) →
  ∃ chain,
    gcontext_hash w !! Z.to_nat (gpucontext_hash_index crc32c (CurrentResourceOwner w))
    = Some chain ∧
    Forall (λ p, owner_of w p ≠ Some (CurrentResourceOwner w)) chain ∧
    pgstrom_get_gpucontext drv crc32c w
    = prefix [EvSpinLockAcquire gcontext_lock]
        ((gcontext ← pgstrom_create_gpucontext drv (CurrentResourceOwner w);
          modify (λ w', set_gcontext_hash
                    (<[Z.to_nat (gpucontext_hash_index crc32c (CurrentResourceOwner w))
                       := chain ++ [gcontext]]> (gcontext_hash w')) w') ;;
          SpinLockRelease gcontext_lock ;;
          mret gcontext) w).
Proof.
  intros Hinv Hnone.
  destruct (lookup_lt_is_Some_2 (gcontext_hash w)
              (Z.to_nat (gpucontext_hash_index crc32c (CurrentResourceOwner w))))
    as [chain Hch].
  { rewrite (inv_buckets _ _ Hinv).
    pose proof (gpucontext_hash_index_range crc32c (CurrentResourceOwner w)). lia. }
  assert (∀ p, registered p w →
               is_Some (contexts w !! p) ∧ owner_of w p ≠ Some (CurrentResourceOwner w))
    as Hother.
  { intros p Hp.
    destruct (registry_inv_registered p w Hinv Hp) as (gc & _ & Hgc & _).
    split; [by rewrite Hgc|]. unfold owner_of. rewrite Hgc. simpl.
    intros [= Ho]. by eapply Hnone. }
  assert (Forall (λ p, is_Some (contexts w !! p)) chain ∧
          Forall (λ p, owner_of w p ≠ Some (CurrentResourceOwner w)) chain) as [Hv Hu].
  { rewrite !Forall_forall. split; intros p Hp; apply Hother, registered_lookup; eauto. }
  exists chain. split; [done|]. split; [done|].
  unfold pgstrom_get_gpucontext. unfold SpinLockAcquire at 1.
  rewrite run_emit, run_get_world. f_equal.
  erewrite run_bind; last first.
  { apply gcontext_last_matches_none. unfold last_unbound.
    destruct (gcontext_last w) as [l|] eqn:El; [|done].
    apply Hother. by apply (inv_last _ _ Hinv). }
  rewrite prefix_nil.
  rewrite (run_array_get _ _ chain);
    [|apply gpucontext_hash_index_range|done].
  erewrite run_bind by by apply gcontext_chain_find_none.
  by rewrite prefix_nil.
Qed.

Lemma registry_inv_owner_dec w :
  registry_inv crc32c w →
  (∃ g gc, registered g w ∧ contexts w !! g = Some gc ∧
           resowner gc = CurrentResourceOwner w) ∨
  (∀ g gc, registered g w → contexts w !! g = Some gc →
           resowner gc ≠ CurrentResourceOwner w).
Proof.
  intros Hinv.
  destruct (lookup_lt_is_Some_2 (gcontext_hash w)
              (Z.to_nat (gpucontext_hash_index crc32c (CurrentResourceOwner w))))
    as [chain Hch].
  { rewrite (inv_buckets _ _ Hinv).
    pose proof (gpucontext_hash_index_range crc32c (CurrentResourceOwner w)). lia. }
  destruct (gcontext_chain_find_cases (CurrentResourceOwner w) chain w)
    as [(g & gc & _ & Hin & Hgc & Hown)|[(_ & Hv & Hu)|(_ & g & Hin & Hnone)]].
  - left. exists g, gc. split; [|done]. apply registered_lookup. eauto.
  - right. intros g gc Hreg Hgc Hown.
    destruct (registry_inv_registered g w Hinv Hreg) as (gc0 & c & Hgc0 & _ & Hc & Hin).
    assert (gc0 = gc) as -> by congruence.
    rewrite Hown, Hch in Hc. injection Hc as <-.
    rewrite Forall_forall in Hu. apply (Hu g Hin).
    unfold owner_of. by rewrite Hgc, <- Hown.
  - exfalso. destruct (inv_chained _ _ Hinv _ _ _ Hch Hin) as (? & ? & _). congruence.
Qed.

Lemma pgstrom_get_gpucontext_inv w t w' o :
  registry_inv crc32c w →
  pgstrom_get_gpucontext drv crc32c w = (t, w', o) →
  registry_inv crc32c w' ∧ CurrentResourceOwner w' = CurrentResourceOwner w ∧
  ∀ g, o = Done g →
    registered g w' ∧
    ∃ gc, contexts w' !! g = Some gc ∧ resowner gc = CurrentResourceOwner w ∧
          refcnt gc = match contexts w !! g with
                      | Some gc0 => refcnt gc0 + 1
                      | None => 1
                      end.
Proof.
  intros Hinv.
  destruct (registry_inv_owner_dec w Hinv) as [(g & gc & Hreg & Hgc & Hown)|Hnone].
  - rewrite (pgstrom_get_gpucontext_hit g gc) by done.
    destruct (registry_inv_registered g w Hinv Hreg) as (gc0 & c & Hgc0 & Hr & _).
    assert (gc0 = gc) as -> by congruence.
    case_bool_decide; intros [= <- <- <-]; [|done].
    split_and!; [by apply (registry_inv_update g gc); [..|simpl; lia]|done|].
    intros ? [= <-]. split; [done|]. simpl.
    eexists. rewrite lookup_insert_eq, Hgc. done.
  - destruct (pgstrom_get_gpucontext_run_miss w Hinv Hnone) as (chain & Hch & Hu & ->).
    destruct (pgstrom_create_gpucontext drv (CurrentResourceOwner w) w)
      as [[tc wc] oc] eqn:Ec.
    pose proof (pgstrom_create_gpucontext_extends _ _ _ _ _ Ec) as Hext.
    destruct oc as [g| | |].
    + erewrite run_bind by exact Ec.
      rewrite run_modify. unfold SpinLockRelease. rewrite run_emit, !prefix_prefix.
      simpl. intros [= <- <- <-].
      apply pgstrom_create_gpucontext_done in Ec as (Hfresh & Hg & Hrest & Hh & Hl & Ho).
      assert (contexts w !! g = None) as Hnew.
      { apply not_elem_of_dom. rewrite Hfresh. apply is_fresh. }
      split_and!.
      * pose proof (registry_inv_insert g _ chain w wc Hinv Hnew Hg) as Hins.
        simpl in Hins. by apply Hins.
      * done.
      * intros ? [= <-]. split.
        -- apply registered_lookup. simpl. rewrite Hh.
           eexists _, (chain ++ [g]). split.
           ++ apply list_lookup_insert_eq. by eapply lookup_lt_Some.
           ++ set_solver.
        -- simpl. eexists. split; [exact Hg|]. by rewrite Hnew.
    + unfold mbind, M_bind. rewrite Ec. simpl. intros [= <- <- <-].
      pose proof Hext as (? & ? & ? & ?).
      split_and!; [eapply registry_inv_extends; [exact Hext|done]|done|done].
    + unfold mbind, M_bind. rewrite Ec. simpl. intros [= <- <- <-].
      pose proof Hext as (? & ? & ? & ?).
      split_and!; [eapply registry_inv_extends; [exact Hext|done]|done|done].
    + unfold mbind, M_bind. rewrite Ec. simpl. intros [= <- <- <-].
      pose proof Hext as (? & ? & ? & ?).
      split_and!; [eapply registry_inv_extends; [exact Hext|done]|done|done].
Qed.

Lemma pgstrom_release_gpucontext_same_others g is_commit :
  post (keeps (same_others g)) (pgstrom_release_gpucontext drv g is_commit).
Proof.
  unfold pgstrom_release_gpucontext, pgstrom_sync_gpucontext,
    destroy_dev_contexts, release_taskstate, release_data_store, release_task,
    update_gcontext, update_gts.
  post_auto ltac:(unfold keeps; split; [done|]; intros p Hp; simpl;
                  by rewrite ?lookup_insert_ne, ?lookup_delete_ne).
Qed.

Lemma pgstrom_put_gpucontext_decrement g gc w :
  contexts w !! g = Some gc → INT_MIN ≤ refcnt gc - 1 ≤ INT_MAX → refcnt gc ≠ 1 →
  pgstrom_put_gpucontext drv g w
  = ([EvSpinLockAcquire gcontext_lock; EvSpinLockRelease gcontext_lock],
     set_contexts (<[g := gc_set_refcnt (refcnt gc - 1) gc]> (contexts w)) w,
     Done tt).
Proof.
  intros Hgc Hr Hne.
  unfold pgstrom_put_gpucontext, SpinLockAcquire, SpinLockRelease.
  rewrite run_emit, (run_deref_gcontext _ gc) by done.
  rewrite run_int_result by done.
  rewrite (run_update_gcontext _ gc) by done.
  rewrite bool_decide_eq_false_2 by lia. reflexivity.
Qed.

Lemma unchained_spec g w :
  gcontext_hash (unchained g w) = dlist_delete g <$> gcontext_hash w ∧
  gcontext_last (unchained g w)
  = (if bool_decide (gcontext_last w = Some g) then None else gcontext_last w) ∧
  contexts (unchained g w) = contexts w ∧
  taskstates (unchained g w) = taskstates w ∧
  tasks (unchained g w) = tasks w ∧
  cuda_clock (unchained g w) = cuda_clock w ∧
  CurrentResourceOwner (unchained g w) = CurrentResourceOwner w.
Proof. unfold unchained. simpl. by case_bool_decide. Qed.

Lemma pgstrom_put_gpucontext_unchain g gc w :
  contexts w !! g = Some gc → refcnt gc = 1 →
  pgstrom_put_gpucontext drv g w
  = prefix [EvSpinLockAcquire gcontext_lock; EvSpinLockRelease gcontext_lock]
      (pgstrom_release_gpucontext drv g true
         (unchained g (set_contexts (<[g := gc_set_refcnt 0 gc]> (contexts w)) w))).
Proof.
  intros Hgc Hrc.
  unfold pgstrom_put_gpucontext, SpinLockAcquire, SpinLockRelease.
  rewrite run_emit, (run_deref_gcontext _ gc) by done.
  rewrite Hrc, run_int_result by done.
  rewrite (run_update_gcontext _ gc) by done.
  simpl. unfold gcontext_unregister. rewrite run_modify, run_emit.
  by rewrite prefix_prefix.
Qed.

Lemma registry_inv_teardown g w w2 t w' o is_commit :
  registry_inv crc32c w →
  gcontext_hash w2 = dlist_delete g <$> gcontext_hash w →
  gcontext_last w2 = (if bool_decide (gcontext_last w = Some g)
                      then None else gcontext_last w) →
  (∀ p, p ≠ g → contexts w2 !! p = contexts w !! p) →
  pgstrom_release_gpucontext drv g is_commit w2 = (t, w', o) →
  registry_inv crc32c w' ∧ CurrentResourceOwner w' = CurrentResourceOwner w2 ∧
  ∀ p, registered p w' →
       p ≠ g ∧ registered p w ∧ contexts w' !! p = contexts w !! p.
Proof.
  intros Hinv Hh Hl Hc E.
  pose proof (pgstrom_release_gpucontext_same_table drv g _ _ _ _ _ E) as [Hh3 Hl3].
  pose proof (pgstrom_release_gpucontext_same_others g _ _ _ _ _ E) as [Ho3 Hc3].
  split_and!; [|done|].
  - apply (registry_inv_remove g w); [done|congruence|congruence|].
    intros p Hp. by rewrite Hc3, Hc.
  - intros p (i & chain & Hi & Hp)%registered_lookup.
    rewrite Hh3, Hh, list_lookup_fmap in Hi.
    destruct (gcontext_hash w !! i) as [chain0|] eqn:E0; [|done].
    injection Hi as <-. unfold dlist_delete in Hp.
    apply list_elem_of_filter in Hp as [Hne Hp].
    split_and!; [done| |by rewrite Hc3, Hc]. apply registered_lookup. eauto.
Qed.

Lemma pgstrom_put_gpucontext_inv g w t w' o :
  registry_inv crc32c w →
  pgstrom_put_gpucontext drv g w = (t, w', o) →
  registry_inv crc32c w' ∧ CurrentResourceOwner w' = CurrentResourceOwner w.
Proof.
  intros Hinv.
  destruct (contexts w !! g) as [gc|] eqn:Hgc; last first.
  { unfold pgstrom_put_gpucontext, SpinLockAcquire. rewrite run_emit.
    unfold mbind, M_bind, deref_gcontext. rewrite Hgc. simpl.
    by intros [= <- <- <-]. }
  destruct (bool_decide_reflect (INT_MIN ≤ refcnt gc - 1 ≤ INT_MAX)) as [Hr|Hr]; last first.
  { unfold pgstrom_put_gpucontext, SpinLockAcquire.
    rewrite run_emit, (run_deref_gcontext _ gc) by done.
    unfold int_result. rewrite bool_decide_eq_false_2 by done.
    simpl. by intros [= <- <- <-]. }
  destruct (decide (refcnt gc = 1)) as [H1|H1].
  - rewrite (pgstrom_put_gpucontext_unchain g gc) by done.
    destruct (unchained_spec g (set_contexts (<[g := gc_set_refcnt 0 gc]> (contexts w)) w))
      as (Hh2 & Hl2 & Hc2 & _ & _ & _ & Ho2).
    revert Hh2 Hl2 Hc2 Ho2. generalize (unchained g
      (set_contexts (<[g := gc_set_refcnt 0 gc]> (contexts w)) w)).
    simpl. intros w2 Hh2 Hl2 Hc2 Ho2.
    destruct (pgstrom_release_gpucontext drv g true w2) as [[t2 w3] o2] eqn:E2.
    simpl. intros [= <- <- <-].
    assert (∀ p, p ≠ g → contexts w2 !! p = contexts w !! p) as Hc2'.
    { intros p Hp. rewrite Hc2. by rewrite lookup_insert_ne. }
    destruct (registry_inv_teardown g w w2 _ _ _ _ Hinv Hh2 Hl2 Hc2' E2)
      as (Hinv3 & Ho3 & _).
    split; [done|]. by rewrite Ho3, Ho2.
  - rewrite (pgstrom_put_gpucontext_decrement g gc) by done.
    intros [= <- <- <-]. split; [|done].
    apply (registry_inv_update g gc); [done..|].
    intros (gc0 & _ & Hgc0 & ? & _)%registry_inv_registered; [|done].
    assert (gc0 = gc) as -> by congruence. simpl. lia.
Qed.

Lemma gpucontext_cleanup_callback_found g gc is_commit is_toplevel w :
  registry_inv crc32c w → registered g w →
  contexts w !! g = Some gc → resowner gc = CurrentResourceOwner w →
  gpucontext_cleanup_callback drv crc32c RESOURCE_RELEASE_AFTER_LOCKS
    is_commit is_toplevel w
  = prefix ([EvSpinLockAcquire gcontext_lock; EvSpinLockRelease gcontext_lock]
            ++ if is_commit
               then [EvElog WARNING "Probably, someone forgot to put GpuContext"]
               else [])
      (pgstrom_release_gpucontext drv g is_commit (unchained g w)).
Proof.
  intros Hinv Hreg Hgc Hown.
  destruct (registry_inv_registered g w Hinv Hreg) as (gc0 & chain & Hgc0 & Hr & Hch & Hin).
  assert (gc0 = gc) as -> by congruence. rewrite Hown in Hch.
  unfold gpucontext_cleanup_callback. rewrite run_get_world.
  rewrite bool_decide_eq_true_2 by done. cbn [negb].
  unfold SpinLockAcquire, SpinLockRelease. rewrite run_emit.
  rewrite (run_array_get _ _ chain); [|apply gpucontext_hash_index_range|done].
  destruct (gcontext_chain_find_cases (CurrentResourceOwner w) chain w)
    as [(g' & gc' & E' & Hin' & Hgc' & Hown')|[(E' & Hv & Hu)|(E' & g' & Hin' & Hnone)]].
  - erewrite run_bind by exact E'. rewrite prefix_nil.
    assert (g' = g) as ->.
    { eapply (inv_owner _ _ Hinv); [|done..|congruence]. apply registered_lookup. eauto. }
    unfold gcontext_unregister. rewrite run_modify, run_emit, prefix_prefix.
    fold (unchained g w). destruct is_commit; simpl when.
    + rewrite run_elog by done. by rewrite prefix_prefix.
    + by rewrite run_ret.
  - exfalso. rewrite Forall_forall in Hu. apply (Hu g Hin).
    unfold owner_of. by rewrite Hgc, <- Hown.
  - exfalso. destruct (inv_chained _ _ Hinv _ _ _ Hch Hin') as (? & ? & _). congruence.
Qed.

Lemma gpucontext_cleanup_callback_none phase is_commit is_toplevel w :
  registry_inv crc32c w →
  (∀ g gc, registered g w → contexts w !! g = Some gc →
           resowner gc ≠ CurrentResourceOwner w) →
  gpucontext_cleanup_callback drv crc32c phase is_commit is_toplevel w
  = (if bool_decide (phase = RESOURCE_RELEASE_AFTER_LOCKS)
     then [EvSpinLockAcquire gcontext_lock; EvSpinLockRelease gcontext_lock]
     else [], w, Done tt).
Proof.
  intros Hinv Hnone.
  unfold gpucontext_cleanup_callback. rewrite run_get_world.
  case_bool_decide; cbn [negb]; [|done].
  destruct (lookup_lt_is_Some_2 (gcontext_hash w)
              (Z.to_nat (gpucontext_hash_index crc32c (CurrentResourceOwner w))))
    as [chain Hch].
  { rewrite (inv_buckets _ _ Hinv).
    pose proof (gpucontext_hash_index_range crc32c (CurrentResourceOwner w)). lia. }
  unfold SpinLockAcquire, SpinLockRelease. rewrite run_emit.
  rewrite (run_array_get _ _ chain); [|apply gpucontext_hash_index_range|done].
  erewrite run_bind; last first.
  { apply gcontext_chain_find_none; apply Forall_forall; intros p Hp;
      (destruct (registry_inv_registered p w Hinv) as (gcp & _ & Hgcp & _);
       [apply registered_lookup; eauto|]).
    - by rewrite Hgcp.
    - unfold owner_of. rewrite Hgcp. simpl. intros [= Ho]. eapply Hnone; [|done..].
      apply registered_lookup; eauto. }
  reflexivity.
Qed.

Lemma registry_inv_empty w :
  gcontext_hash w = replicate (Z.to_nat gcontext_hash_size) [] →
  gcontext_last w = None → registry_inv crc32c w.
Proof.
  intros Hh Hl.
  assert (∀ g, ¬ registered g w) as Hnone.
  { intros g (i & chain & Hi & Hg)%registered_lookup. rewrite Hh in Hi.
    apply lookup_replicate in Hi as [-> _]. by apply not_elem_of_nil in Hg. }
  split.
  - by rewrite Hh, length_replicate.
  - intros i chain g Hi Hg. destruct (Hnone g). apply registered_lookup. eauto.
  - intros i chain Hi. rewrite Hh in Hi. apply lookup_replicate in Hi as [-> _].
    apply NoDup_nil_2.
  - intros g1 g2 gc1 gc2 Hr1. by destruct (Hnone g1).
  - intros g. by rewrite Hl.
Qed.

Lemma set_contexts_id w : set_contexts (contexts w) w = w.
Proof. by destruct w. Qed.

Lemma set_contexts_set_contexts m m' w :
  set_contexts m (set_contexts m' w) = set_contexts m w.
Proof. reflexivity. Qed.

Lemma gc_set_refcnt_id gc r : r = refcnt gc → gc_set_refcnt r gc = gc.
Proof. intros ->. by destruct gc. Qed.

Lemma pgstrom_get_put_round_trip g gc w :
  registry_inv crc32c w → registered g w →
  contexts w !! g = Some gc → resowner gc = CurrentResourceOwner w →
  refcnt gc < INT_MAX →
  (pgstrom_get_gpucontext drv crc32c ≫= pgstrom_put_gpucontext drv) w
  = ([EvSpinLockAcquire gcontext_lock; EvSpinLockRelease gcontext_lock;
      EvSpinLockAcquire gcontext_lock; EvSpinLockRelease gcontext_lock],
     w, Done tt).
Proof.
  intros Hinv Hreg Hgc Hown Hmax.
  destruct (registry_inv_registered g w Hinv Hreg) as (gc0 & _ & Hgc0 & Hr & _).
  assert (gc0 = gc) as -> by congruence.
  erewrite run_bind; last first.
  { rewrite (pgstrom_get_gpucontext_hit g gc) by done.
    by rewrite bool_decide_eq_true_2 by lia. }
  rewrite (pgstrom_put_gpucontext_decrement g (gc_set_refcnt (refcnt gc + 1) gc));
    [|by simpl; rewrite lookup_insert_eq|simpl; unfold INT_MIN; lia|simpl; lia].
  match goal with
  | |- prefix _ (_, ?w2, _) = _ => assert (w2 = w) as ->; [|done]
  end.
  transitivity (set_contexts (contexts w) w); [|apply set_contexts_id].
  rewrite set_contexts_set_contexts. f_equal. cbn [contexts set_contexts].
  rewrite insert_insert_eq. apply insert_id. rewrite Hgc. f_equal.
  destruct gc; unfold gc_set_refcnt; simpl. f_equal. lia.
Qed.

End registry_invariant.

(** ** The outcomes of runs *)

Section ends_with_rules.
Context (R : string → Prop) (U : Prop).

Lemma ends_with_ret {A} (a : A) : ends_with R U (mret a).
Proof. by intros w t w' o [= <- <- <-]. Qed.

Lemma ends_with_bind {A B} (m : M A) (k : A → M B) :
  ends_with R U m → (∀ a, ends_with R U (k a)) → ends_with R U (m ≫= k).
Proof.
  intros Hm Hk w t w' o. unfold mbind, M_bind.
  destruct (m w) as [[t1 w1] o1] eqn:E1. apply Hm in E1.
  destruct o1 as [a|msg| |]; try done.
  - destruct (k a w1) as [[t2 w2] o2] eqn:E2. apply Hk in E2.
    by intros [= <- <- <-].
  - by intros [= <- <- <-].
  - by intros [= <- <- <-].
Qed.

Lemma ends_with_cuda drv c : ends_with R U (cuda drv c).
Proof. by intros w t w' o [= <- <- <-]. Qed.

Lemma ends_with_elog lvl fmt : (lvl = ERROR → R fmt) → ends_with R U (elog lvl fmt).
Proof. intros HS w t w' o. destruct lvl; intros [= <- <- <-]; auto. Qed.

Lemma ends_with_when b m : ends_with R U m → ends_with R U (when b m).
Proof. destruct b; [done|]. intros _. apply ends_with_ret. Qed.

Lemma ends_with_forM_ {A} (l : list A) body :
  (∀ x, ends_with R U (body x)) → ends_with R U (forM_ l body).
Proof.
  intros Hb. induction l as [|x l IH]; simpl; [apply ends_with_ret|].
  by apply ends_with_bind.
Qed.

Lemma ends_with_modify f : ends_with R U (modify f).
Proof. by intros w t w' o [= <- <- <-]. Qed.

Lemma ends_with_emit e : ends_with R U (emit e).
Proof. by intros w t w' o [= <- <- <-]. Qed.

Lemma ends_with_get_world : ends_with R U get_world.
Proof. by intros w t w' o [= <- <- <-]. Qed.

Lemma ends_with_undefined {A} : U → ends_with R U (@undefined A).
Proof. by intros HU w t w' o [= <- <- <-]. Qed.

Lemma ends_with_int_result x : U → ends_with R U (int_result x).
Proof.
  intros HU. unfold int_result.
  case_bool_decide; [apply ends_with_ret|by apply ends_with_undefined].
Qed.

Lemma ends_with_array_get {A} (a : list A) i : U → ends_with R U (array_get a i).
Proof.
  intros HU. unfold array_get. case_bool_decide; [|by apply ends_with_undefined].
  destruct (a !! Z.to_nat i); [apply ends_with_ret|by apply ends_with_undefined].
Qed.

Lemma ends_with_deref_gcontext g : U → ends_with R U (deref_gcontext g).
Proof.
  intros HU w t w' o. unfold deref_gcontext.
  by destruct (_ !! _); intros [= <- <- <-].
Qed.

Lemma ends_with_deref_gts p : U → ends_with R U (deref_gts p).
Proof.
  intros HU w t w' o. unfold deref_gts.
  by destruct (_ !! _); intros [= <- <- <-].
Qed.

Lemma ends_with_deref_task p : U → ends_with R U (deref_task p).
Proof.
  intros HU w t w' o. unfold deref_task.
  by destruct (_ !! _); intros [= <- <- <-].
Qed.

End ends_with_rules.

Ltac ends_with_step :=
  lazymatch goal with
  | |- ends_with _ _ (_ ≫= _) => apply ends_with_bind; [|intros ?]
  | |- ends_with _ _ (mret _) => apply ends_with_ret
  | |- ends_with _ _ (cuda _ _) => apply ends_with_cuda
  | |- ends_with _ _ (elog _ _) => apply ends_with_elog; intros ?
  | |- ends_with _ _ (when _ _) => apply ends_with_when
  | |- ends_with _ _ (forM_ _ _) => apply ends_with_forM_; intros ?
  | |- ends_with _ _ (modify _) => apply ends_with_modify
  | |- ends_with _ _ (emit _) => apply ends_with_emit
  | |- ends_with _ _ get_world => apply ends_with_get_world
  | |- ends_with _ _ undefined => apply ends_with_undefined
  | |- ends_with _ _ (int_result _) => apply ends_with_int_result
  | |- ends_with _ _ (array_get _ _) => apply ends_with_array_get
  | |- ends_with _ _ (deref_gcontext _) => apply ends_with_deref_gcontext
  | |- ends_with _ _ (deref_gts _) => apply ends_with_deref_gts
  | |- ends_with _ _ (deref_task _) => apply ends_with_deref_task
  | |- ends_with _ _ (if ?x then _ else _) => destruct x
  | |- ends_with _ _ (match ?x with _ => _ end) => destruct x
  end.
Ltac ends_with_auto := repeat ends_with_step.

Section outcomes.
Context (drv : Driver) (crc32c : ResourceOwner → Z).

Lemma pgstrom_init_cuda_ends :
  ends_with init_cuda_error False (pgstrom_init_cuda drv).
Proof.
  assert (∀ l i, ends_with init_cuda_error False (pgstrom_init_cuda_loop drv l i))
    as Hloop.
  { induction l as [|o l IH]; intros i; simpl; ends_with_auto;
      [by right|apply IH]. }
  unfold pgstrom_init_cuda. ends_with_auto; [by left|apply Hloop].
Qed.

(** Teardown raises no error. *)
Lemma pgstrom_release_gpucontext_ends g is_commit :
  ends_with (λ _, False) True (pgstrom_release_gpucontext drv g is_commit).
Proof.
  unfold pgstrom_release_gpucontext, pgstrom_sync_gpucontext,
    destroy_dev_contexts, release_taskstate, release_data_store, release_task,
    update_gcontext, update_gts.
  ends_with_auto; done.
Qed.

Lemma pgstrom_create_gpucontext_ends owner w t w' o :
  pgstrom_create_gpucontext drv owner w = (t, w', o) →
  match o with
  | Done _ => True
  | Raised msg => init_cuda_error msg ∧ cuda_num_devices w < 0
  | Undef | OutOfFuel => False
  end.
Proof.
  unfold pgstrom_create_gpucontext. rewrite run_get_world.
  case_bool_decide as Hn; simpl when.
  - intros E. assert (ends_with init_cuda_error False
      (pgstrom_init_cuda drv ≫= λ _, w0 ← get_world;
         emit (EvHostPinMemContextCreate owner (Z.pos (fresh (dom (contexts w0)))));;
         modify (λ w1, set_contexts
           (<[fresh (dom (contexts w0)) :=
                {| refcnt := 1; resowner := owner;
                   memcxt := Z.pos (fresh (dom (contexts w0)));
                   state_list := []; pds_list := [];
                   num_context := 0; cur_context := 0; dev_context := [] |}]>
              (contexts w1)) w1);;
         mret (fresh (dom (contexts w0))))) as Hf.
    { ends_with_auto. apply pgstrom_init_cuda_ends. }
    apply Hf in E. destruct o; auto.
  - rewrite run_ret, run_get_world, run_emit, run_modify. simpl.
    by intros [= <- <- <-].
Qed.

(** Teardown of a context whose task states and tasks are ready returns. *)
Lemma pgstrom_release_gpucontext_done g gc is_commit w :
  teardown_ready g gc w →
  ∃ t w', pgstrom_release_gpucontext drv g is_commit w = (t, w', Done tt) ∧
          contexts w' !! g = None.
Proof.
  intros (Hgc & Hnum & Hready).
  destruct (pgstrom_sync_gpucontext_calls drv g gc w Hgc Hnum)
    as (t_drain & w1 & Esync & _).
  pose proof (pgstrom_sync_gpucontext_same_heap drv g _ _ _ _ Esync)
    as (Hc1 & Hs1 & Ht1).
  assert (teardown_inv g (tasks w) (state_list gc) w1) as Hinv.
  { split_and!; [done|by rewrite Hc1, Hgc|].
    eapply Forall_impl; [exact Hready|]. intros p Hp. unfold gts_ready in Hp.
    rewrite Hs1. destruct (taskstates w !! p) as [s|]; [by exists s|done]. }
  destruct (total_forM_ _ _ _
              (λ p Hp, total_release_taskstate drv g (tasks w) (state_list gc)
                         is_commit p Hp) w1 Hinv)
    as (t2 & w2 & [] & E2 & Hinv2 & _).
  destruct (total_forM_ _ (pds_list gc) _
              (λ pds _, total_release_data_store g (tasks w) (state_list gc) pds)
              w2 Hinv2)
    as (t3 & w3 & [] & E3 & Hinv3 & _).
  destruct (total_destroy_dev_contexts drv g (tasks w) (state_list gc) gc Hnum
              w3 Hinv3)
    as (t4 & w4 & [] & E4 & Hinv4 & _).
  do 2 eexists. split.
  - unfold pgstrom_release_gpucontext.
    erewrite run_bind by exact Esync.
    rewrite (run_deref_gcontext _ gc) by by rewrite Hc1.
    erewrite run_bind by exact E2. erewrite run_bind by exact E3.
    erewrite run_bind by exact E4. simpl. reflexivity.
  - simpl. apply lookup_delete_eq.
Qed.

(** Teardown never takes [gcontext_lock]. *)
Lemma pgstrom_release_gpucontext_unlocked g is_commit :
  post (emits (λ e, e ≠ EvSpinLockAcquire gcontext_lock))
       (pgstrom_release_gpucontext drv g is_commit).
Proof.
  unfold pgstrom_release_gpucontext, pgstrom_sync_gpucontext,
    destroy_dev_contexts, release_taskstate, release_data_store, release_task,
    update_gcontext, update_gts.
  post_auto ltac:(by repeat constructor).
Qed.

Lemma critical_section_unlocked t :
  Forall (λ e, e ≠ EvSpinLockAcquire gcontext_lock) t →
  critical_section false t = [].
Proof.
  induction 1 as [|e t He _ IH]; [done|].
  destruct e as [[]|[]| | | | | | | |]; simpl; done.
Qed.

(** No run of teardown deletes the arena more than once, and a run that
    returns deletes it once. *)
Lemma pgstrom_release_gpucontext_teardowns g is_commit w t w' :
  pgstrom_release_gpucontext drv g is_commit w = (t, w', Done tt) →
  teardowns t = 1%nat.
Proof.
  assert (∀ A (m : M A) w t w' o,
            post (emits (λ e, is_teardown e = false)) m →
            m w = (t, w', o) → teardowns t = 0%nat) as Hzero.
  { intros A m w0 t0 w0' o Hm E. apply Hm in E. unfold emits in E.
    unfold teardowns. induction E as [|e l He _ IH]; [done|].
    simpl. unfold is_teardown in He |- *. by destruct e. }
  assert (∀ t1 t2, teardowns (t1 ++ t2) = (teardowns t1 + teardowns t2)%nat) as Happ.
  { intros t1 t2. unfold teardowns. by rewrite List.filter_app, length_app. }
  unfold pgstrom_release_gpucontext.
  intros (t1 & w1 & [] & t2 & E1 & H & ->)%bind_done_inv.
  apply bind_done_inv in H as (t3 & w3 & gc & t4 & E3 & H & ->).
  apply bind_done_inv in H as (t5 & w5 & [] & t6 & E5 & H & ->).
  apply bind_done_inv in H as (t7 & w7 & [] & t8 & E7 & H & ->).
  apply bind_done_inv in H as (t9 & w9 & [] & t10 & E9 & H & ->).
  rewrite run_cuda, run_emit in H. simpl in H. injection H as <- <-.
  rewrite !Happ.
  assert (teardowns t1 = 0%nat) as ->
    by (eapply Hzero; [|exact E1]; unfold pgstrom_sync_gpucontext;
        post_auto ltac:(by repeat constructor)).
  assert (teardowns t3 = 0%nat) as ->
    by (eapply Hzero; [|exact E3]; post_auto ltac:(by repeat constructor)).
  assert (teardowns t5 = 0%nat) as ->
    by (eapply Hzero; [|exact E5];
        unfold release_taskstate, release_task, update_gcontext, update_gts;
        post_auto ltac:(by repeat constructor)).
  assert (teardowns t7 = 0%nat) as ->
    by (eapply Hzero; [|exact E7]; unfold release_data_store, update_gcontext;
        post_auto ltac:(by repeat constructor)).
  assert (teardowns t9 = 0%nat) as ->
    by (eapply Hzero; [|exact E9]; unfold destroy_dev_contexts;
        post_auto ltac:(by repeat constructor)).
  reflexivity.
Qed.

End outcomes.

(** ** The registry over the life of a context *)

Lemma ready_world_inv : registry_inv example_crc32c ready_world.
Proof. apply registry_inv_empty; vm_compute; reflexivity. Qed.

Lemma held_world_inv : registry_inv example_crc32c held_world.
Proof.
  unfold held_world.
  destruct (pgstrom_get_gpucontext example_driver example_crc32c ready_world)
    as [[t w'] o] eqn:E.
  by destruct (pgstrom_get_gpucontext_inv _ _ _ _ _ _ ready_world_inv E).
Qed.

Lemma held_world_context :
  registered 1%positive held_world ∧
  contexts held_world !! 1%positive
  = Some {| refcnt := 1; resowner := 4242; memcxt := 1; state_list := [];
            pds_list := []; num_context := 0; cur_context := 0;
            dev_context := [] |} ∧
  CurrentResourceOwner held_world = 4242.
Proof.
  split_and!; [|vm_compute; reflexivity..].
  exists [1%positive]. split; [|by left].
  apply (list_elem_of_lookup_2 _ 42%nat). vm_compute. reflexivity.
Qed.

Lemma pgstrom_init_cuda_control_same_last drv :
  post (keeps same_last) (pgstrom_init_cuda_control drv).
Proof.
  unfold pgstrom_init_cuda_control, pgstrom_check_device_capability,
    cuDeviceGetAttribute.
  keeps_auto.
Qed.

(** X1.  When [pgstrom_init_cuda_control] returns in a process whose
    most-recently-used slot still has its initial value, the bucket table has
    its 100 buckets, all empty, and the invariant of the registry holds. *)
Theorem enumeration_establishes_registry_invariant drv crc32c w t w' :
  gcontext_last w = None →
  pgstrom_init_cuda_control drv w = (t, w', Done tt) →
  gcontext_hash w' = replicate 100 [] ∧ registry_inv crc32c w'.
Proof.
  intros Hlast H.
  assert (gcontext_last w' = None) as Hlast'.
  { rewrite <- Hlast. exact (pgstrom_init_cuda_control_same_last drv _ _ _ _ H). }
  assert (gcontext_hash w' = replicate 100 []) as Hh.
  { unfold pgstrom_init_cuda_control in H.
    rewrite run_cuda in H. apply prefix_done_inv in H as (? & H & _).
    destruct (failed _) in H; simpl when in H;
      [by rewrite run_elog_error in H|rewrite run_ret in H].
    rewrite run_cuda in H. apply prefix_done_inv in H as (? & H & _).
    destruct (failed _) in H; simpl when in H;
      [by rewrite run_elog_error in H|rewrite run_ret in H].
    apply bind_done_inv in H as (t1 & w1 & [] & t2 & _ & H & _).
    rewrite run_get_world in H.
    case_bool_decide; simpl when in H; [by rewrite run_elog_error in H|].
    rewrite run_ret, run_modify in H. unfold emit in H. by simplify_eq. }
  split; [done|]. by apply registry_inv_empty.
Qed.

Lemma enumeration_establishes_registry_invariant_witness :
  gcontext_hash ready_world = replicate 100 [] ∧
  registry_inv example_crc32c ready_world.
Proof.
  destruct (pgstrom_init_cuda_control example_driver boot_world)
    as [[t w'] o] eqn:E.
  assert (o = Done tt) as ->.
  { apply (f_equal snd) in E. vm_compute in E. congruence. }
  assert (ready_world = w') as -> by (unfold ready_world; by rewrite E).
  exact (enumeration_establishes_registry_invariant example_driver example_crc32c
           boot_world t w' eq_refl E).
Defined.

(** X2.  [pgstrom_get_gpucontext] keeps the invariant of the registry,
    whatever its outcome: also when the initialisation of the CUDA runtime
    raises its error from inside the acquisition. *)
Theorem acquire_keeps_registry_invariant drv crc32c w :
  registry_inv crc32c w →
  registry_inv crc32c (pgstrom_get_gpucontext drv crc32c w).1.2.
Proof.
  intros Hinv.
  destruct (pgstrom_get_gpucontext drv crc32c w) as [[t w'] o] eqn:E.
  by destruct (pgstrom_get_gpucontext_inv _ _ _ _ _ _ Hinv E).
Qed.

Lemma acquire_keeps_registry_invariant_witness :
  registry_inv example_crc32c
    (pgstrom_get_gpucontext failing_driver example_crc32c ready_world).1.2 ∧
  registry_inv example_crc32c
    (pgstrom_get_gpucontext example_driver example_crc32c held_world).1.2.
Proof.
  split.
  - exact (acquire_keeps_registry_invariant failing_driver example_crc32c
             ready_world ready_world_inv).
  - exact (acquire_keeps_registry_invariant example_driver example_crc32c
             held_world held_world_inv).
Defined.

(** X3.  When a context bound to the current resource owner is chained and
    its reference count is below [INT_MAX], the acquisition returns that
    context with its reference count raised by one; it holds the lock for the
    increment only, calls no driver function and allocates nothing, and
    nothing else of the process state changes. *)
Theorem acquire_hit_increments_refcount drv crc32c g gc w :
  registry_inv crc32c w → registered g w →
  contexts w !! g = Some gc → resowner gc = CurrentResourceOwner w →
  refcnt gc < INT_MAX →
  pgstrom_get_gpucontext drv crc32c w
  = ([EvSpinLockAcquire gcontext_lock; EvSpinLockRelease gcontext_lock],
     set_contexts (<[g := gc_set_refcnt (refcnt gc + 1) gc]> (contexts w)) w,
     Done g).
Proof.
  intros Hinv Hreg Hgc Hown Hmax.
  rewrite (pgstrom_get_gpucontext_hit drv crc32c g gc) by done.
  by rewrite bool_decide_eq_true_2 by lia.
Qed.

Lemma acquire_hit_increments_refcount_witness :
  pgstrom_get_gpucontext example_driver example_crc32c held_world
  = ([EvSpinLockAcquire gcontext_lock; EvSpinLockRelease gcontext_lock],
     set_contexts
       (<[1%positive :=
            {| refcnt := 2; resowner := 4242; memcxt := 1; state_list := [];
               pds_list := []; num_context := 0; cur_context := 0;
               dev_context := [] |}]> (contexts held_world)) held_world,
     Done 1%positive).
Proof.
  destruct held_world_context as (Hreg & Hgc & Hown).
  apply (acquire_hit_increments_refcount example_driver example_crc32c
           1%positive _ held_world held_world_inv Hreg Hgc).
  - by rewrite Hown.
  - unfold INT_MAX. simpl. lia.
Defined.

(** X4.  Two consecutive acquisitions under one resource owner return the
    same context, whether the first one found it or created it; the second
    one only takes the lock and raises the reference count by one. *)
Theorem acquire_twice_returns_same_context drv crc32c w t1 w1 g :
  registry_inv crc32c w →
  pgstrom_get_gpucontext drv crc32c w = (t1, w1, Done g) →
  ∃ gc, contexts w1 !! g = Some gc ∧
        (refcnt gc < INT_MAX →
         pgstrom_get_gpucontext drv crc32c w1
         = ([EvSpinLockAcquire gcontext_lock; EvSpinLockRelease gcontext_lock],
            set_contexts (<[g := gc_set_refcnt (refcnt gc + 1) gc]> (contexts w1)) w1,
            Done g)).
Proof.
  intros Hinv E.
  destruct (pgstrom_get_gpucontext_inv _ _ _ _ _ _ Hinv E) as (Hinv1 & Ho1 & Hg).
  destruct (Hg g eq_refl) as (Hreg & gc & Hgc & Hown & _).
  exists gc. split; [done|]. intros Hmax.
  rewrite (pgstrom_get_gpucontext_hit drv crc32c g gc) by (done || congruence).
  by rewrite bool_decide_eq_true_2 by lia.
Qed.

Lemma acquire_twice_returns_same_context_witness :
  ∃ t1 w1 gc,
    pgstrom_get_gpucontext example_driver example_crc32c ready_world
    = (t1, w1, Done 1%positive) ∧
    contexts w1 !! 1%positive = Some gc ∧
    (refcnt gc < INT_MAX →
     pgstrom_get_gpucontext example_driver example_crc32c w1
     = ([EvSpinLockAcquire gcontext_lock; EvSpinLockRelease gcontext_lock],
        set_contexts (<[1%positive := gc_set_refcnt (refcnt gc + 1) gc]> (contexts w1)) w1,
        Done 1%positive)).
Proof.
  destruct (pgstrom_get_gpucontext example_driver example_crc32c ready_world)
    as [[t1 w1] o] eqn:E.
  assert (o = Done 1%positive) as ->.
  { apply (f_equal snd) in E. vm_compute in E. congruence. }
  destruct (acquire_twice_returns_same_context example_driver example_crc32c
              ready_world t1 w1 1%positive ready_world_inv E) as (gc & Hgc & H).
  exists t1, w1, gc. split; [reflexivity|]. split; [exact Hgc|exact H].
Defined.

(** X5.  Acquiring the chained context of the current resource owner and
    releasing it again leaves the process state exactly as it was: the two
    operations only take and release the lock, twice. *)
Theorem acquire_release_round_trip drv crc32c g gc w :
  registry_inv crc32c w → registered g w →
  contexts w !! g = Some gc → resowner gc = CurrentResourceOwner w →
  refcnt gc < INT_MAX →
  (pgstrom_get_gpucontext drv crc32c ≫= pgstrom_put_gpucontext drv) w
  = ([EvSpinLockAcquire gcontext_lock; EvSpinLockRelease gcontext_lock;
      EvSpinLockAcquire gcontext_lock; EvSpinLockRelease gcontext_lock],
     w, Done tt).
Proof. apply pgstrom_get_put_round_trip. Qed.

Lemma acquire_release_round_trip_witness :
  (pgstrom_get_gpucontext example_driver example_crc32c
     ≫= pgstrom_put_gpucontext example_driver) held_world
  = ([EvSpinLockAcquire gcontext_lock; EvSpinLockRelease gcontext_lock;
      EvSpinLockAcquire gcontext_lock; EvSpinLockRelease gcontext_lock],
     held_world, Done tt).
Proof.
  destruct held_world_context as (Hreg & Hgc & Hown).
  apply (acquire_release_round_trip example_driver example_crc32c
           1%positive _ held_world held_world_inv Hreg Hgc).
  - by rewrite Hown.
  - unfold INT_MAX. simpl. lia.
Defined.

(** X6.  [pgstrom_put_gpucontext] keeps the invariant of the registry,
    whatever its outcome and whatever the context it is handed. *)
Theorem release_keeps_registry_invariant drv crc32c g w :
  registry_inv crc32c w →
  registry_inv crc32c (pgstrom_put_gpucontext drv g w).1.2.
Proof.
  intros Hinv.
  destruct (pgstrom_put_gpucontext drv g w) as [[t w'] o] eqn:E.
  by destruct (pgstrom_put_gpucontext_inv drv crc32c g w t w' o Hinv E).
Qed.

Lemma release_keeps_registry_invariant_witness :
  registry_inv example_crc32c
    (pgstrom_put_gpucontext failing_driver 1%positive held_world).1.2.
Proof.
  exact (release_keeps_registry_invariant failing_driver example_crc32c
           1%positive held_world held_world_inv).
Defined.

Section cleanup_hook.
Context (drv : Driver) (crc32c : ResourceOwner → Z).

Lemma gpucontext_cleanup_callback_inv phase is_commit is_toplevel w t w' o :
  registry_inv crc32c w →
  gpucontext_cleanup_callback drv crc32c phase is_commit is_toplevel w = (t, w', o) →
  registry_inv crc32c w' ∧ CurrentResourceOwner w' = CurrentResourceOwner w.
Proof.
  intros Hinv.
  destruct (decide (phase = RESOURCE_RELEASE_AFTER_LOCKS)) as [->|Hphase]; last first.
  { unfold gpucontext_cleanup_callback. rewrite run_get_world.
    rewrite bool_decide_eq_false_2 by done. by intros [= <- <- <-]. }
  destruct (registry_inv_owner_dec crc32c w Hinv) as [(g & gc & Hreg & Hgc & Hown)|Hnone].
  - rewrite (gpucontext_cleanup_callback_found drv crc32c g gc) by done.
    destruct (unchained_spec g w) as (Hh2 & Hl2 & Hc2 & _ & _ & _ & Ho2).
    revert Hh2 Hl2 Hc2 Ho2. generalize (unchained g w). intros w2 Hh2 Hl2 Hc2 Ho2.
    destruct (pgstrom_release_gpucontext drv g is_commit w2) as [[t2 w3] o2] eqn:E2.
    simpl. intros [= <- <- <-].
    destruct (registry_inv_teardown drv crc32c g w w2 _ _ _ _ Hinv Hh2 Hl2
                ltac:(by intros; rewrite Hc2) E2) as (Hinv3 & Ho3 & _).
    split; [done|congruence].
  - rewrite gpucontext_cleanup_callback_none by done. by intros [= <- <- <-].
Qed.

End cleanup_hook.

(** X7.  [gpucontext_cleanup_callback] keeps the invariant of the
    registry, at every phase and whatever its outcome. *)
Theorem cleanup_keeps_registry_invariant drv crc32c phase is_commit is_toplevel w :
  registry_inv crc32c w →
  registry_inv crc32c
    (gpucontext_cleanup_callback drv crc32c phase is_commit is_toplevel w).1.2.
Proof.
  intros Hinv.
  destruct (gpucontext_cleanup_callback drv crc32c phase is_commit is_toplevel w)
    as [[t w'] o] eqn:E.
  by destruct (gpucontext_cleanup_callback_inv drv crc32c _ _ _ _ _ _ _ Hinv E).
Qed.

Lemma cleanup_keeps_registry_invariant_witness :
  registry_inv example_crc32c
    (gpucontext_cleanup_callback failing_driver example_crc32c
       RESOURCE_RELEASE_AFTER_LOCKS false true held_world).1.2.
Proof.
  exact (cleanup_keeps_registry_invariant failing_driver example_crc32c
           RESOURCE_RELEASE_AFTER_LOCKS false true held_world held_world_inv).
Defined.

(** X8.  At [RESOURCE_RELEASE_AFTER_LOCKS], when the current resource owner
    has a chained context that is ready for teardown, the hook takes the
    context out of the registry and tears it down, whatever its reference
    count: after the lock was released it reports the forgotten context if
    the scope commits and runs the teardown, once.  Afterwards the context is
    gone and a further invocation of the hook only takes and releases the
    lock. *)
Theorem cleanup_callback_forces_teardown drv crc32c g gc is_commit is_toplevel w :
  registry_inv crc32c w → registered g w → teardown_ready g gc w →
  resowner gc = CurrentResourceOwner w →
  ∃ t w',
    gpucontext_cleanup_callback drv crc32c RESOURCE_RELEASE_AFTER_LOCKS
      is_commit is_toplevel w = (t, w', Done tt) ∧
    t = [EvSpinLockAcquire gcontext_lock; EvSpinLockRelease gcontext_lock]
        ++ (if is_commit
            then [EvElog WARNING "Probably, someone forgot to put GpuContext"]
            else [])
        ++ (pgstrom_release_gpucontext drv g is_commit (unchained g w)).1.1 ∧
    teardowns t = 1%nat ∧
    ¬ registered g w' ∧ contexts w' !! g = None ∧
    gpucontext_cleanup_callback drv crc32c RESOURCE_RELEASE_AFTER_LOCKS
      is_commit is_toplevel w'
    = ([EvSpinLockAcquire gcontext_lock; EvSpinLockRelease gcontext_lock],
       w', Done tt).
Proof.
  intros Hinv Hreg Hready Hown. pose proof Hready as (Hgc & Hnum & Hgts).
  rewrite (gpucontext_cleanup_callback_found drv crc32c g gc) by done.
  destruct (unchained_spec g w) as (Hh2 & Hl2 & Hc2 & Hs2 & Ht2 & _ & Ho2).
  revert Hh2 Hl2 Hc2 Hs2 Ht2 Ho2. generalize (unchained g w).
  intros w2 Hh2 Hl2 Hc2 Hs2 Ht2 Ho2.
  assert (teardown_ready g gc w2) as Hready2.
  { unfold teardown_ready, gts_ready. by rewrite Hc2, Hs2, Ht2. }
  destruct (pgstrom_release_gpucontext_done drv g gc is_commit w2 Hready2)
    as (t2 & w' & E2 & Hgone).
  rewrite E2. simpl.
  destruct (registry_inv_teardown drv crc32c g w w2 _ _ _ _ Hinv Hh2 Hl2
              ltac:(by intros; rewrite Hc2) E2) as (Hinv' & Ho' & Hothers).
  exists (([EvSpinLockAcquire gcontext_lock; EvSpinLockRelease gcontext_lock]
           ++ (if is_commit
               then [EvElog WARNING "Probably, someone forgot to put GpuContext"]
               else [])) ++ t2), w'.
  split_and!.
  - done.
  - by rewrite <- app_assoc.
  - rewrite <- app_assoc. unfold teardowns. rewrite !List.filter_app, !length_app.
    fold (teardowns t2).
    rewrite (pgstrom_release_gpucontext_teardowns drv g is_commit w2 t2 w' E2).
    by destruct is_commit.
  - intros Hg. by destruct (Hothers g Hg).
  - done.
  - rewrite gpucontext_cleanup_callback_none; [done..|].
    intros p gcp Hp Hgcp Hownp.
    destruct (Hothers p Hp) as (Hne & Hregp & Hcp). apply Hne.
    rewrite Hcp in Hgcp.
    eapply (inv_owner _ _ Hinv); [done..|]. congruence.
Qed.

Lemma cleanup_callback_forces_teardown_witness :
  ∃ t w',
    gpucontext_cleanup_callback example_driver example_crc32c
      RESOURCE_RELEASE_AFTER_LOCKS true true held_world = (t, w', Done tt) ∧
    teardowns t = 1%nat ∧
    ¬ registered 1%positive w' ∧ contexts w' !! 1%positive = None ∧
    gpucontext_cleanup_callback example_driver example_crc32c
      RESOURCE_RELEASE_AFTER_LOCKS true true w'
    = ([EvSpinLockAcquire gcontext_lock; EvSpinLockRelease gcontext_lock],
       w', Done tt).
Proof.
  destruct held_world_context as (Hreg & Hgc & Hown).
  assert (teardown_ready 1%positive
            {| refcnt := 1; resowner := 4242; memcxt := 1; state_list := [];
               pds_list := []; num_context := 0; cur_context := 0;
               dev_context := [] |} held_world) as Hready.
  { split_and!; [exact Hgc|reflexivity|constructor]. }
  destruct (cleanup_callback_forces_teardown example_driver example_crc32c
              1%positive _ true true held_world held_world_inv Hreg Hready
              (eq_sym Hown))
    as (t & w' & E & _ & Ht & Hn & Hg & E').
  exists t, w'. split_and!; assumption.
Defined.

(** X9.  On a registry that satisfies its invariant and whose reference
    counts are below [INT_MAX], the acquisition has no undefined behaviour:
    it returns a chained context bound to the current resource owner, or it
    raises one of the two errors of the initialisation of the CUDA runtime,
    and that only when the runtime was not initialised yet. *)
Theorem acquire_returns_or_raises drv crc32c w :
  registry_inv crc32c w →
  (∀ g gc, registered g w → contexts w !! g = Some gc → refcnt gc < INT_MAX) →
  match pgstrom_get_gpucontext drv crc32c w with
  | (_, w', Done g) =>
      registered g w' ∧ owner_of w' g = Some (CurrentResourceOwner w)
  | (_, _, Raised msg) => cuda_num_devices w < 0 ∧ init_cuda_error msg
  | (_, _, Undef) | (_, _, OutOfFuel) => False
  end.
Proof.
  intros Hinv Hmax.
  destruct (pgstrom_get_gpucontext drv crc32c w) as [[t w'] o] eqn:E.
  destruct (pgstrom_get_gpucontext_inv _ _ _ _ _ _ Hinv E) as (_ & _ & Hdone).
  destruct o as [g|msg| |].
  - destruct (Hdone g eq_refl) as (Hreg & gc & Hgc & Hown & _).
    split; [done|]. unfold owner_of. by rewrite Hgc, <- Hown.
  - destruct (registry_inv_owner_dec crc32c w Hinv)
      as [(g & gc & Hreg & Hgc & Hown)|Hnone].
    + rewrite (pgstrom_get_gpucontext_hit drv crc32c g gc) in E by done.
      by case_bool_decide.
    + destruct (pgstrom_get_gpucontext_run_miss drv crc32c w Hinv Hnone)
        as (chain & _ & _ & Hrun).
      rewrite Hrun in E. clear Hrun.
      destruct (pgstrom_create_gpucontext drv (CurrentResourceOwner w) w)
        as [[tc wc] oc] eqn:Ec.
      apply pgstrom_create_gpucontext_ends in Ec as Hoc.
      unfold mbind, M_bind in E. rewrite Ec in E.
      destruct oc; simpl in E; try done; simplify_eq. tauto.
  - destruct (registry_inv_owner_dec crc32c w Hinv)
      as [(g & gc & Hreg & Hgc & Hown)|Hnone].
    + rewrite (pgstrom_get_gpucontext_hit drv crc32c g gc) in E by done.
      specialize (Hmax g gc Hreg Hgc).
      by rewrite bool_decide_eq_true_2 in E by lia.
    + destruct (pgstrom_get_gpucontext_run_miss drv crc32c w Hinv Hnone)
        as (chain & _ & _ & Hrun).
      rewrite Hrun in E. clear Hrun.
      destruct (pgstrom_create_gpucontext drv (CurrentResourceOwner w) w)
        as [[tc wc] oc] eqn:Ec.
      apply pgstrom_create_gpucontext_ends in Ec as Hoc.
      unfold mbind, M_bind in E. rewrite Ec in E.
      destruct oc; simpl in E; try done; simplify_eq.
  - destruct (registry_inv_owner_dec crc32c w Hinv)
      as [(g & gc & Hreg & Hgc & Hown)|Hnone].
    + rewrite (pgstrom_get_gpucontext_hit drv crc32c g gc) in E by done.
      by case_bool_decide.
    + destruct (pgstrom_get_gpucontext_run_miss drv crc32c w Hinv Hnone)
        as (chain & _ & _ & Hrun).
      rewrite Hrun in E. clear Hrun.
      destruct (pgstrom_create_gpucontext drv (CurrentResourceOwner w) w)
        as [[tc wc] oc] eqn:Ec.
      apply pgstrom_create_gpucontext_ends in Ec as Hoc.
      unfold mbind, M_bind in E. rewrite Ec in E.
      destruct oc; simpl in E; try done; simplify_eq.
Qed.

Lemma ready_world_empty g : ¬ registered g ready_world.
Proof.
  intros (chain & Hc & Hg).
  assert (gcontext_hash ready_world = replicate 100 []) as Hh
    by (vm_compute; reflexivity).
  rewrite Hh in Hc. apply elem_of_replicate in Hc as [-> _].
  by apply not_elem_of_nil in Hg.
Qed.

Lemma acquire_returns_or_raises_witness :
  match pgstrom_get_gpucontext example_driver example_crc32c ready_world with
  | (_, w', Done g) =>
      registered g w' ∧ owner_of w' g = Some (CurrentResourceOwner ready_world)
  | (_, _, Raised msg) => cuda_num_devices ready_world < 0 ∧ init_cuda_error msg
  | (_, _, Undef) | (_, _, OutOfFuel) => False
  end ∧
  match pgstrom_get_gpucontext failing_driver example_crc32c ready_world with
  | (_, w', Done g) =>
      registered g w' ∧ owner_of w' g = Some (CurrentResourceOwner ready_world)
  | (_, _, Raised msg) => cuda_num_devices ready_world < 0 ∧ init_cuda_error msg
  | (_, _, Undef) | (_, _, OutOfFuel) => False
  end.
Proof.
  split.
  - apply (acquire_returns_or_raises example_driver example_crc32c ready_world
             ready_world_inv).
    intros g gc Hreg. by destruct (ready_world_empty g).
  - apply (acquire_returns_or_raises failing_driver example_crc32c ready_world
             ready_world_inv).
    intros g gc Hreg. by destruct (ready_world_empty g).
Defined.

Section lock_discipline.
Context (drv : Driver) (crc32c : ResourceOwner → Z).

Lemma pgstrom_put_gpucontext_critical_section g w :
  critical_section false (pgstrom_put_gpucontext drv g w).1.1 = [].
Proof.
  destruct (contexts w !! g) as [gc|] eqn:Hgc; last first.
  { unfold pgstrom_put_gpucontext, SpinLockAcquire. rewrite run_emit.
    unfold mbind, M_bind, deref_gcontext. by rewrite Hgc. }
  destruct (bool_decide_reflect (INT_MIN ≤ refcnt gc - 1 ≤ INT_MAX)) as [Hr|Hr]; last first.
  { unfold pgstrom_put_gpucontext, SpinLockAcquire.
    rewrite run_emit, (run_deref_gcontext _ gc) by done.
    unfold int_result. by rewrite bool_decide_eq_false_2 by done. }
  destruct (decide (refcnt gc = 1)) as [H1|H1].
  - rewrite (pgstrom_put_gpucontext_unchain drv g gc) by done.
    destruct (pgstrom_release_gpucontext drv g true _) as [[t2 w3] o2] eqn:E2.
    simpl. apply critical_section_unlocked.
    exact (pgstrom_release_gpucontext_unlocked drv g true _ _ _ _ E2).
  - by rewrite (pgstrom_put_gpucontext_decrement drv g gc) by done.
Qed.

Lemma gpucontext_cleanup_callback_critical_section phase is_commit is_toplevel w :
  critical_section false
    (gpucontext_cleanup_callback drv crc32c phase is_commit is_toplevel w).1.1 = [].
Proof.
  unfold gpucontext_cleanup_callback. rewrite run_get_world.
  case_bool_decide; cbn [negb]; [|done].
  unfold SpinLockAcquire, SpinLockRelease. rewrite run_emit.
  unfold array_get. case_bool_decide; [|done].
  destruct (gcontext_hash w !! _) as [chain|]; [|done]. rewrite run_ret.
  destruct (gcontext_chain_find_cases (CurrentResourceOwner w) chain w)
    as [(g' & gc' & E' & _)|[(E' & _)|(E' & _)]].
  - erewrite run_bind by exact E'. rewrite prefix_nil.
    unfold gcontext_unregister. rewrite run_modify, run_emit, prefix_prefix.
    destruct is_commit; simpl when; [rewrite run_elog by done|rewrite run_ret];
      rewrite ?prefix_prefix;
      match goal with |- context [pgstrom_release_gpucontext drv g' ?c ?w2] =>
        destruct (pgstrom_release_gpucontext drv g' c w2) as [[t2 w3] o2] eqn:E2;
        pose proof (pgstrom_release_gpucontext_unlocked drv g' c _ _ _ _ E2) as Hun
      end; simpl; by apply critical_section_unlocked.
  - erewrite run_bind by exact E'. done.
  - unfold mbind, M_bind. by rewrite E'.
Qed.

End lock_discipline.

(** X10.  [pgstrom_put_gpucontext] and [gpucontext_cleanup_callback] emit
    nothing while they hold [gcontext_lock], in any state and whatever the
    driver answers: the teardown they run, with its driver calls and
    reports, comes after the lock was released. *)
Theorem teardown_runs_outside_critical_section
    drv crc32c g phase is_commit is_toplevel w :
  critical_section false (pgstrom_put_gpucontext drv g w).1.1 = [] ∧
  critical_section false
    (gpucontext_cleanup_callback drv crc32c phase is_commit is_toplevel w).1.1 = [].
Proof.
  split.
  - apply pgstrom_put_gpucontext_critical_section.
  - apply gpucontext_cleanup_callback_critical_section.
Qed.

(** ** Initialisation of the CUDA runtime *)

Section init_cuda.
Context (drv : Driver).

(** The loop of [pgstrom_init_cuda] from slot [length done] on, over a table
    whose slots from there on still hold the zeroes of the allocation. *)
Lemma pgstrom_init_cuda_loop_run rest : ∀ done w,
  cuda_devices w = done ++ replicate (length rest) 0 →
  (∀ j o, rest !! j = Some o →
          drv_rc drv (cuda_clock w + j) (CuDeviceGet o) = CUDA_SUCCESS) →
  pgstrom_init_cuda_loop drv rest (length done) w
  = ((λ o, EvCuda (CuDeviceGet o) CUDA_SUCCESS) <$> rest,
     set_cuda_clock (cuda_clock w + length rest)
       (set_cuda_runtime (cuda_num_devices w)
          (done ++ (drv_device drv <$> rest)) w),
     Done tt).
Proof.
  induction rest as [|o rest IH]; intros done w Hdevs Hok; simpl.
  - unfold mret, M_ret. f_equal. f_equal. rewrite Nat.add_0_r.
    simpl in Hdevs. rewrite <- Hdevs. by destruct w.
  - assert (drv_rc drv (cuda_clock w) (CuDeviceGet o) = CUDA_SUCCESS) as Hrc.
    { rewrite <- (Hok 0%nat o eq_refl). f_equal. lia. }
    rewrite run_cuda, Hrc. simpl when. rewrite run_ret, run_modify.
    replace (S (length done)) with (length (done ++ [drv_device drv o]))
      by (rewrite length_app; simpl; lia).
    rewrite IH; last first.
    { intros j o' Hj. cbn [cuda_clock set_cuda_clock set_cuda_runtime].
      rewrite <- (Hok (S j) o' Hj). f_equal. lia. }
    { cbn [cuda_devices set_cuda_clock set_cuda_runtime]. rewrite Hdevs.
      rewrite insert_app_r_alt by lia. rewrite Nat.sub_diag. simpl.
      by rewrite <- app_assoc. }
    simpl. f_equal. f_equal. rewrite <- app_assoc.
    unfold set_cuda_clock, set_cuda_runtime. cbn. f_equal. lia.
Qed.

Lemma pgstrom_init_cuda_run w :
  drv_rc drv (cuda_clock w) (CuInit 0) = CUDA_SUCCESS →
  (∀ j o, cuda_device_ordinals w !! j = Some o →
          drv_rc drv (S (cuda_clock w) + j) (CuDeviceGet o) = CUDA_SUCCESS) →
  pgstrom_init_cuda drv w
  = (EvCuda (CuInit 0) CUDA_SUCCESS
       :: ((λ o, EvCuda (CuDeviceGet o) CUDA_SUCCESS) <$> cuda_device_ordinals w),
     set_cuda_clock (S (cuda_clock w) + length (cuda_device_ordinals w))
       (set_cuda_runtime (Z.of_nat (length (cuda_device_ordinals w)))
          (drv_device drv <$> cuda_device_ordinals w) w),
     Done tt).
Proof.
  intros Hinit Hok. unfold pgstrom_init_cuda.
  rewrite run_cuda, Hinit. simpl when. rewrite run_ret, run_get_world, run_modify.
  cbn [cuda_device_ordinals set_cuda_clock set_cuda_runtime].
  rewrite (pgstrom_init_cuda_loop_run _ []); [done| |].
  - cbn [cuda_devices set_cuda_clock set_cuda_runtime]. done.
  - intros j o Hj. cbn [cuda_clock set_cuda_clock set_cuda_runtime]. by apply Hok.
Qed.

Lemma pgstrom_init_cuda_loop_fail ordinal post pre : ∀ done w,
  cuda_devices w = done ++ replicate (length (pre ++ ordinal :: post)) 0 →
  (∀ j o, pre !! j = Some o →
          drv_rc drv (cuda_clock w + j) (CuDeviceGet o) = CUDA_SUCCESS) →
  drv_rc drv (cuda_clock w + length pre) (CuDeviceGet ordinal) ≠ CUDA_SUCCESS →
  pgstrom_init_cuda_loop drv (pre ++ ordinal :: post) (length done) w
  = (((λ o, EvCuda (CuDeviceGet o) CUDA_SUCCESS) <$> pre)
       ++ [EvCuda (CuDeviceGet ordinal)
             (drv_rc drv (cuda_clock w + length pre) (CuDeviceGet ordinal));
           EvElog ERROR "failed on cuDeviceGet: %s"],
     set_cuda_clock (cuda_clock w + S (length pre))
       (set_cuda_runtime (cuda_num_devices w)
          (done ++ (drv_device drv <$> pre) ++ replicate (S (length post)) 0) w),
     Raised "failed on cuDeviceGet: %s").
Proof.
  induction pre as [|o pre IH]; intros done w Hdevs Hok Hfail; simpl.
  - rewrite run_cuda. rewrite Nat.add_0_r in Hfail.
    unfold failed. destruct (Z.eqb_spec (drv_rc drv (cuda_clock w) (CuDeviceGet ordinal))
                               CUDA_SUCCESS) as [?|_]; [done|].
    simpl when. rewrite run_elog_error. simpl. rewrite Nat.add_0_r.
    f_equal. f_equal. simpl in Hdevs. rewrite <- Hdevs.
    unfold set_cuda_clock, set_cuda_runtime. cbn. f_equal. lia.
  - assert (drv_rc drv (cuda_clock w) (CuDeviceGet o) = CUDA_SUCCESS) as Hrc.
    { rewrite <- (Hok 0%nat o eq_refl). f_equal. lia. }
    rewrite run_cuda, Hrc. simpl when. rewrite run_ret, run_modify.
    replace (S (length done)) with (length (done ++ [drv_device drv o]))
      by (rewrite length_app; simpl; lia).
    rewrite IH; last first.
    { cbn [cuda_clock set_cuda_clock set_cuda_runtime].
      replace (S (cuda_clock w) + length pre)%nat
        with (cuda_clock w + S (length pre))%nat by lia. done. }
    { intros j o' Hj. cbn [cuda_clock set_cuda_clock set_cuda_runtime].
      rewrite <- (Hok (S j) o' Hj). f_equal. lia. }
    { cbn [cuda_devices set_cuda_clock set_cuda_runtime]. rewrite Hdevs.
      rewrite insert_app_r_alt by lia. rewrite Nat.sub_diag. simpl.
      by rewrite <- app_assoc. }
    simpl. cbn [cuda_clock set_cuda_clock set_cuda_runtime].
    f_equal. f_equal.
    + do 5 f_equal. lia.
    + rewrite <- app_assoc.
      unfold set_cuda_clock, set_cuda_runtime. cbn. f_equal. lia.
Qed.

End init_cuda.

(** X11.  When [cuInit] and the [cuDeviceGet] of every usable ordinal
    succeed, [pgstrom_init_cuda] calls the driver once per ordinal, in the
    order of the list, and leaves [cuda_num_devices] at the length of the
    list and [cuda_devices] holding the device of each ordinal at the
    position of the ordinal in the list; nothing else of the process state
    changes. *)
Theorem init_cuda_binds_devices drv w :
  drv_rc drv (cuda_clock w) (CuInit 0) = CUDA_SUCCESS →
  (∀ j o, cuda_device_ordinals w !! j = Some o →
          drv_rc drv (S (cuda_clock w) + j) (CuDeviceGet o) = CUDA_SUCCESS) →
  pgstrom_init_cuda drv w
  = (EvCuda (CuInit 0) CUDA_SUCCESS
       :: ((λ o, EvCuda (CuDeviceGet o) CUDA_SUCCESS) <$> cuda_device_ordinals w),
     set_cuda_clock (S (cuda_clock w) + length (cuda_device_ordinals w))
       (set_cuda_runtime (Z.of_nat (length (cuda_device_ordinals w)))
          (drv_device drv <$> cuda_device_ordinals w) w),
     Done tt).
Proof. apply pgstrom_init_cuda_run. Qed.

Lemma init_cuda_binds_devices_witness :
  pgstrom_init_cuda example_driver two_device_world
  = ([EvCuda (CuInit 0) 0; EvCuda (CuDeviceGet 0) 0; EvCuda (CuDeviceGet 1) 0],
     set_cuda_clock 3 (set_cuda_runtime 2 [0; 1] two_device_world),
     Done tt).
Proof.
  apply (init_cuda_binds_devices example_driver two_device_world).
  - reflexivity.
  - intros j o _. reflexivity.
Defined.

(** X12.  When [cuInit] succeeded and [cuDeviceGet] fails for one of the
    ordinals, [pgstrom_init_cuda] raises its error with [cuda_num_devices]
    already set to the length of the list, so that the runtime counts as
    initialised from then on; [cuda_devices] holds the devices of the
    ordinals before the failing one, followed by the zeroes of the
    allocation. *)
Theorem init_cuda_device_failure_marks_initialised drv w pre ordinal rest :
  cuda_device_ordinals w = pre ++ ordinal :: rest →
  drv_rc drv (cuda_clock w) (CuInit 0) = CUDA_SUCCESS →
  (∀ j o, pre !! j = Some o →
          drv_rc drv (S (cuda_clock w) + j) (CuDeviceGet o) = CUDA_SUCCESS) →
  drv_rc drv (S (cuda_clock w) + length pre) (CuDeviceGet ordinal) ≠ CUDA_SUCCESS →
  ∃ t w',
    pgstrom_init_cuda drv w = (t, w', Raised "failed on cuDeviceGet: %s") ∧
    cuda_num_devices w' = Z.of_nat (length (cuda_device_ordinals w)) ∧
    0 ≤ cuda_num_devices w' ∧
    cuda_devices w' = (drv_device drv <$> pre) ++ replicate (S (length rest)) 0.
Proof.
  intros Hords Hinit Hok Hfail. unfold pgstrom_init_cuda.
  rewrite run_cuda, Hinit. simpl when. rewrite run_ret, run_get_world, run_modify.
  cbn [cuda_device_ordinals set_cuda_clock set_cuda_runtime]. rewrite Hords.
  rewrite (pgstrom_init_cuda_loop_fail drv ordinal rest pre []); [|done..].
  do 2 eexists. split; [reflexivity|]. simpl. split_and!; [done|lia|done].
Qed.

Lemma init_cuda_device_failure_marks_initialised_witness :
  ∃ t w',
    pgstrom_init_cuda second_device_failing_driver two_device_world
    = (t, w', Raised "failed on cuDeviceGet: %s") ∧
    cuda_num_devices w' = 2 ∧ 0 ≤ cuda_num_devices w' ∧
    cuda_devices w' = [10; 0].
Proof.
  apply (init_cuda_device_failure_marks_initialised second_device_failing_driver
           two_device_world [0] 1 []).
  - reflexivity.
  - reflexivity.
  - intros [|j] o; [by intros [= <-]|done].
  - discriminate.
Defined.

(** ** Device enumeration: the limits *)

Lemma land_megabyte_mask x :
  0 ≤ x < 2 ^ 64 →
  Z.land x (Z.shiftl (Z.ones 44) 20) = Z.shiftl (Z.shiftr x 20) 20.
Proof.
  intros Hx. apply Z.bits_inj'. intros n Hn.
  rewrite Z.land_spec, !Z.shiftl_spec by lia.
  destruct (Z.ltb_spec n 20) as [Hlt|Hge].
  - rewrite !(Z.testbit_neg_r _ (n - 20)) by lia. apply andb_false_r.
  - rewrite Z.shiftr_spec by lia. replace (n - 20 + 20) with n by lia.
    rewrite Z.testbit_ones by lia.
    destruct (Z.ltb_spec (n - 20) 44) as [Hlow|Hhigh].
    + replace (0 <=? n - 20) with true by (symmetry; apply Z.leb_le; lia).
      apply andb_true_r.
    + rewrite andb_false_r, andb_false_r.
      rewrite <- (Z.mod_small x (2 ^ 64)) by lia.
      symmetry. apply Z.mod_pow2_bits_high. lia.
Qed.

(** X13.  The allocation ceiling of a device is one third of its memory
    (rounded down), rounded down to a multiple of one megabyte. *)
Theorem malloc_ceiling_rounds_down dev_mem_sz :
  0 ≤ dev_mem_sz < 2 ^ 64 →
  malloc_ceiling dev_mem_sz = 1048576 * (dev_mem_sz / 3 / 1048576) ∧
  malloc_ceiling dev_mem_sz ≤ dev_mem_sz / 3 < malloc_ceiling dev_mem_sz + 1048576.
Proof.
  intros Hm.
  assert (malloc_ceiling dev_mem_sz = 1048576 * (dev_mem_sz / 3 / 1048576)) as ->.
  { unfold malloc_ceiling. rewrite to_size_t_id by done.
    change (to_size_t (Z.lnot (Z.shiftl 1 20 - 1))) with (Z.shiftl (Z.ones 44) 20).
    rewrite land_megabyte_mask.
    - rewrite Z.shiftl_mul_pow2, Z.shiftr_div_pow2 by lia.
      change (2 ^ 20) with 1048576. lia.
    - split; [apply Z.div_pos; lia|].
      apply Z.div_lt_upper_bound; lia. }
  split; [done|].
  pose proof (Z.mul_div_le (dev_mem_sz / 3) 1048576 ltac:(lia)).
  pose proof (Z.mul_succ_div_gt (dev_mem_sz / 3) 1048576 ltac:(lia)).
  lia.
Qed.

Lemma malloc_ceiling_rounds_down_witness :
  malloc_ceiling 1610612737 = 1048576 * (1610612737 / 3 / 1048576) ∧
  malloc_ceiling 1610612737 ≤ 1610612737 / 3 < malloc_ceiling 1610612737 + 1048576.
Proof.
  apply (malloc_ceiling_rounds_down 1610612737). lia.
Defined.


Section enumeration_runs.
Context (drv : Driver).
Hypothesis Hok : ∀ n c, drv_rc drv n c = CUDA_SUCCESS.



End enumeration_runs.



(** ** Task initialisation: the round robin *)

Section tasks.
Context (drv : Driver).

(** One successful [pgstrom_init_gputask]. *)
Lemma pgstrom_init_gputask_success gts task cbp cbr w s gc ctx :
  taskstates w !! gts = Some s →
  contexts w !! gts_gcontext s = Some gc →
  0 ≤ cur_context gc < INT_MAX → 0 < num_context gc →
  dev_context gc !! Z.to_nat (cur_context gc `rem` num_context gc) = Some ctx →
  drv_rc drv (cuda_clock w) CuCtxGetDevice = CUDA_SUCCESS →
  drv_rc drv (S (cuda_clock w)) (CuCtxSetCurrent ctx) = CUDA_SUCCESS →
  drv_rc drv (S (S (cuda_clock w))) (CuStreamCreate CU_STREAM_NON_BLOCKING)
  = CUDA_SUCCESS →
  pgstrom_init_gputask drv gts task cbp cbr w
  = ([EvCuda CuCtxGetDevice CUDA_SUCCESS;
      EvCuda (CuCtxSetCurrent ctx) CUDA_SUCCESS;
      EvCuda (CuStreamCreate CU_STREAM_NON_BLOCKING) CUDA_SUCCESS;
      EvSpinLockAcquire (gts_lock gts); EvSpinLockRelease (gts_lock gts)],
     set_taskstates
       (<[gts := gts_set_tracked_tasks (tracked_tasks s ++ [task]) s]> (taskstates w))
       (set_tasks
          (<[task := {| task_gts := Some gts;
                        cuda_stream := drv_stream drv (S (S (cuda_clock w)));
                        cuda_device := drv_current_device drv (cuda_clock w);
                        cuda_context := ctx;
                        cb_process := 0; cb_release := 0 |}]> (tasks w))
          (set_cuda_clock (S (S (S (cuda_clock w))))
             (set_contexts
                (<[gts_gcontext s := gc_set_cur_context (cur_context gc + 1) gc]>
                   (contexts w)) w))),
     Done tt).
Proof.
  intros Hs Hgc Hcur Hnum Hctx H1 H2 H3.
  unfold pgstrom_init_gputask.
  erewrite run_bind by (unfold deref_gts; by rewrite Hs). rewrite prefix_nil.
  rewrite (run_deref_gcontext _ gc) by done.
  rewrite run_int_result by (unfold INT_MIN; lia).
  rewrite (run_update_gcontext _ gc) by done.
  rewrite bool_decide_eq_false_2 by lia. simpl when. rewrite run_ret.
  rewrite (run_array_get _ _ ctx) by (try done; apply Z.rem_nonneg; lia).
  rewrite run_get_world, run_cuda. cbn [cuda_clock set_contexts set_cuda_clock].
  rewrite H1. simpl when.
  rewrite run_ret, run_cuda. cbn [cuda_clock set_contexts set_cuda_clock].
  rewrite H2. simpl when.
  rewrite run_ret, run_get_world, run_cuda. cbn [cuda_clock set_contexts set_cuda_clock].
  rewrite H3. simpl when.
  rewrite run_ret, run_modify. unfold SpinLockAcquire, SpinLockRelease.
  rewrite run_emit.
  erewrite run_bind; last first.
  { unfold update_gts. erewrite run_bind by (unfold deref_gts; simpl; by rewrite Hs).
    reflexivity. }
  reflexivity.
Qed.

Lemma pgstrom_init_gputask_sequence gts cbp cbr ts : ∀ w s gc,
  (∀ n c, drv_rc drv n c = CUDA_SUCCESS) →
  taskstates w !! gts = Some s →
  contexts w !! gts_gcontext s = Some gc →
  0 ≤ cur_context gc → cur_context gc + Z.of_nat (length ts) ≤ INT_MAX →
  0 < num_context gc → num_context gc = Z.of_nat (length (dev_context gc)) →
  ∃ t w',
    forM_ ts (λ task, pgstrom_init_gputask drv gts task cbp cbr) w
    = (t, w', Done tt) ∧
    contexts w' !! gts_gcontext s
    = Some (gc_set_cur_context (cur_context gc + Z.of_nat (length ts)) gc) ∧
    taskstates w' !! gts
    = Some (gts_set_tracked_tasks (tracked_tasks s ++ ts) s) ∧
    (∀ task, task ∉ ts → tasks w' !! task = tasks w !! task) ∧
    (NoDup ts → ∀ j task, ts !! j = Some task →
       cuda_context <$> tasks w' !! task
       = dev_context gc !! Z.to_nat ((cur_context gc + Z.of_nat j) `mod` num_context gc)).
Proof.
  induction ts as [|task ts IH]; intros w s gc Hok Hs Hgc Hcur Hmax Hnum Hlen.
  - exists [], w. split; [done|]. split_and!.
    + rewrite Hgc. f_equal. destruct gc; unfold gc_set_cur_context; simpl.
      f_equal. lia.
    + rewrite Hs. f_equal. destruct s; unfold gts_set_tracked_tasks; simpl.
      by rewrite app_nil_r.
    + done.
    + intros _ j task. by rewrite lookup_nil.
  - simpl length in Hmax.
    assert (0 ≤ cur_context gc `rem` num_context gc < num_context gc) as Hrem
      by (apply Z.rem_bound_pos; lia).
    destruct (lookup_lt_is_Some_2 (dev_context gc)
                (Z.to_nat (cur_context gc `rem` num_context gc))) as [ctx Hctx].
    { lia. }
    pose proof (pgstrom_init_gputask_success gts task cbp cbr w s gc ctx Hs Hgc
                  ltac:(lia) Hnum Hctx (Hok _ _) (Hok _ _) (Hok _ _)) as E1.
    match type of E1 with _ = (_, ?x, _) => set (w1 := x) in * end.
    destruct (IH w1 (gts_set_tracked_tasks (tracked_tasks s ++ [task]) s)
                (gc_set_cur_context (cur_context gc + 1) gc) Hok)
      as (t2 & w' & E2 & Hc' & Hs' & Ht' & Hrr).
    { unfold w1. simpl. apply lookup_insert_eq. }
    { unfold w1. simpl. apply lookup_insert_eq. }
    { simpl. lia. }
    { simpl. lia. }
    { done. }
    { done. }
    simpl in Hc', Hs', Hrr.
    eexists _, w'. split; [simpl; erewrite run_bind by exact E1; by rewrite E2|].
    split_and!.
    + rewrite Hc'. f_equal. unfold gc_set_cur_context. simpl. f_equal. lia.
    + rewrite Hs'. f_equal. unfold gts_set_tracked_tasks. simpl.
      by rewrite <- app_assoc.
    + intros task' Hnotin. apply not_elem_of_cons in Hnotin as [Hne Hnotin].
      rewrite Ht' by done. unfold w1. simpl. by rewrite lookup_insert_ne.
    + intros Hnodup [|j] task'; simpl.
      * intros [= <-]. apply NoDup_cons in Hnodup as [Hnotin _].
        rewrite Ht' by done. unfold w1. simpl. rewrite lookup_insert_eq. simpl.
        rewrite Z.add_0_r, <- Z.rem_mod_nonneg by lia. by rewrite Hctx.
      * intros Hj. apply NoDup_cons in Hnodup as [_ Hnodup].
        rewrite (Hrr Hnodup j task' Hj). do 3 f_equal. lia.
Qed.

End tasks.

(** X15.  Consecutive task initialisations under one task state, on a
    driver whose calls succeed, hand out the device sub-contexts of the
    context in round-robin order: the task initialised [j]-th after a cursor
    value [c] is bound to sub-context [(c + j) mod num_context].  The cursor
    ends advanced by the number of tasks, and the tasks are tracked by the
    task state in the order of their initialisation, after the ones tracked
    before. *)
Theorem init_gputask_round_robin drv gts cbp cbr ts w s gc :
  (∀ n c, drv_rc drv n c = CUDA_SUCCESS) →
  taskstates w !! gts = Some s →
  contexts w !! gts_gcontext s = Some gc →
  0 ≤ cur_context gc → cur_context gc + Z.of_nat (length ts) ≤ INT_MAX →
  0 < num_context gc → num_context gc = Z.of_nat (length (dev_context gc)) →
  NoDup ts →
  ∃ t w',
    forM_ ts (λ task, pgstrom_init_gputask drv gts task cbp cbr) w
    = (t, w', Done tt) ∧
    cur_context <$> contexts w' !! gts_gcontext s
    = Some (cur_context gc + Z.of_nat (length ts)) ∧
    tracked_tasks <$> taskstates w' !! gts = Some (tracked_tasks s ++ ts) ∧
    ∀ j task, ts !! j = Some task →
      cuda_context <$> tasks w' !! task
      = dev_context gc !! Z.to_nat ((cur_context gc + Z.of_nat j) `mod` num_context gc).
Proof.
  intros Hok Hs Hgc Hcur Hmax Hnum Hlen Hnodup.
  destruct (pgstrom_init_gputask_sequence drv gts cbp cbr ts w s gc
              Hok Hs Hgc Hcur Hmax Hnum Hlen)
    as (t & w' & E & Hc & Hs' & _ & Hrr).
  exists t, w'. split; [done|]. rewrite Hc, Hs'. split_and!; [done..|].
  by apply Hrr.
Qed.

Lemma init_gputask_round_robin_witness :
  ∃ t w',
    forM_ [20%positive; 21%positive; 22%positive]
      (λ task, pgstrom_init_gputask example_driver 5%positive task 0 0)
      teardown_world
    = (t, w', Done tt) ∧
    cur_context <$> contexts w' !! 1%positive = Some 4 ∧
    tracked_tasks <$> taskstates w' !! 5%positive
    = Some [9%positive; 20%positive; 21%positive; 22%positive] ∧
    cuda_context <$> tasks w' !! 20%positive = Some 12 ∧
    cuda_context <$> tasks w' !! 21%positive = Some 11 ∧
    cuda_context <$> tasks w' !! 22%positive = Some 12.
Proof.
  assert (NoDup [20%positive; 21%positive; 22%positive]) as Hnodup.
  { apply (bool_decide_unpack _). vm_compute. exact I. }
  assert (1 + Z.of_nat 3 ≤ INT_MAX) as Hmax by (unfold INT_MAX; lia).
  destruct (init_gputask_round_robin example_driver 5%positive 0 0
              [20%positive; 21%positive; 22%positive] teardown_world _ _
              (λ _ _, eq_refl) eq_refl eq_refl ltac:(simpl; lia) Hmax
              ltac:(simpl; lia) eq_refl Hnodup)
    as (t & w' & E & Hc & Hs & Hrr).
  exists t, w'. split_and!; [exact E|exact Hc|exact Hs|..].
  - exact (Hrr 0%nat _ eq_refl).
  - exact (Hrr 1%nat _ eq_refl).
  - exact (Hrr 2%nat _ eq_refl).
Defined.

(** ** Teardown: the cleanup callbacks *)

#[global] Instance same_callbacks_refl : Reflexive same_callbacks.
Proof. intros w p s Hp. eauto. Qed.
#[global] Instance same_callbacks_trans : Transitive same_callbacks.
Proof.
  intros w1 w2 w3 H12 H23 p s Hp.
  destruct (H12 p s Hp) as (s2 & Hp2 & Hc2).
  destruct (H23 p s2 Hp2) as (s3 & Hp3 & Hc3). exists s3. split; congruence.
Qed.

Lemma post_update_gts (Q : world → list event → world → Prop) p f :
  (∀ w s, taskstates w !! p = Some s →
          Q w [] (set_taskstates (<[p := f s]> (taskstates w)) w)) →
  (∀ w, Q w [] w) →
  post Q (update_gts p f).
Proof.
  intros Hupd Hnil w t w' o. unfold update_gts, mbind, M_bind, deref_gts.
  destruct (taskstates w !! p) as [s|] eqn:Hp; intros [= <- <- <-]; auto.
Qed.

Lemma cleanups_app t1 t2 : cleanups (t1 ++ t2) = cleanups t1 ++ cleanups t2.
Proof. apply omap_app. Qed.

Lemma cleanups_none t :
  Forall (λ e, ∀ cb p, e ≠ EvTaskStateCleanup cb p) t → cleanups t = [].
Proof.
  induction 1 as [|e t He _ IH]; [done|].
  unfold cleanups in *. simpl. destruct e; try done. by destruct (He cb gts).
Qed.

Section teardown_callbacks.
Context (drv : Driver).

Lemma release_taskstate_same_callbacks g is_commit p :
  post (keeps same_callbacks) (release_taskstate drv g is_commit p).
Proof.
  assert (∀ q f, (∀ s, cb_cleanup (f s) = cb_cleanup s) →
                 post (keeps same_callbacks) (update_gts q f)) as Hupd.
  { intros q f Hf. apply post_update_gts; [|intros w; unfold keeps; reflexivity].
    intros w s Hq. unfold keeps. intros r sr Hr. simpl.
    destruct (decide (r = q)) as [->|Hne].
    - rewrite lookup_insert_eq. eexists. split; [done|]. rewrite Hf. congruence.
    - rewrite lookup_insert_ne by done. eauto. }
  unfold release_taskstate, release_task, update_gcontext.
  post_auto ltac:(unfold keeps, same_callbacks; simpl; eauto);
    apply Hupd; by intros [].
Qed.

Lemma release_taskstate_cleanups g is_commit p w t w' s :
  taskstates w !! p = Some s →
  release_taskstate drv g is_commit p w = (t, w', Done tt) →
  cleanups t = if bool_decide (cb_cleanup s = 0) then [] else [(cb_cleanup s, p)].
Proof.
  intros Hp. unfold release_taskstate.
  erewrite run_bind by (unfold deref_gts; by rewrite Hp). rewrite prefix_nil.
  intros (t1 & w1 & [] & ? & E1 & H & ->)%bind_done_inv.
  apply bind_done_inv in H as (t2 & w2 & [] & ? & E2 & H & ->).
  apply bind_done_inv in H as (t3 & w3 & [] & ? & E3 & H & ->).
  apply bind_done_inv in H as (t4 & w4 & [] & t5 & E4 & H & ->).
  rewrite !cleanups_app.
  rewrite (cleanups_none t1), (cleanups_none t2), (cleanups_none t3),
    (cleanups_none t4).
  1: { simpl. revert H. destruct (bool_decide (cb_cleanup s = 0)); simpl;
         unfold mret, M_ret, emit; intros ?; by simplify_eq. }
  all: match goal with
       | E : ?m _ = (?t, _, _) |- Forall _ ?t =>
           let Hq := fresh in
           assert (post (emits quiet) m) as Hq;
           [unfold release_task, update_gts, update_gcontext;
            post_auto ltac:(unfold emits; repeat constructor; by unfold quiet)
           |exact (Hq _ _ _ _ E)]
       end.
Qed.

Lemma release_taskstates_cleanups g T SL is_commit w0 l : ∀ w,
  teardown_inv g T SL w0 → teardown_inv g T SL w → same_callbacks w0 w →
  Forall (λ p, p ∈ SL) l →
  ∃ t w', forM_ l (release_taskstate drv g is_commit) w = (t, w', Done tt) ∧
          teardown_inv g T SL w' ∧ same_callbacks w0 w' ∧
          cleanups t = omap (cleanup_of w0) l.
Proof.
  induction l as [|p l IH]; intros w Hinv0 Hinv Hcb Hl; simpl.
  - by exists [], w.
  - inversion Hl as [|? ? Hp Hl']; subst.
    destruct (total_release_taskstate drv g T SL is_commit p Hp w Hinv)
      as (t1 & w1 & [] & E1 & Hinv1 & _).
    pose proof (release_taskstate_same_callbacks g is_commit p _ _ _ _ E1) as Hcb1.
    unfold keeps in Hcb1.
    destruct (IH w1 Hinv0 Hinv1 ltac:(by etrans) Hl')
      as (t2 & w2 & E2 & Hinv2 & Hcb2 & Hc2).
    exists (t1 ++ t2), w2. split; [erewrite run_bind by exact E1; by rewrite E2|].
    split_and!; [done..|].
    rewrite cleanups_app, Hc2. f_equal.
    destruct Hinv0 as (_ & _ & HSL0). rewrite Forall_forall in HSL0.
    destruct (HSL0 p Hp) as (s0 & Hs0 & _).
    destruct (Hcb p s0 Hs0) as (s & Hs & Hcs).
    rewrite (release_taskstate_cleanups g is_commit p w t1 w1 s Hs E1).
    unfold cleanup_of. rewrite Hs0. simpl. rewrite Hcs.
    by case_bool_decide.
Qed.

Lemma pgstrom_release_gpucontext_cleanups g gc is_commit w :
  teardown_ready g gc w →
  ∃ t w', pgstrom_release_gpucontext drv g is_commit w = (t, w', Done tt) ∧
          cleanups t = omap (cleanup_of w) (state_list gc).
Proof.
  intros (Hgc & Hnum & Hready).
  destruct (pgstrom_sync_gpucontext_calls drv g gc w Hgc Hnum)
    as (t_drain & w1 & Esync & _).
  pose proof (pgstrom_sync_gpucontext_same_heap drv g _ _ _ _ Esync)
    as (Hc1 & Hs1 & Ht1).
  assert (teardown_inv g (tasks w) (state_list gc) w1) as Hinv.
  { split_and!; [done|by rewrite Hc1, Hgc|].
    eapply Forall_impl; [exact Hready|]. intros p Hp. unfold gts_ready in Hp.
    rewrite Hs1. destruct (taskstates w !! p) as [s|]; [by exists s|done]. }
  destruct (release_taskstates_cleanups g (tasks w) (state_list gc) is_commit w1
              (state_list gc) w1 Hinv Hinv ltac:(done))
    as (t2 & w2 & E2 & Hinv2 & _ & Hc2).
  { by apply Forall_forall. }
  destruct (total_forM_ _ (pds_list gc) _
              (λ pds _, total_release_data_store g (tasks w) (state_list gc) pds)
              w2 Hinv2)
    as (t3 & w3 & [] & E3 & Hinv3 & _).
  destruct (total_destroy_dev_contexts drv g (tasks w) (state_list gc) gc Hnum
              w3 Hinv3)
    as (t4 & w4 & [] & E4 & Hinv4 & _).
  do 2 eexists. split.
  - unfold pgstrom_release_gpucontext.
    erewrite run_bind by exact Esync.
    rewrite (run_deref_gcontext _ gc) by by rewrite Hc1.
    erewrite run_bind by exact E2. erewrite run_bind by exact E3.
    erewrite run_bind by exact E4. simpl. reflexivity.
  - rewrite !cleanups_app, Hc2.
    rewrite (cleanups_none t_drain), (cleanups_none t3), (cleanups_none t4).
    + simpl. rewrite app_nil_r. unfold cleanup_of. by rewrite Hs1.
    + revert E4. unfold destroy_dev_contexts. intros E4.
      match goal with
      | E : ?m _ = (t4, _, _) |- _ =>
          assert (post (emits quiet) m) as Hq
            by post_auto ltac:(unfold emits; repeat constructor; by unfold quiet);
          exact (Hq _ _ _ _ E)
      end.
    + match goal with
      | E : ?m _ = (t3, _, _) |- _ =>
          assert (post (emits quiet) m) as Hq
            by (unfold release_data_store, update_gcontext;
                post_auto ltac:(unfold emits; repeat constructor; by unfold quiet));
          exact (Hq _ _ _ _ E)
      end.
    + match goal with
      | E : ?m _ = (t_drain, _, _) |- _ =>
          assert (post (emits quiet) m) as Hq
            by (unfold pgstrom_sync_gpucontext;
                post_auto ltac:(unfold emits; repeat constructor; by unfold quiet));
          exact (Hq _ _ _ _ E)
      end.
Qed.

End teardown_callbacks.

(** X16.  Teardown of a context that is ready for it invokes the cleanup
    callback of the task states of the context in the order of its list of
    task states, one invocation per entry of the list, and skips the task
    states whose callback is [NULL]; no other cleanup callback is invoked. *)
Theorem teardown_runs_cleanup_callbacks_in_order drv g gc is_commit w :
  teardown_ready g gc w →
  ∃ t w', pgstrom_release_gpucontext drv g is_commit w = (t, w', Done tt) ∧
          cleanups t = omap (cleanup_of w) (state_list gc).
Proof. apply pgstrom_release_gpucontext_cleanups. Qed.

Lemma teardown_runs_cleanup_callbacks_in_order_witness :
  ∃ t w', pgstrom_release_gpucontext failing_driver 1%positive true teardown_world
          = (t, w', Done tt) ∧
          cleanups t = [(31, 5%positive)].
Proof.
  destruct teardown_world_ready as [gc Hready].
  destruct (teardown_runs_cleanup_callbacks_in_order failing_driver 1%positive gc
              true teardown_world Hready) as (t & w' & E & Hc).
  destruct Hready as (Hgc & _). injection Hgc as <-.
  exists t, w'. split; [exact E|exact Hc].
Defined.

(** ** Teardown: what it requires *)

#[global] Instance same_tasks_refl p : Reflexive (same_tasks p).
Proof. by intros w. Qed.
#[global] Instance same_tasks_trans p : Transitive (same_tasks p).
Proof.
  intros w1 w2 w3 [Ht1 Hs1] [Ht2 Hs2]. split; [congruence|].
  intros q Hq. by rewrite Hs2, Hs1.
Qed.

Section teardown_necessary.
Context (drv : Driver).

Lemma release_taskstate_same_tasks g is_commit p :
  post (keeps (same_tasks p)) (release_taskstate drv g is_commit p).
Proof.
  unfold release_taskstate, release_task, update_gcontext, update_gts.
  post_auto ltac:(unfold keeps; split; [done|]; intros q Hq; simpl;
                  by rewrite ?lookup_insert_ne).
Qed.

Lemma release_task_done p is_commit tp w t w' :
  release_task p is_commit tp w = (t, w', Done tt) →
  task_ready (tasks w) tp.
Proof.
  unfold release_task, task_ready.
  intros (t1 & w1 & task & t2 & E1 & H & ->)%bind_done_inv.
  revert E1. unfold deref_task. destruct (tasks w !! tp) as [task'|]; [|done].
  intros [= <- <- <-].
  apply bind_done_inv in H as (t3 & w3 & [] & t4 & _ & H & ->).
  apply bind_done_inv in H as (t5 & w5 & [] & t6 & _ & H & ->).
  revert H. by case_bool_decide.
Qed.

Lemma release_tasks_done p is_commit l : ∀ w t w',
  forM_ l (release_task p is_commit) w = (t, w', Done tt) →
  Forall (task_ready (tasks w)) l.
Proof.
  induction l as [|tp l IH]; intros w t w'; simpl; [done|].
  intros (t1 & w1 & [] & t2 & E1 & E2 & ->)%bind_done_inv.
  constructor; [by eapply release_task_done|].
  assert (tasks w1 = tasks w) as <-; [|by eapply IH].
  assert (post (keeps (same_tasks p)) (release_task p is_commit tp)) as Hq.
  { unfold release_task, update_gts.
    post_auto ltac:(unfold keeps; split; [done|]; intros q Hq; simpl;
                    by rewrite ?lookup_insert_ne). }
  by destruct (Hq _ _ _ _ E1).
Qed.

Lemma unload_module_same_tasks p s :
  post (keeps (same_tasks p))
    (when (negb (bool_decide (cuda_module s = 0)))
       (rc ← cuda drv (CuModuleUnload (cuda_module s));
        when (failed rc) (elog WARNING "failed on cuModuleUnload: %s") ;;
        update_gts p (gts_set_cuda_module 0))).
Proof.
  unfold update_gts.
  post_auto ltac:(unfold keeps; split; [done|]; intros q Hq; simpl;
                  by rewrite ?lookup_insert_ne).
Qed.

Lemma release_taskstate_done g is_commit p w t w' :
  release_taskstate drv g is_commit p w = (t, w', Done tt) →
  gts_ready w p.
Proof.
  unfold release_taskstate, gts_ready.
  intros (t1 & w1 & s & t2 & E1 & H & ->)%bind_done_inv.
  revert E1. unfold deref_gts. destruct (taskstates w !! p) as [s'|]; [|done].
  intros [= <- <- <-].
  apply bind_done_inv in H as (t3 & w3 & [] & t4 & E3 & H & ->).
  apply bind_done_inv in H as (t5 & w5 & [] & t6 & E5 & H & ->).
  apply bind_done_inv in H as (t7 & w7 & [] & t8 & E7 & _ & ->).
  apply release_tasks_done in E7.
  assert (tasks w5 = tasks w) as <-; [|done].
  assert (tasks w3 = tasks w) as <-.
  { revert E3. unfold update_gcontext.
    intros (? & ? & ? & ? & Hd & Hm & _)%bind_done_inv.
    revert Hd. unfold deref_gcontext. destruct (_ !! _); [|done].
    intros [= <- <- <-]. unfold modify in Hm. by simplify_eq. }
  by destruct (unload_module_same_tasks p _ _ _ _ _ E5).
Qed.

Lemma release_taskstates_done g is_commit l : ∀ w t w',
  forM_ l (release_taskstate drv g is_commit) w = (t, w', Done tt) →
  Forall (gts_ready w) l.
Proof.
  induction l as [|p l IH]; intros w t w'; simpl; [done|].
  intros (t1 & w1 & [] & t2 & E1 & E2 & ->)%bind_done_inv.
  pose proof (release_taskstate_done g is_commit p _ _ _ E1) as Hp.
  constructor; [done|].
  destruct (release_taskstate_same_tasks g is_commit p _ _ _ _ E1) as [Ht Hs].
  specialize (IH _ _ _ E2).
  rewrite Forall_forall in IH |- *. intros q Hq. specialize (IH q Hq).
  destruct (decide (q = p)) as [->|Hne]; [done|].
  unfold gts_ready in *. by rewrite Ht, Hs in IH.
Qed.

Lemma pgstrom_release_gpucontext_done_ready g is_commit w t w' :
  pgstrom_release_gpucontext drv g is_commit w = (t, w', Done tt) →
  ∃ gc, contexts w !! g = Some gc ∧ Forall (gts_ready w) (state_list gc).
Proof.
  unfold pgstrom_release_gpucontext.
  intros (t1 & w1 & [] & t2 & E1 & H & ->)%bind_done_inv.
  pose proof (pgstrom_sync_gpucontext_same_heap drv g _ _ _ _ E1) as (Hc1 & Hs1 & Ht1).
  apply bind_done_inv in H as (t3 & w3 & gc & t4 & E3 & H & ->).
  assert (contexts w !! g = Some gc ∧ w3 = w1) as [Hgc ->].
  { revert E3. unfold deref_gcontext. rewrite Hc1.
    destruct (contexts w !! g); [|done]. by intros [= <- <- <-]. }
  apply bind_done_inv in H as (t5 & w5 & [] & t6 & E5 & _ & ->).
  apply release_taskstates_done in E5.
  exists gc. split; [done|].
  eapply Forall_impl; [exact E5|]. intros p. unfold gts_ready. by rewrite Hs1, Ht1.
Qed.

End teardown_necessary.

(** X17.  Teardown raises no error and needs no fuel: it returns or it is
    undefined.  It returns only if the context is a live object, every task
    state in its list is a live object, and every task those track is a live
    object with a release callback. *)
Theorem teardown_returns_only_when_ready drv g is_commit w :
  match (pgstrom_release_gpucontext drv g is_commit w).2 with
  | Done _ =>
      ∃ gc, contexts w !! g = Some gc ∧ Forall (gts_ready w) (state_list gc)
  | Undef => True
  | Raised _ | OutOfFuel => False
  end.
Proof.
  destruct (pgstrom_release_gpucontext drv g is_commit w) as [[t w'] o] eqn:E.
  pose proof (pgstrom_release_gpucontext_ends drv g is_commit _ _ _ _ E) as Ho.
  destruct o as [[]| | |]; simpl in *; try done.
  by eapply pgstrom_release_gpucontext_done_ready.
Qed.

(** X18.  [pgstrom_init_gputask] stores neither of the callbacks it is
    handed: the task it initialised and appended to the tracked tasks has no
    release callback.  When its task state is in the list of its context,
    the teardown of that context is then undefined: it calls the release
    callback of every tracked task. *)
Theorem init_gputask_then_teardown_undefined
    drv gts task cbp cbr is_commit w s gc ctx :
  taskstates w !! gts = Some s →
  contexts w !! gts_gcontext s = Some gc →
  gts ∈ state_list gc →
  0 ≤ cur_context gc < INT_MAX → 0 < num_context gc →
  dev_context gc !! Z.to_nat (cur_context gc `rem` num_context gc) = Some ctx →
  drv_rc drv (cuda_clock w) CuCtxGetDevice = CUDA_SUCCESS →
  drv_rc drv (S (cuda_clock w)) (CuCtxSetCurrent ctx) = CUDA_SUCCESS →
  drv_rc drv (S (S (cuda_clock w))) (CuStreamCreate CU_STREAM_NON_BLOCKING)
  = CUDA_SUCCESS →
  ∃ t w',
    pgstrom_init_gputask drv gts task cbp cbr w = (t, w', Done tt) ∧
    cb_release <$> tasks w' !! task = Some 0 ∧
    cb_process <$> tasks w' !! task = Some 0 ∧
    (pgstrom_release_gpucontext drv (gts_gcontext s) is_commit w').2 = Undef.
Proof.
  intros Hs Hgc Hin Hcur Hnum Hctx H1 H2 H3.
  rewrite (pgstrom_init_gputask_success drv gts task cbp cbr w s gc ctx) by done.
  eexists _, _. split; [reflexivity|].
  match goal with |- context [tasks ?x] => set (w' := x) end.
  assert (tasks w' !! task
          = Some {| task_gts := Some gts;
                    cuda_stream := drv_stream drv (S (S (cuda_clock w)));
                    cuda_device := drv_current_device drv (cuda_clock w);
                    cuda_context := ctx; cb_process := 0; cb_release := 0 |}) as Htask.
  { unfold w'. simpl. apply lookup_insert_eq. }
  assert (taskstates w' !! gts
          = Some (gts_set_tracked_tasks (tracked_tasks s ++ [task]) s)) as Hgts.
  { unfold w'. simpl. apply lookup_insert_eq. }
  assert (contexts w' !! gts_gcontext s
          = Some (gc_set_cur_context (cur_context gc + 1) gc)) as Hgc1.
  { unfold w'. simpl. apply lookup_insert_eq. }
  clearbody w'. rewrite Htask. split_and!; [done..|].
  destruct (pgstrom_release_gpucontext drv (gts_gcontext s) is_commit w')
    as [[t2 w2] o] eqn:E.
  pose proof (pgstrom_release_gpucontext_ends drv _ is_commit _ _ _ _ E) as Ho.
  destruct o as [[]| | |]; try done.
  exfalso.
  apply pgstrom_release_gpucontext_done_ready in E as (gc' & Hgc' & Hready).
  rewrite Hgc1 in Hgc'. injection Hgc' as <-.
  simpl in Hready. rewrite Forall_forall in Hready. specialize (Hready gts Hin).
  unfold gts_ready in Hready. rewrite Hgts in Hready. simpl in Hready.
  rewrite Forall_app, Forall_singleton in Hready. destruct Hready as [_ Hready].
  unfold task_ready in Hready.
  rewrite Htask in Hready. by simpl in Hready.
Qed.

Lemma init_gputask_then_teardown_undefined_witness :
  ∃ t w',
    pgstrom_init_gputask example_driver 5%positive 10%positive 31 32 teardown_world
    = (t, w', Done tt) ∧
    cb_release <$> tasks w' !! 10%positive = Some 0 ∧
    cb_process <$> tasks w' !! 10%positive = Some 0 ∧
    (pgstrom_release_gpucontext example_driver 1%positive true w').2 = Undef.
Proof.
  assert (0 ≤ 1 < INT_MAX) as Hcur by (unfold INT_MAX; lia).
  assert (0 < 2) as Hnum by lia.
  assert (5%positive ∈ [5%positive]) as Hin by (by left).
  exact (init_gputask_then_teardown_undefined example_driver 5%positive
           10%positive 31 32 true teardown_world _ _ 12 eq_refl eq_refl Hin
           Hcur Hnum eq_refl eq_refl eq_refl eq_refl).
Defined.

Lemma omap_ext_Forall {A B} (f g : A → option B) l :
  Forall (λ x, f x = g x) l → omap f l = omap g l.
Proof.
  induction 1 as [|x l Hx _ IH]; [done|]. csimpl. by rewrite Hx, IH.
Qed.

(** X19.  A task state registered with [pgstrom_init_gputaststate] without
    kernel source is appended to the list of its context, bound to the
    context, with empty task lists and the cleanup callback it was handed;
    its [cuda_module] field is left as the caller's storage held it.  The
    teardown of the context then returns, and invokes the cleanup callbacks
    of the task states registered before, followed by the one just
    registered. *)
Theorem registered_taskstate_is_cleaned_up
    load drv g gc gts s extra cb is_commit w :
  teardown_ready g gc w → taskstates w !! gts = Some s → gts ∉ state_list gc →
  ∃ w1,
    pgstrom_init_gputaststate load g gts 0 extra cb w = ([], w1, Done tt) ∧
    state_list <$> contexts w1 !! g = Some (state_list gc ++ [gts]) ∧
    taskstates w1 !! gts
    = Some {| gts_gcontext := g; kern_source := 0; extra_flags := extra;
              cuda_module := cuda_module s; tracked_tasks := [];
              running_tasks := []; pending_tasks := []; completed_tasks := [];
              cb_cleanup := cb |} ∧
    ∃ t w',
      pgstrom_release_gpucontext drv g is_commit w1 = (t, w', Done tt) ∧
      cleanups t = omap (cleanup_of w) (state_list gc)
                   ++ (if bool_decide (cb = 0) then [] else [(cb, gts)]).
Proof.
  intros (Hgc & Hnum & Hready) Hs Hnotin.
  unfold pgstrom_init_gputaststate.
  rewrite (run_update_gcontext _ gc) by done.
  erewrite run_bind by (unfold deref_gts; simpl; by rewrite Hs).
  rewrite prefix_nil, run_modify.
  rewrite bool_decide_eq_true_2 by done. simpl when.
  eexists. split; [reflexivity|].
  match goal with |- context [contexts ?x] => set (w1 := x) end.
  assert (contexts w1 !! g = Some (gc_set_state_list (state_list gc ++ [gts]) gc)) as Hgc1.
  { unfold w1. simpl. apply lookup_insert_eq. }
  assert (taskstates w1 !! gts
          = Some {| gts_gcontext := g; kern_source := 0; extra_flags := extra;
                    cuda_module := cuda_module s; tracked_tasks := [];
                    running_tasks := []; pending_tasks := []; completed_tasks := [];
                    cb_cleanup := cb |}) as Hs1.
  { unfold w1. simpl. apply lookup_insert_eq. }
  assert (∀ p, p ≠ gts → taskstates w1 !! p = taskstates w !! p) as Hothers.
  { intros p Hp. unfold w1. simpl. by rewrite lookup_insert_ne. }
  assert (tasks w1 = tasks w) as Ht1 by done.
  clearbody w1. rewrite Hgc1, Hs1. split_and!; [done..|].
  assert (teardown_ready g (gc_set_state_list (state_list gc ++ [gts]) gc) w1) as Hready1.
  { split_and!; [done|done|]. simpl. apply Forall_app. split.
    - rewrite Forall_forall in Hready |- *. intros p Hp.
      specialize (Hready p Hp). unfold gts_ready in *.
      rewrite Hothers, Ht1; [done|]. by intros ->.
    - apply Forall_singleton. unfold gts_ready. rewrite Hs1. simpl. constructor. }
  destruct (pgstrom_release_gpucontext_cleanups drv g _ is_commit w1 Hready1)
    as (t & w' & E & Hc).
  exists t, w'. split; [done|]. rewrite Hc. simpl. rewrite omap_app. f_equal.
  - apply omap_ext_Forall, Forall_forall. intros p Hp. unfold cleanup_of.
    rewrite Hothers; [done|]. by intros ->.
  - simpl. unfold cleanup_of. rewrite Hs1. simpl. by case_bool_decide.
Qed.

Lemma registered_taskstate_is_cleaned_up_witness :
  ∃ w1 t w',
    pgstrom_init_gputaststate (λ _, mret tt) 1%positive 6%positive 0 0 41
      (set_taskstates (<[6%positive :=
          {| gts_gcontext := 1%positive; kern_source := 0; extra_flags := 0;
             cuda_module := 0; tracked_tasks := []; running_tasks := [];
             pending_tasks := []; completed_tasks := []; cb_cleanup := 0 |}]>
          (taskstates teardown_world)) teardown_world)
    = ([], w1, Done tt) ∧
    state_list <$> contexts w1 !! 1%positive = Some [5%positive; 6%positive] ∧
    pgstrom_release_gpucontext example_driver 1%positive false w1
    = (t, w', Done tt) ∧
    cleanups t = [(31, 5%positive); (41, 6%positive)].
Proof.
  set (w := set_taskstates _ teardown_world).
  assert (teardown_ready 1%positive
            {| refcnt := 0; resowner := 4242; memcxt := 1;
               state_list := [5%positive];
               pds_list := [ {| kds_fname := Some "/dev/shm/kds" |} ];
               num_context := 2; cur_context := 1;
               dev_context := [11; 12] |} w) as Hready.
  { split_and!; [reflexivity..|].
    repeat constructor. vm_compute. repeat constructor. discriminate. }
  assert (6%positive ∉ [5%positive]) as Hnotin.
  { intros Hin. apply list_elem_of_singleton in Hin. discriminate. }
  destruct (registered_taskstate_is_cleaned_up (λ _, mret tt) example_driver
              1%positive _ 6%positive _ 0 41 false w Hready eq_refl Hnotin)
    as (w1 & E1 & Hsl & _ & t & w' & E2 & Hc).
  exists w1, t, w'. split_and!; [exact E1|exact Hsl|exact E2|exact Hc].
Defined.

(** ** Device introspection: the rows *)

Section device_info.
Context (drv : Driver).

(** The function on an initialised runtime, at a call counter inside the
    rows of a device the backend uses. *)
Lemma pgstrom_device_info_row w call_cntr device :
  0 ≤ cuda_num_devices w → 0 ≤ call_cntr →
  call_cntr / 44 < cuda_num_devices w →
  cuda_devices w !! Z.to_nat (call_cntr / 44) = Some device →
  pgstrom_device_info drv call_cntr w
  = (if bool_decide (call_cntr `mod` 44 = 0) then
       rc ← cuda drv (CuDeviceGetName device);
       when (failed rc) (elog ERROR "failed on cuDeviceGetName: %s") ;;
       mret (Some (call_cntr / 44, "Device name", drv_device_name drv device))
     else if bool_decide (call_cntr `mod` 44 = 1) then
       rc ← cuda drv (CuDeviceTotalMem device);
       when (failed rc) (elog ERROR "failed on cuDeviceTotalMem: %s") ;;
       mret (Some (call_cntr / 44, "Total global memory size",
                   pretty (Z.shiftr (drv_total_mem drv device) 20) +:+ " MBytes"))
     else
       '(attrib, attname, attkind) ← array_get catalog (call_cntr `mod` 44);
       property ← cuDeviceGetAttribute drv attrib device
                    "failed on cuDeviceGetAttribute: %s";
       att_value ← format_att_value attkind property;
       mret (Some (call_cntr / 44, attname, att_value))) w.
Proof.
  intros Hn Hc Hd Hdev. unfold pgstrom_device_info.
  change (Z.of_nat (length catalog) + 2) with 44.
  rewrite run_get_world.
  rewrite (bool_decide_eq_false_2 (cuda_num_devices w < 0)) by lia. simpl when.
  rewrite run_ret, run_get_world.
  rewrite (bool_decide_eq_false_2 (cuda_num_devices w ≤ _)) by lia.
  by rewrite (run_array_get _ _ device) by (try done; by apply Z.div_pos).
Qed.

End device_info.

(** X21.  On an initialised runtime, [pgstrom_device_info] ends the set
    ([SRF_RETURN_DONE]) without calling the driver at every call counter from
    [44 * cuda_num_devices] on.  Below that, the row at a call counter that
    is a multiple of 44 shows the name of the device, and the next row its
    memory in units of [2^20] bytes; the first column of both is the position
    of the device among the usable devices. *)
Theorem device_info_special_rows drv w call_cntr :
  0 ≤ cuda_num_devices w → 0 ≤ call_cntr →
  (cuda_num_devices w ≤ call_cntr / 44 →
   pgstrom_device_info drv call_cntr w = ([], w, Done None)) ∧
  (∀ device,
     call_cntr / 44 < cuda_num_devices w →
     cuda_devices w !! Z.to_nat (call_cntr / 44) = Some device →
     (call_cntr `mod` 44 = 0 →
      drv_rc drv (cuda_clock w) (CuDeviceGetName device) = CUDA_SUCCESS →
      pgstrom_device_info drv call_cntr w
      = ([EvCuda (CuDeviceGetName device) CUDA_SUCCESS],
         set_cuda_clock (S (cuda_clock w)) w,
         Done (Some (call_cntr / 44, "Device name", drv_device_name drv device)))) ∧
     (call_cntr `mod` 44 = 1 →
      drv_rc drv (cuda_clock w) (CuDeviceTotalMem device) = CUDA_SUCCESS →
      pgstrom_device_info drv call_cntr w
      = ([EvCuda (CuDeviceTotalMem device) CUDA_SUCCESS],
         set_cuda_clock (S (cuda_clock w)) w,
         Done (Some (call_cntr / 44, "Total global memory size",
                     pretty (Z.shiftr (drv_total_mem drv device) 20)
                     +:+ " MBytes"))))).
Proof.
  intros Hn Hc. split.
  - intros Hd. unfold pgstrom_device_info.
    change (Z.of_nat (length catalog) + 2) with 44.
    rewrite run_get_world.
    rewrite (bool_decide_eq_false_2 (cuda_num_devices w < 0)) by lia. simpl when.
    rewrite run_ret, run_get_world.
    by rewrite (bool_decide_eq_true_2 (cuda_num_devices w ≤ _)) by lia.
  - intros device Hd Hdev. split; intros Ha Hrc;
      rewrite (pgstrom_device_info_row drv w call_cntr device) by done.
    + rewrite bool_decide_eq_true_2 by done.
      rewrite run_cuda, Hrc. simpl when. by rewrite run_ret.
    + rewrite bool_decide_eq_false_2, bool_decide_eq_true_2 by lia.
      rewrite run_cuda, Hrc. simpl when. by rewrite run_ret.
Qed.

Lemma device_info_special_rows_witness :
  pgstrom_device_info example_driver 44 initialised_world
  = ([], initialised_world, Done None) ∧
  pgstrom_device_info example_driver 0 initialised_world
  = ([EvCuda (CuDeviceGetName 1) CUDA_SUCCESS],
     set_cuda_clock (S (cuda_clock initialised_world)) initialised_world,
     Done (Some (0, "Device name", "Kepler"))) ∧
  pgstrom_device_info example_driver 1 initialised_world
  = ([EvCuda (CuDeviceTotalMem 1) CUDA_SUCCESS],
     set_cuda_clock (S (cuda_clock initialised_world)) initialised_world,
     Done (Some (0, "Total global memory size", "12288 MBytes"))).
Proof.
  assert (0 ≤ cuda_num_devices initialised_world) as Hn by (vm_compute; discriminate).
  assert (0 ≤ 44) as H44 by lia. assert (0 ≤ 0) as H0 by lia.
  assert (0 ≤ 1) as H1 by lia.
  destruct (device_info_special_rows example_driver initialised_world 44 Hn H44)
    as [Hend _].
  destruct (device_info_special_rows example_driver initialised_world 0 Hn H0)
    as [_ Hrow0].
  destruct (device_info_special_rows example_driver initialised_world 1 Hn H1)
    as [_ Hrow1].
  split_and!.
  - apply Hend. vm_compute. discriminate.
  - apply (Hrow0 1); reflexivity.
  - apply (Hrow1 1); reflexivity.
Defined.

(** X22.  On an initialised runtime, a row whose attribute index (the call
    counter modulo 44) is 2 or more, and inside the catalog, queries the
    attribute of the catalog entry at that very index and shows the name of
    that entry.  The value is shown by the kind of the entry: as [True] or
    [False], as a decimal number, in units of 1024 or of 1000 (rounded toward
    zero), or in bits.  For the kind [DEVATTR_COMP_MODE] no value is assigned
    before it is read, and the row is undefined. *)
Theorem device_info_catalog_rows drv w call_cntr device attrib attname attkind :
  0 ≤ cuda_num_devices w → 0 ≤ call_cntr →
  call_cntr / 44 < cuda_num_devices w →
  cuda_devices w !! Z.to_nat (call_cntr / 44) = Some device →
  2 ≤ call_cntr `mod` 44 →
  catalog !! Z.to_nat (call_cntr `mod` 44) = Some (attrib, attname, attkind) →
  drv_rc drv (cuda_clock w) (CuDeviceGetAttribute attrib device) = CUDA_SUCCESS →
  let property := drv_device_attr drv attrib device in
  ∃ o,
    pgstrom_device_info drv call_cntr w
    = ([EvCuda (CuDeviceGetAttribute attrib device) CUDA_SUCCESS],
       set_cuda_clock (S (cuda_clock w)) w, o) ∧
    (attkind = DEVATTR_BOOL →
     o = Done (Some (call_cntr / 44, attname,
                     if property =? 0 then "False" else "True"))) ∧
    (attkind = DEVATTR_INT →
     o = Done (Some (call_cntr / 44, attname, pretty property))) ∧
    (attkind = DEVATTR_KB →
     o = Done (Some (call_cntr / 44, attname,
                     pretty (property ÷ 1024) +:+ " KBytes"))) ∧
    (attkind = DEVATTR_MHZ →
     o = Done (Some (call_cntr / 44, attname,
                     pretty (property ÷ 1000) +:+ " MHz"))) ∧
    (attkind = DEVATTR_BITS →
     o = Done (Some (call_cntr / 44, attname, pretty property +:+ " bits"))) ∧
    (attkind = DEVATTR_COMP_MODE → o = Undef).
Proof.
  intros Hn Hc Hd Hdev Ha Hcat Hrc property.
  rewrite (pgstrom_device_info_row drv w call_cntr device) by done.
  rewrite !bool_decide_eq_false_2 by lia.
  rewrite (run_array_get _ _ (attrib, attname, attkind)) by (done || lia).
  unfold cuDeviceGetAttribute.
  rewrite !run_assoc, run_cuda, Hrc. simpl when. rewrite run_assoc, run_ret, run_ret.
  fold property.
  destruct (format_att_value attkind property
              (set_cuda_clock (S (cuda_clock w)) w)) as [[tf wf] ov] eqn:Ef.
  assert (tf = [] ∧ wf = set_cuda_clock (S (cuda_clock w)) w ∧
          (attkind = DEVATTR_BOOL →
           ov = Done (if property =? 0 then "False" else "True")) ∧
          (attkind = DEVATTR_INT → ov = Done (pretty property)) ∧
          (attkind = DEVATTR_KB → ov = Done (pretty (property ÷ 1024) +:+ " KBytes")) ∧
          (attkind = DEVATTR_MHZ → ov = Done (pretty (property ÷ 1000) +:+ " MHz")) ∧
          (attkind = DEVATTR_BITS → ov = Done (pretty property +:+ " bits")) ∧
          (attkind = DEVATTR_COMP_MODE → ov = Undef) ∧
          (1 ≤ attkind ≤ 6)) as (-> & -> & Hb & Hi & Hk & Hm & Hbits & Hcm & Hrange).
  { assert (1 ≤ attkind ≤ 6) as Hrange.
    { assert (Forall (λ e, 1 ≤ e.2 ≤ 6) catalog) as Hall
        by (repeat constructor; vm_compute; discriminate).
      rewrite Forall_forall in Hall.
      apply (Hall (attrib, attname, attkind)). by eapply list_elem_of_lookup_2. }
    revert Ef. unfold format_att_value, DEVATTR_BOOL, DEVATTR_INT, DEVATTR_KB,
      DEVATTR_MHZ, DEVATTR_COMP_MODE, DEVATTR_BITS in *.
    destruct (Z.eqb_spec attkind 1) as [->|?];
      [intros [= <- <- <-]; split_and!; done|].
    destruct (Z.eqb_spec attkind 2) as [->|?];
      [intros [= <- <- <-]; split_and!; done|].
    destruct (Z.eqb_spec attkind 3) as [->|?];
      [intros [= <- <- <-]; split_and!; done|].
    destruct (Z.eqb_spec attkind 4) as [->|?];
      [intros [= <- <- <-]; split_and!; done|].
    destruct (Z.eqb_spec attkind 5) as [->|?];
      [intros [= <- <- <-]; split_and!; done|].
    destruct (Z.eqb_spec attkind 6) as [->|?];
      [intros [= <- <- <-]; split_and!; done|].
    lia. }
  unfold mbind, M_bind. rewrite Ef.
  destruct ov as [v| | |]; simpl; eexists; (split; [reflexivity|]);
    split_and!; intros Hkind;
    try (specialize (Hb Hkind)); try (specialize (Hi Hkind));
    try (specialize (Hk Hkind)); try (specialize (Hm Hkind));
    try (specialize (Hbits Hkind)); try (specialize (Hcm Hkind));
    congruence.
Qed.

Lemma device_info_catalog_rows_witness :
  (∃ o, pgstrom_device_info example_driver 9 initialised_world
        = ([EvCuda (CuDeviceGetAttribute CU_DEVICE_ATTRIBUTE_WARP_SIZE 1) CUDA_SUCCESS],
           set_cuda_clock (S (cuda_clock initialised_world)) initialised_world, o) ∧
        o = Done (Some (0, "Warp size in threads", "32"))) ∧
  (∃ o, pgstrom_device_info example_driver 18 initialised_world
        = ([EvCuda (CuDeviceGetAttribute CU_DEVICE_ATTRIBUTE_COMPUTE_MODE 1) CUDA_SUCCESS],
           set_cuda_clock (S (cuda_clock initialised_world)) initialised_world, o) ∧
        o = Undef).
Proof.
  assert (0 ≤ cuda_num_devices initialised_world) as Hn by (vm_compute; discriminate).
  assert (9 / 44 < cuda_num_devices initialised_world) as Hd9 by (vm_compute; reflexivity).
  assert (18 / 44 < cuda_num_devices initialised_world) as Hd18 by (vm_compute; reflexivity).
  assert (0 ≤ 9) as H9 by lia. assert (0 ≤ 18) as H18 by lia.
  assert (2 ≤ 9 `mod` 44) as Ha9 by (vm_compute; discriminate).
  assert (2 ≤ 18 `mod` 44) as Ha18 by (vm_compute; discriminate).
  split.
  - destruct (device_info_catalog_rows example_driver initialised_world 9 1
                _ _ _ Hn H9 Hd9 eq_refl Ha9 eq_refl eq_refl)
      as (o & E & _ & Hint & _).
    exists o. split; [exact E|]. exact (Hint eq_refl).
  - destruct (device_info_catalog_rows example_driver initialised_world 18 1
                _ _ _ Hn H18 Hd18 eq_refl Ha18 eq_refl eq_refl)
      as (o & E & _ & _ & _ & _ & _ & Hcm).
    exists o. split; [exact E|]. exact (Hcm eq_refl).
Defined.

Section device_info_reports.
Context (drv : Driver).

Lemma catalog_kinds : Forall (λ e, 1 ≤ e.2 ≤ 6) catalog.
Proof. repeat constructor; vm_compute; discriminate. Qed.

Lemma format_att_value_expected attkind property :
  1 ≤ attkind ≤ 6 →
  post (emits (λ e, e ≠ unexpected_kind_report))
       (format_att_value attkind property).
Proof.
  intros Hk. unfold format_att_value, DEVATTR_BOOL, DEVATTR_INT, DEVATTR_KB,
    DEVATTR_MHZ, DEVATTR_COMP_MODE, DEVATTR_BITS.
  destruct (Z.eqb_spec attkind 1); [post_auto ltac:(by repeat constructor)|].
  destruct (Z.eqb_spec attkind 2); [post_auto ltac:(by repeat constructor)|].
  destruct (Z.eqb_spec attkind 3); [post_auto ltac:(by repeat constructor)|].
  destruct (Z.eqb_spec attkind 4); [post_auto ltac:(by repeat constructor)|].
  destruct (Z.eqb_spec attkind 5); [post_auto ltac:(by repeat constructor)|].
  destruct (Z.eqb_spec attkind 6); [post_auto ltac:(by repeat constructor)|].
  lia.
Qed.

Lemma pgstrom_device_info_expected call_cntr :
  post (emits (λ e, e ≠ unexpected_kind_report)) (pgstrom_device_info drv call_cntr).
Proof.
  assert (∀ l i, post (emits (λ e, e ≠ unexpected_kind_report))
                      (pgstrom_init_cuda_loop drv l i)) as Hloop.
  { induction l as [|o l IH]; intros i; simpl;
      post_auto ltac:(by repeat constructor); apply IH. }
  assert (∀ (k : CUdevice_attribute * string * Z → M (option (Z * string * string))) i,
            (∀ e, e ∈ catalog → post (emits (λ e, e ≠ unexpected_kind_report)) (k e)) →
            post (emits (λ e, e ≠ unexpected_kind_report)) (array_get catalog i ≫= k))
    as Hget.
  { intros k i Hk w t w' o. unfold array_get.
    case_bool_decide; [|intros [= <- <- <-]; constructor].
    destruct (catalog !! Z.to_nat i) as [e|] eqn:Ee;
      [|intros [= <- <- <-]; constructor].
    rewrite run_ret. apply Hk. by eapply list_elem_of_lookup_2. }
  unfold pgstrom_device_info, pgstrom_init_cuda.
  repeat first
    [ apply Hget; intros [[attrib attname] attkind] He
    | post_step ltac:(by repeat constructor) ].
  - apply Hloop.
  - unfold cuDeviceGetAttribute. post_auto ltac:(by repeat constructor).
  - apply format_att_value_expected.
    pose proof catalog_kinds as Hall. rewrite Forall_forall in Hall.
    apply (Hall _ He).
Qed.

End device_info_reports.

(** X23.  At a call counter whose attribute index (the call counter modulo
    44) is inside the 42 entries of the catalog, the entry that
    [pgstrom_device_info] reads exists and has one of the six attribute
    kinds, so the function does not report the unexpected attribute kind, in
    any state and whatever the driver answers.  Nothing is said about the
    attribute indexes 42 and 43, at which the function reads past the
    catalog. *)
Theorem device_info_never_reports_unexpected_kind drv call_cntr w :
  0 ≤ call_cntr → call_cntr `mod` 44 < 42 →
  (∃ attrib attname attkind,
     catalog !! Z.to_nat (call_cntr `mod` 44) = Some (attrib, attname, attkind) ∧
     attkind ∈ [DEVATTR_BOOL; DEVATTR_INT; DEVATTR_KB; DEVATTR_MHZ;
                DEVATTR_COMP_MODE; DEVATTR_BITS]) ∧
  unexpected_kind_report ∉ (pgstrom_device_info drv call_cntr w).1.1.
Proof.
  intros Hc Ha. split.
  - pose proof (Z.mod_pos_bound call_cntr 44 ltac:(lia)) as Hm.
    destruct (lookup_lt_is_Some_2 catalog (Z.to_nat (call_cntr `mod` 44)))
      as [[[attrib attname] attkind] He].
    { change (length catalog) with 42%nat. lia. }
    exists attrib, attname, attkind. split; [done|].
    pose proof catalog_kinds as Hall. rewrite Forall_forall in Hall.
    specialize (Hall _ (list_elem_of_lookup_2 _ _ _ He)). simpl in Hall.
    unfold DEVATTR_BOOL, DEVATTR_INT, DEVATTR_KB, DEVATTR_MHZ,
      DEVATTR_COMP_MODE, DEVATTR_BITS.
    assert (attkind = 1 ∨ attkind = 2 ∨ attkind = 3 ∨ attkind = 4 ∨
            attkind = 5 ∨ attkind = 6) as Hk by lia.
    rewrite !elem_of_cons. tauto.
  - destruct (pgstrom_device_info drv call_cntr w) as [[t w'] o] eqn:E.
    pose proof (pgstrom_device_info_expected drv call_cntr _ _ _ _ E) as Ht.
    unfold emits in Ht. rewrite Forall_forall in Ht. intros Hin.
    by apply (Ht _ Hin).
Qed.

Lemma device_info_never_reports_unexpected_kind_witness :
  (∃ attrib attname attkind,
     catalog !! Z.to_nat (9 `mod` 44) = Some (attrib, attname, attkind) ∧
     attkind ∈ [DEVATTR_BOOL; DEVATTR_INT; DEVATTR_KB; DEVATTR_MHZ;
                DEVATTR_COMP_MODE; DEVATTR_BITS]) ∧
  unexpected_kind_report
  ∉ (pgstrom_device_info example_driver 9 initialised_world).1.1.
Proof.
  apply (device_info_never_reports_unexpected_kind example_driver 9
           initialised_world).
  - lia.
  - vm_compute. reflexivity.
Defined.

(** ** Workgroup sizing: the launch configuration *)

(** X20.  In the maximum-block-size mode, when the static shared memory of
    the kernel fits the device, the arithmetic stays inside 64 bits and the
    driver calls succeed, a returned pair is a launch configuration: the block
    size lies between the warp size and the limit of the kernel, its shared
    memory fits the device, and the grid covers all the items with less than
    one block to spare. *)
Theorem workgroup_size_grid_covers_items drv fuel function device nitems per_thread w
    grid block :
  let static := drv_func_attr drv CU_FUNC_ATTRIBUTE_SHARED_SIZE_BYTES function in
  let b0 := drv_func_attr drv CU_FUNC_ATTRIBUTE_MAX_THREADS_PER_BLOCK function in
  let limit := drv_device_attr drv CU_DEVICE_ATTRIBUTE_MAX_SHARED_MEMORY_PER_BLOCK device in
  let warp := drv_device_attr drv CU_DEVICE_ATTRIBUTE_WARP_SIZE device in
  (∀ n c, drv_rc drv n c = CUDA_SUCCESS) →
  0 ≤ static ≤ limit → limit < 2 ^ 64 →
  0 ≤ per_thread → static + per_thread * b0 < 2 ^ 64 →
  0 ≤ b0 ≤ INT_MAX → 0 < warp →
  0 ≤ nitems → nitems + b0 ≤ 2 ^ 64 →
  (Z.to_nat b0 < fuel)%nat →
  (pgstrom_compute_workgroup_size drv fuel function device true nitems per_thread w).2
  = Done (grid, block) →
  warp ≤ block ≤ b0 ∧
  static + per_thread * block ≤ limit ∧
  nitems ≤ grid * block < nitems + block.
Proof.
  intros static b0 limit warp Hok Hstatic Hlimit Hpt Hprod Hb0 Hwarp Hn Hnb Hfuel.
  destruct (workgroup_size_when_static_fits drv fuel function device nitems per_thread w
              Hok Hstatic Hlimit Hpt Hprod Hb0 Hwarp Hn Hnb Hfuel)
    as (t & w' & o & E & [(b & Eo & Hb & Hfit & _)|Eo]);
    rewrite E, Eo; simpl; [|done].
  fold static b0 limit warp in Hb, Hfit.
  intros [= <- <-]. split_and!; [lia..| |].
  - pose proof (Z.mod_pos_bound (nitems + b - 1) b ltac:(lia)).
    pose proof (Z.div_mod (nitems + b - 1) b ltac:(lia)). nia.
  - pose proof (Z.mod_pos_bound (nitems + b - 1) b ltac:(lia)).
    pose proof (Z.div_mod (nitems + b - 1) b ltac:(lia)). nia.
Qed.

Lemma workgroup_size_grid_covers_items_witness :
  (pgstrom_compute_workgroup_size example_driver 1025 7 1 true 100000 100 ready_world).2
  = Done (208, 481) ∧
  32 ≤ 481 ≤ 1024 ∧ 1024 + 100 * 481 ≤ 49152 ∧ 100000 ≤ 208 * 481 < 100000 + 481.
Proof.
  assert ((pgstrom_compute_workgroup_size example_driver 1025 7 1 true 100000 100
             ready_world).2 = Done (208, 481)) as E by (vm_compute; reflexivity).
  split; [exact E|].
  apply (workgroup_size_grid_covers_items example_driver 1025 7 1 100000 100
           ready_world 208 481); simpl; unfold INT_MAX; try lia; try done.
Defined.
